(** * Forecast collection and aggregation engine: a shallow embedding

    The Python sources embedded here are
    - [backend/analysis/bayesian_aggregator.py]   (BayesianAggregator)
    - [backend/analysis/consistency_scorer.py]    (ConsistencyScorer)
    - [backend/services/analysis/calibration.py]  (BatchCalibrator)
    - [backend/services/analysis/aggregator.py]   (ForecastAggregator)
    - [backend/services/core/api_client.py]       (OpenRouterClient)
    - [backend/core/ensemble_manager.py]          (EnsembleManager)

    Numbers.  Python floats are modelled by exact rationals [Q]; equality
    of numbers is [Qeq] ([==]).  Rounding of binary64 arithmetic is outside
    the model.  The few library functions that leave the rationals (square
    root, logarithm, exponential, Beta quantiles, rank correlation, the
    scikit-learn fits) are the fields of the class [SciLib].

    Text.  A Python [str] is a [string]; one [ascii] stands for one
    character, and the classes [\d], [\s], [\w] and case folding are those
    of the ASCII range.

    Exceptions.  A Python call that can raise returns a [result]. *)

From Stdlib Require Import QArith Qabs Qminmax Qround ZArith List Lia Lqa.
From Stdlib Require Import Permutation String Ascii.
From stdpp Require Import gmap strings list fin_maps pretty.

Open Scope Q_scope.

(* ===================================================================== *)
(** * Part I.  Definitions                                                *)
(* ===================================================================== *)

(** ** Exceptions *)

Inductive result (A : Type) : Type :=
| Ok (a : A)
| Raise (e : string).
Arguments Ok {A} a.
Arguments Raise {A} e.

Definition rbind {A B} (r : result A) (k : A -> result B) : result B :=
  match r with Ok a => k a | Raise e => Raise e end.

Notation "'try!' x <- r ; k" := (rbind r (fun x => k))
  (at level 10, x name, r at level 100, k at level 200).

(** ** NumPy on rationals *)

Definition Qltb (x y : Q) : bool := negb (Qle_bool y x).

(** Sums keep their fractions in lowest terms ([Qred x == x]), so that
    the model runs on concrete inputs. *)
Definition Qsum (l : list Q) : Q := fold_right (fun x acc => Qred (x + acc)) 0 l.

Definition Qlen {A} (l : list A) : Q := inject_Z (Z.of_nat (length l)).

(** [np.mean] of a non-empty array.  (On the empty array NumPy yields
    [nan]; every call site in the sources guards that case.) *)
Definition np_mean (l : list Q) : Q := Qred (Qsum l / Qlen l).

(** The mean of the samples, when there is one. *)
Definition mean_of_samples (samples : list Q) : option Q :=
  match samples with [] => None | _ => Some (np_mean samples) end.

(** [np.var]: the population variance, [mean(abs(x - mean)**2)]. *)
Definition np_var (l : list Q) : Q :=
  let m := np_mean l in np_mean (map (fun x => Qabs (x - m) * Qabs (x - m)) l).

Definition np_clip (x lo hi : Q) : Q := Qmin (Qmax x lo) hi.

Fixpoint insert_sorted (x : Q) (l : list Q) : list Q :=
  match l with
  | [] => [x]
  | y :: t => if Qle_bool x y then x :: l else y :: insert_sorted x t
  end.

Definition np_sort (l : list Q) : list Q := fold_right insert_sorted [] l.

(** [np.max] / [np.min] of a non-empty array. *)
Definition np_max (l : list Q) : Q :=
  match l with [] => 0 | x :: t => fold_left Qmax t x end.
Definition np_min (l : list Q) : Q :=
  match l with [] => 0 | x :: t => fold_left Qmin t x end.

(** [np.median]: the middle order statistic, or the mean of the two
    middle ones. *)
Definition np_median (l : list Q) : Q :=
  let s := np_sort l in
  let n := length s in
  if Nat.even n
  then (nth (n / 2 - 1) s 0 + nth (n / 2) s 0) / 2
  else nth (n / 2) s 0.

(** [np.percentile(a, q)] with the default linear interpolation: the
    virtual index [q/100 * (n-1)] is split into its floor and fraction. *)
Definition np_percentile (l : list Q) (q : Q) : Q :=
  let s := np_sort l in
  let n := length s in
  let idx := q / 100 * inject_Z (Z.of_nat (n - 1)) in
  let lo := Z.to_nat (Qfloor idx) in
  let hi := Nat.min (S lo) (n - 1) in
  let g := idx - inject_Z (Qfloor idx) in
  nth lo s 0 + (nth hi s 0 - nth lo s 0) * g.

(** [np.average(a, weights=w)] raises when the weights sum to zero. *)
Definition np_average (a w : list Q) : result Q :=
  let scl := Qsum w in
  if Qeq_bool scl 0
  then Raise "ZeroDivisionError"
  else Ok (Qred (Qsum (zip_with Qmult a w) / scl)).

(** The library functions that leave the rationals. *)
Class SciLib : Type := {
  np_sqrt : Q -> Q;
  np_log : Q -> Q;
  np_exp : Q -> Q;
  (** [scipy.stats.beta(a, b).ppf(q)], as [beta_ppf q a b] *)
  beta_ppf : Q -> Q -> Q -> Q;
  (** [scipy.stats.spearmanr(x, y)[0]]; [None] is [nan] *)
  spearmanr : list Q -> list Q -> option Q;
  (** [scipy.stats.trim_mean] *)
  trim_mean : list Q -> Q -> Q;
  (** [LogisticRegression().fit(X, y, sample_weight)], as the function
      [x |-> predict_proba([[x]])[0, 1]] of the fitted model *)
  logistic_regression_fit :
    list Q -> list bool -> option (list Q) -> result (Q -> Q);
  (** [IsotonicRegression(out_of_bounds='clip').fit(X, y)], as the
      function [predict] of the fitted model *)
  isotonic_regression_fit : list Q -> list Q -> result (Q -> Q);
  (** [scipy.optimize.minimize(f, [x0], bounds=[(lo, hi)]).x[0]] *)
  minimize_bounded : (Q -> Q) -> Q -> Q -> Q -> Q;
  np_sqrt_wd : forall x y, x == y -> np_sqrt x == np_sqrt y;
}.

Section Numpy.
Context {L : SciLib}.

(** [np.std]: the population standard deviation. *)
Definition np_std (l : list Q) : Q := np_sqrt (np_var l).

(** [scipy.special.logit] and [expit]. *)
Definition logit (p : Q) : Q := np_log (p / (1 - p)).
Definition expit (x : Q) : Q := 1 / (1 + np_exp (- x)).
End Numpy.

(** A rational stand-in for the library, used only to run the model on
    concrete inputs: square roots truncated to six decimals, and short
    series for the logarithm and the exponential. *)
Definition approx_sqrt (x : Q) : Q :=
  let r := Qred x in
  inject_Z (Z.sqrt (Qnum r * 10 ^ 12 / Zpos (Qden r))) / inject_Z (10 ^ 6).

Definition approx_log (x : Q) : Q :=
  let z := Qred ((x - 1) / (x + 1)) in
  Qred (2 * (z + z * z * z / 3 + z * z * z * z * z / 5)).

Definition approx_exp (x : Q) : Q :=
  Qred (1 + x + x * x / 2 + x * x * x / 6).

#[export] Instance rational_lib : SciLib.
Proof.
  refine {| np_sqrt := approx_sqrt; np_log := approx_log;
            np_exp := approx_exp;
            beta_ppf := fun _ a b => Qred (a / (a + b));
            spearmanr := fun _ _ => None;
            trim_mean := fun l _ => np_mean l;
            logistic_regression_fit := fun _ _ _ => Ok (fun x => x);
            isotonic_regression_fit := fun _ _ => Ok (fun x => x);
            minimize_bounded := fun _ x0 _ _ => x0 |}.
  intros x y H. unfold approx_sqrt. rewrite (Qred_complete _ _ H).
  reflexivity.
Defined.

(** ** bayesian_aggregator.py *)

(** One entry of [historical_performance]. *)
Record Performance : Type := {
  perf_predictions : list Q;
  perf_errors : list Q;
  avg_error : Q;
}.

(** The attributes of a [BayesianAggregator] instance. *)
Record BayesianAggregator : Type := {
  prior_strength : Q;
  outlier_threshold : Q;
  historical_performance : gmap string Performance;
}.

(** [BayesianAggregator()] with the default arguments. *)
Definition BayesianAggregator_init : BayesianAggregator :=
  {| prior_strength := 1.0; outlier_threshold := 2.5;
     historical_performance := ∅ |}.

(** The dictionary built by [ConsistencyScorer.score_model_samples]. *)
Record Metrics : Type := {
  metrics_model : string;
  consistency_score : Q;
  sample_count : nat;
  metrics_mean : Q;
  metrics_std : Q;
  metrics_min : Q;
  metrics_max : Q;
  confidence_level : string;
}.

(** The values stored in the dictionaries the aggregators return. *)
Inductive value : Type :=
| VFloat (q : Q)
| VInt (z : Z)
| VStr (s : string)
| VInterval (lo hi : Q)
| VWeights (w : gmap string Q)
| VScores (scores : list (string * Metrics))
| VNone.

(** [d[k]] raises [KeyError] on a missing key. *)
Definition dict_item (d : gmap string value) (k : string) : result value :=
  match d !! k with Some v => Ok v | None => Raise "KeyError" end.

(** A dictionary entry used as a number. *)
Definition as_float (v : value) : result Q :=
  match v with
  | VFloat q => Ok q
  | VInt z => Ok (inject_Z z)
  | _ => Raise "TypeError"
  end.

(** [dict(zip(keys, vals))]: a later pair overrides an earlier one. *)
Definition py_dict {V} (kvs : list (string * V)) : gmap string V :=
  fold_left (fun m kv => <[kv.1 := kv.2]> m) kvs ∅.

(** The dictionary built by [_bayesian_pool]. *)
Record Pooled : Type := {
  pool_mean : Q; pool_variance : Q; pool_lower : Q; pool_upper : Q;
  pool_alpha : Q; pool_beta : Q;
}.

Section Bayes.
Context {L : SciLib}.

Definition _detect_outliers (self : BayesianAggregator)
    (probabilities : list Q) : list bool :=
  if (length probabilities <? 3)%nat
  then repeat false (length probabilities)
  else
    let median := np_median probabilities in
    let mad := np_median (map (fun p => Qabs (p - median)) probabilities) in
    if Qltb 0 mad then
      map (fun p =>
             Qltb (outlier_threshold self)
                  (Qabs (0.6745 * (p - median) / mad)))
          probabilities
    else
      let q1 := np_percentile probabilities 25 in
      let q3 := np_percentile probabilities 75 in
      let iqr := q3 - q1 in
      if Qltb 0 iqr then
        map (fun p => Qltb p (q1 - 1.5 * iqr) || Qltb (q3 + 1.5 * iqr) p)
            probabilities
      else repeat false (length probabilities).

(** Step 1 of [_calculate_expert_weights]: [weights *= confidences],
    in place on an array of [n] ones.  NumPy broadcasts a one-element
    operand and rejects any other length mismatch. *)
Definition confidence_weighting (n : nat) (confidences : list Q)
    : result (list Q) :=
  let weights := repeat 1 n in
  if (length confidences =? n)%nat
  then Ok (zip_with Qmult weights confidences)
  else match confidences with
       | [c] => Ok (map (fun w => w * c) weights)
       | _ => Raise "ValueError"
       end.

(** Step 2: [weights[outlier_mask] *= 0.1]. *)
Definition outlier_penalty (weights : list Q) (outlier_mask : list bool)
    : list Q :=
  zip_with (fun w (o : bool) => if o then w * 0.1 else w)
           weights outlier_mask.

(** Step 3: the loop over [enumerate(expert_ids)]. *)
Fixpoint historical_weighting (self : BayesianAggregator) (i : nat)
    (expert_ids : list string) (weights : list Q) : result (list Q) :=
  match expert_ids with
  | [] => Ok weights
  | expert_id :: rest =>
      match historical_performance self !! expert_id with
      | Some perf =>
          let hist_weight := 1.0 / (1.0 + avg_error perf) in
          match weights !! i with
          | Some w =>
              historical_weighting self (S i) rest
                                   (<[i := w * hist_weight]> weights)
          | None => Raise "IndexError"
          end
      | None => historical_weighting self (S i) rest weights
      end
  end.

(** Step 4: one round of agreement-with-consensus reweighting. *)
Definition consensus_round (probabilities weights : list Q)
    : result (list Q) :=
  try! weighted_mean <- np_average probabilities weights;
  let distances := map (fun p => Qabs (p - weighted_mean)) probabilities in
  let agreement_weights := map (fun d => 1.0 / (1.0 + d * 5)) distances in
  Ok (zip_with Qmult weights agreement_weights).

Fixpoint consensus_rounds (k : nat) (probabilities weights : list Q)
    : result (list Q) :=
  match k with
  | O => Ok weights
  | S k' =>
      try! weights' <- consensus_round probabilities weights;
      consensus_rounds k' probabilities weights'
  end.

Definition normalize_weights (weights : list Q) : list Q :=
  let s := Qsum weights in map (fun w => Qred (w / s)) weights.

Definition _calculate_expert_weights (self : BayesianAggregator)
    (probabilities : list Q) (expert_ids : list string)
    (confidences : list Q) (outlier_mask : list bool) : result (list Q) :=
  let n_experts := length probabilities in
  try! weights <- confidence_weighting n_experts confidences;
  let weights := outlier_penalty weights outlier_mask in
  try! weights <- historical_weighting self 0 expert_ids weights;
  try! weights <- consensus_rounds 3 probabilities weights;
  Ok (normalize_weights weights).

Definition _bayesian_pool (self : BayesianAggregator)
    (probabilities weights : list Q) : Pooled :=
  let alpha_prior := prior_strength self in
  let beta_prior := prior_strength self in
  let n_virtual_samples := 10 in
  let alpha_updates :=
    zip_with (fun p w => p * w * n_virtual_samples) probabilities weights in
  let beta_updates :=
    zip_with (fun p w => (1 - p) * w * n_virtual_samples)
             probabilities weights in
  let alpha_post := alpha_prior + Qsum alpha_updates in
  let beta_post := beta_prior + Qsum beta_updates in
  (* [posterior_dist.mean()] and [.var()] of [beta(alpha_post, beta_post)],
     a distribution when both parameters are positive *)
  let mean := Qred (alpha_post / (alpha_post + beta_post)) in
  let variance :=
    Qred (alpha_post * beta_post /
          ((alpha_post + beta_post) * (alpha_post + beta_post)
           * (alpha_post + beta_post + 1))) in
  {| pool_mean := mean; pool_variance := variance;
     pool_lower := beta_ppf 0.025 alpha_post beta_post;
     pool_upper := beta_ppf 0.975 alpha_post beta_post;
     pool_alpha := alpha_post; pool_beta := beta_post |}.

(** [dist * weights[i] * weights[j]] for all [i < j]. *)
Fixpoint pairwise_distances (probabilities weights : list Q) : list Q :=
  match probabilities, weights with
  | pi :: ps, wi :: ws =>
      zip_with (fun pj wj => Qabs (pi - pj) * wi * wj) ps ws
      ++ pairwise_distances ps ws
  | _, _ => []
  end.

Definition _calculate_uncertainty (probabilities weights : list Q)
    : result Q :=
  try! weighted_mean <- np_average probabilities weights;
  try! variance <-
    np_average (map (fun p => (p - weighted_mean) * (p - weighted_mean))
                    probabilities) weights;
  let weight_entropy :=
    - Qsum (map (fun w => w * np_log (w + 1e-10)) weights) in
  let max_entropy := np_log (Qlen weights) in
  let normalized_entropy :=
    if Qltb 0 max_entropy then weight_entropy / max_entropy else 0 in
  let pd := pairwise_distances probabilities weights in
  let avg_disagreement := match pd with [] => 0 | _ => np_mean pd end in
  let uncertainty :=
    (variance + normalized_entropy + avg_disagreement) / 3 in
  Ok (np_clip uncertainty 0 1).

(** [errors[-20:]] *)
Definition last_n {A} (n : nat) (l : list A) : list A :=
  skipn (length l - n) l.

Definition update_one (hp : gmap string Performance)
    (expert_id : string) (pred consensus : Q) : gmap string Performance :=
  let perf :=
    match hp !! expert_id with
    | Some perf => perf
    | None => {| perf_predictions := []; perf_errors := [];
                 avg_error := 0.5 |}
    end in
  let error := Qabs (pred - consensus) in
  let errors := perf_errors perf ++ [error] in
  <[expert_id :=
      {| perf_predictions := perf_predictions perf ++ [pred];
         perf_errors := errors;
         avg_error := np_mean (last_n 20 errors) |}]> hp.

Definition _update_expert_performance (self : BayesianAggregator)
    (expert_ids : list string) (predictions : list Q) (consensus : Q)
    : BayesianAggregator :=
  {| prior_strength := prior_strength self;
     outlier_threshold := outlier_threshold self;
     historical_performance :=
       fold_left (fun hp ep => update_one hp ep.1 ep.2 consensus)
                 (zip expert_ids predictions)
                 (historical_performance self) |}.

(** [f"expert_{i}"] *)
Definition expert_name (i : nat) : string :=
  String.append "expert_" (pretty i).

Definition count_true (mask : list bool) : Z :=
  Z.of_nat (length (filter (fun b => b = true) mask)).

Definition aggregate_forecasts (self : BayesianAggregator)
    (forecasts : list Q) (expert_ids : option (list string))
    (confidences : option (list Q))
    : result (gmap string value * BayesianAggregator) :=
  match forecasts with
  | [] => Ok ({[ "error"%string := VStr "No forecasts provided" ]}, self)
  | _ =>
      let probs := map (fun f => f / 100.0) forecasts in
      let expert_ids :=
        match expert_ids with
        | None => map expert_name (seq 0 (length forecasts))
        | Some ids => ids
        end in
      let confidences :=
        match confidences with
        | None => repeat 1 (length forecasts)
        | Some c => c
        end in
      let outlier_mask := _detect_outliers self probs in
      try! weights <-
        _calculate_expert_weights self probs expert_ids confidences
                                  outlier_mask;
      let aggregated := _bayesian_pool self probs weights in
      try! uncertainty <- _calculate_uncertainty probs weights;
      let self' :=
        _update_expert_performance self expert_ids probs
                                   (pool_mean aggregated) in
      Ok (<[ "aggregated_probability"%string :=
               VFloat (pool_mean aggregated * 100) ]>
          (<[ "confidence_interval"%string :=
               VInterval (pool_lower aggregated * 100)
                         (pool_upper aggregated * 100) ]>
          (<[ "uncertainty"%string := VFloat uncertainty ]>
          (<[ "expert_weights"%string :=
               VWeights (py_dict (zip expert_ids weights)) ]>
          (<[ "outliers_detected"%string :=
               VInt (count_true outlier_mask) ]>
          (<[ "method"%string := VStr "robust_bayesian" ]>
          (<[ "posterior_variance"%string :=
               VFloat (pool_variance aggregated) ]> ∅)))))),
          self')
  end.
(** The entry ["aggregated_probability"] of a returned dictionary. *)
Definition aggregated_probability
    (r : result (gmap string value * BayesianAggregator)) : option Q :=
  match r with
  | Ok (d, _) =>
      match d !! "aggregated_probability"%string with
      | Some (VFloat m) => Some m
      | _ => None
      end
  | Raise _ => None
  end.
End Bayes.

(** The running errors of the history are absolute values. *)
Definition hist_ok (self : BayesianAggregator) : Prop :=
  forall id perf,
    historical_performance self !! id = Some perf -> 0 <= avg_error perf.

(** Optional arguments that fit a list of [n] forecasts. *)
Definition ids_ok (n : nat) (expert_ids : option (list string)) : Prop :=
  match expert_ids with None => True | Some ids => length ids = n end.

(** Weights that [np.average] accepts: none negative, not all zero. *)
Definition weights_ok (w : list Q) : Prop :=
  Forall (fun x => 0 <= x) w /\ 0 < Qsum w.

Definition confidences_ok (n : nat) (confidences : option (list Q)) : Prop :=
  match confidences with
  | None => True
  | Some c => length c = n /\ weights_ok c
  end.

(** ** Python dictionaries that keep insertion order *)

Fixpoint dict_get {V} (d : list (string * V)) (k : string) : option V :=
  match d with
  | [] => None
  | (k', v) :: rest => if String.eqb k' k then Some v else dict_get rest k
  end.

(** [d[k] = v]: overwrite in place, or append a new key. *)
Fixpoint dict_set {V} (d : list (string * V)) (k : string) (v : V)
    : list (string * V) :=
  match d with
  | [] => [(k, v)]
  | (k', v') :: rest =>
      if String.eqb k' k then (k', v) :: rest
      else (k', v') :: dict_set rest k v
  end.

(** ** consistency_scorer.py *)

(** The attributes of a [ConsistencyScorer] instance. *)
Record ConsistencyScorer : Type := {
  scorer_method : string;
  consistency_scores : gmap string Metrics;
  model_consistencies : gmap string (list Q);
}.

(** [ConsistencyScorer(method)]; the default method is ["ensemble"]. *)
Definition ConsistencyScorer_init (method : string) : ConsistencyScorer :=
  {| scorer_method := method; consistency_scores := ∅;
     model_consistencies := ∅ |}.

(** The dictionary returned by [score_ensemble]. *)
Record EnsembleScore : Type := {
  model_scores : list (string * Metrics);
  ensemble_consistency : Q;
  mean_model_consistency : Q;
  consistency_variance : Q;
  most_consistent_model : option string;
  least_consistent_model : option string;
}.

(** [np.histogram(samples, bins=np.linspace(0, 100, 11))[0]]: ten bins
    of width ten, half-open except the last; samples outside [0,100] are
    not counted. *)
Definition in_bin (i : nat) (x : Q) : bool :=
  let lo := 10 * inject_Z (Z.of_nat i) in
  let hi := 10 * inject_Z (Z.of_nat (S i)) in
  Qle_bool lo x && (if (i =? 9)%nat then Qle_bool x hi else Qltb x hi).

Definition np_histogram10 (samples : list Q) : list Q :=
  map (fun i => Qlen (List.filter (in_bin i) samples)) (seq 0 10).

Section Consistency.
Context {L : SciLib}.

(** [scipy.stats.entropy(pk)]: [pk] is normalised to sum to one, and the
    terms [-x log x] (zero at [x = 0]) are added up. *)
Definition sp_entropy (pk : list Q) : Q :=
  let s := Qsum pk in
  Qsum (map (fun p => let x := p / s in
                      if Qltb 0 x then - (x * np_log x) else 0) pk).

(** When no sample lies in [0,100] the "indirect" branch divides by a
    zero count in NumPy and the score is [nan]; the model has no [nan]. *)
Definition calculate_consistency (self : ConsistencyScorer)
    (samples : list Q) : Q :=
  if (length samples <? 2)%nat then 1.0
  else
    let consistency :=
      if String.eqb (scorer_method self) "direct" then
        let mean_val := np_mean samples in
        let std_val := np_std samples in
        if Qltb 0 mean_val then
          let cv := std_val / mean_val in
          1.0 / (1.0 + cv)
        else if Qeq_bool std_val 0 then 1.0 else 0.0
      else if String.eqb (scorer_method self) "indirect" then
        let hist := np_histogram10 samples in
        let hist_norm := map (fun h => h / Qsum hist) hist in
        let ent := sp_entropy (map (fun h => h + 1e-10) hist_norm) in
        let max_entropy := np_log (11 - 1) in
        if Qltb 0 max_entropy then 1.0 - ent / max_entropy else 1.0
      else if String.eqb (scorer_method self) "ensemble" then
        let std_score := 1.0 / (1.0 + np_std samples / 10.0) in
        let range_val := np_max samples - np_min samples in
        let range_score := 1.0 - range_val / 100.0 in
        let q75 := np_percentile samples 75 in
        let q25 := np_percentile samples 25 in
        let iqr := q75 - q25 in
        let iqr_score := 1.0 / (1.0 + iqr / 20.0) in
        (std_score + range_score + iqr_score) / 3.0
      else
        1.0 / (1.0 + np_std samples)
    in
    np_clip consistency 0 1.

Definition _classify_confidence (consistency_score : Q) : string :=
  if Qle_bool 0.9 consistency_score then "very_high"
  else if Qle_bool 0.75 consistency_score then "high"
  else if Qle_bool 0.5 consistency_score then "medium"
  else if Qle_bool 0.25 consistency_score then "low"
  else "very_low".

Definition score_model_samples (self : ConsistencyScorer)
    (model_name : string) (samples : list Q) : Metrics * ConsistencyScorer :=
  let consistency := calculate_consistency self samples in
  let metrics :=
    {| metrics_model := model_name;
       consistency_score := consistency;
       sample_count := length samples;
       metrics_mean := match samples with [] => 0 | _ => np_mean samples end;
       metrics_std :=
         if (1 <? length samples)%nat then np_std samples else 0;
       metrics_min := match samples with [] => 0 | _ => np_min samples end;
       metrics_max := match samples with [] => 0 | _ => np_max samples end;
       confidence_level := _classify_confidence consistency |} in
  (metrics,
   {| scorer_method := scorer_method self;
      consistency_scores := <[model_name := metrics]> (consistency_scores self);
      model_consistencies :=
        <[model_name :=
            default [] (model_consistencies self !! model_name)
            ++ [consistency]]> (model_consistencies self) |}).

Definition _calculate_ensemble_consistency (self : ConsistencyScorer)
    (model_samples : list (string * list Q)) : Q :=
  let model_means :=
    map (fun ms => np_mean ms.2)
        (List.filter (fun ms => negb (Nat.eqb (length ms.2) 0)) model_samples)
  in
  if (length model_means <? 2)%nat then 1.0
  else
    let ensemble_consistency := calculate_consistency self model_means in
    match model_samples with
    | (_, s0) :: (_, s1) :: _ =>
        if (1 <? length s0)%nat && (1 <? length s1)%nat then
          let k := Nat.min (length s0) (length s1) in
          match spearmanr (take k s0) (take k s1) with
          | Some corr => (ensemble_consistency + (corr + 1) / 2) / 2
          | None => ensemble_consistency
          end
        else ensemble_consistency
    | _ => ensemble_consistency
    end.

(** [max(d, key=...)] and [min(d, key=...)]: the first key that attains
    the extreme score; [better a b] says that the score [a] beats [b]. *)
Fixpoint arg_best (better : Q -> Q -> bool) (d : list (string * Metrics))
    : option string :=
  match d with
  | [] => None
  | (k, m) :: rest =>
      match arg_best better rest with
      | None => Some k
      | Some k' =>
          match dict_get rest k' with
          | Some m' =>
              if better (consistency_score m') (consistency_score m)
              then Some k' else Some k
          | None => Some k
          end
      end
  end.

Definition score_ensemble (self : ConsistencyScorer)
    (model_samples : list (string * list Q))
    : EnsembleScore * ConsistencyScorer :=
  let '(model_metrics, all_scores, self') :=
    fold_left
      (fun '(mm, scores, s) '(model_name, samples) =>
         let '(metrics, s') := score_model_samples s model_name samples in
         (dict_set mm model_name metrics,
          scores ++ [consistency_score metrics], s'))
      model_samples ([], [], self) in
  let ensemble_consistency :=
    _calculate_ensemble_consistency self' model_samples in
  ({| model_scores := model_metrics;
      ensemble_consistency := ensemble_consistency;
      mean_model_consistency :=
        match all_scores with [] => 0 | _ => np_mean all_scores end;
      consistency_variance :=
        if (1 <? length all_scores)%nat then np_var all_scores else 0;
      most_consistent_model :=
        arg_best (fun a b => Qltb b a) model_metrics;
      least_consistent_model := arg_best Qltb model_metrics |},
   self').

(** The loop of [calculate_weighted_aggregate]: the pair
    [(weighted_sum, total_weight)] after all models. *)
Definition weighted_totals (self : ConsistencyScorer)
    (model_predictions : list (string * list Q)) : Q * Q :=
  fold_left
    (fun '(weighted_sum, total_weight) '(model_name, predictions) =>
       match predictions with
       | [] => (weighted_sum, total_weight)
       | _ =>
           let consistency := calculate_consistency self predictions in
           let weight := consistency * consistency in
           let mean_pred := np_mean predictions in
           (Qred (weighted_sum + weight * mean_pred),
            Qred (total_weight + weight))
       end)
    model_predictions (0.0, 0.0).

(** [[p for preds in model_predictions.values() for p in preds]] *)
Definition all_preds (model_predictions : list (string * list Q)) : list Q :=
  concat (map snd model_predictions).

Definition calculate_weighted_aggregate (self : ConsistencyScorer)
    (model_predictions : list (string * list Q)) : Q :=
  let '(weighted_sum, total_weight) :=
    weighted_totals self model_predictions in
  if Qltb 0 total_weight then weighted_sum / total_weight
  else
    match all_preds model_predictions with
    | [] => 50.0
    | ps => np_mean ps
    end.

End Consistency.

(** ** calibration.py *)

(** The attributes of a [BatchCalibrator] instance; a fitted
    [calibration_model] is the function it predicts with. *)
Record BatchCalibrator : Type := {
  calibrator_method : string;
  calibration_model : option (Q -> Q);
  temperature : Q;
  is_fitted : bool;
}.

(** [BatchCalibrator(method)]; the default method is ["platt"]. *)
Definition BatchCalibrator_init (method : string) : BatchCalibrator :=
  {| calibrator_method := method; calibration_model := None;
     temperature := 1.0; is_fitted := false |}.

(** [[l[i:i + n] for i in range(0, len(l), n)]] for [n > 0]; the fuel
    bounds the number of chunks. *)
Fixpoint chunks {A} (fuel n : nat) (l : list A) : list (list A) :=
  match fuel, l with
  | _, [] => []
  | O, _ => []
  | S fuel', _ => take n l :: chunks fuel' n (drop n l)
  end.

Definition _create_batches (probabilities : list Q) (batch_size : nat)
    : list (list Q) :=
  let sorted_probs := np_sort probabilities in
  chunks (length sorted_probs) batch_size sorted_probs.

Section Calibration.
Context {L : SciLib}.

Definition _optimize_temperature (probabilities : list Q)
    (labels : list bool) : Q :=
  let probs := map (fun p => p / 100.0) probabilities in
  let labs := map (fun b : bool => if b then 1.0 else 0.0) labels in
  let neg_log_likelihood (T : Q) : Q :=
    let scaled_probs :=
      map (fun p => expit (logit (np_clip p 1e-7 (1 - 1e-7)) / T)) probs in
    - np_mean
        (zip_with
           (fun lab sp =>
              lab * np_log (np_clip sp 1e-7 1)
              + (1 - lab) * np_log (np_clip (1 - sp) 1e-7 1))
           labs scaled_probs) in
  minimize_bounded neg_log_likelihood 1.0 0.1 10.0.

Definition with_model (self : BatchCalibrator) (m : Q -> Q)
    : BatchCalibrator :=
  {| calibrator_method := calibrator_method self;
     calibration_model := Some m;
     temperature := temperature self; is_fitted := is_fitted self |}.

Definition with_temperature (self : BatchCalibrator) (T : Q)
    : BatchCalibrator :=
  {| calibrator_method := calibrator_method self;
     calibration_model := calibration_model self;
     temperature := T; is_fitted := is_fitted self |}.

Definition with_fitted (self : BatchCalibrator) : BatchCalibrator :=
  {| calibrator_method := calibrator_method self;
     calibration_model := calibration_model self;
     temperature := temperature self; is_fitted := true |}.

Definition _fit_supervised (self : BatchCalibrator)
    (probabilities : list Q) (labels : list bool) : result BatchCalibrator :=
  if String.eqb (calibrator_method self) "platt" then
    try! m <- logistic_regression_fit probabilities labels None;
    Ok (with_model self m)
  else if String.eqb (calibrator_method self) "isotonic" then
    try! m <- isotonic_regression_fit
                probabilities
                (map (fun b : bool => if b then 1 else 0) labels);
    Ok (with_model self m)
  else if String.eqb (calibrator_method self) "temperature" then
    Ok (with_temperature self (_optimize_temperature probabilities labels))
  else Ok self.

(** The pseudo-labelled points of one batch. *)
Definition pseudo_points (batch : list Q) : list (Q * Q) :=
  if (1 <? length batch)%nat then
    let mean_prob := np_mean batch in
    let consistency := 1.0 / (1.0 + np_std batch) in
    map (fun prob =>
           (prob,
            if Qltb 0.7 consistency
            then (if Qltb 0.5 prob then 1 else 0)
            else mean_prob))
        batch
  else [].

Definition _fit_unsupervised (self : BatchCalibrator)
    (probabilities : list Q) : result BatchCalibrator :=
  let batches := _create_batches probabilities 10 in
  if String.eqb (calibrator_method self) "temperature" then
    let batch_variances :=
      map np_var (List.filter (fun b => (1 <? length b)%nat) batches) in
    match batch_variances with
    | [] => Ok (with_temperature self 1.0)
    | _ =>
        let avg_variance := np_mean batch_variances in
        let T := 1.0 + (avg_variance - 0.01) * 10 in
        Ok (with_temperature self (Qmax 0.5 (Qmin 2.0 T)))
    end
  else
    let pseudo := concat (map pseudo_points batches) in
    let pseudo_X := map fst pseudo in
    let pseudo_y := map snd pseudo in
    match pseudo_X with
    | [] => Ok self
    | _ =>
        if String.eqb (calibrator_method self) "platt" then
          let weights :=
            map (fun p => 1.0 / (1.0 + Qabs (p - 0.5))) pseudo_X in
          try! m <- logistic_regression_fit
                      pseudo_X (map (fun y => Qltb 0.5 y) pseudo_y)
                      (Some weights);
          Ok (with_model self m)
        else if String.eqb (calibrator_method self) "isotonic" then
          try! m <- isotonic_regression_fit pseudo_X pseudo_y;
          Ok (with_model self m)
        else Ok self
    end.

Definition fit (self : BatchCalibrator) (probabilities : list Q)
    (labels : option (list bool)) : result BatchCalibrator :=
  try! self' <-
    match labels with
    | Some labs =>
        if (length labs =? length probabilities)%nat
        then _fit_supervised self probabilities labs
        else _fit_unsupervised self probabilities
    | None => _fit_unsupervised self probabilities
    end;
  Ok (with_fitted self').

Definition calibrate (self : BatchCalibrator) (probability : Q) : Q :=
  if negb (is_fitted self) then probability
  else
    let prob_01 := probability / 100.0 in
    let calibrated :=
      if String.eqb (calibrator_method self) "temperature" then
        if Qeq_bool (temperature self) 1.0 then prob_01
        else
          let logit_val := logit (np_clip prob_01 1e-7 (1 - 1e-7)) in
          expit (logit_val / temperature self)
      else
        match calibration_model self with
        | Some m =>
            if String.eqb (calibrator_method self) "platt"
               || String.eqb (calibrator_method self) "isotonic"
            then m prob_01
            else prob_01
        | None => prob_01
        end
    in
    np_clip (calibrated * 100) 0 100.

Definition calibrate_batch (self : BatchCalibrator) (probabilities : list Q)
    : result (list Q * BatchCalibrator) :=
  try! self' <-
    (if negb (is_fitted self) then fit self probabilities None else Ok self);
  Ok (map (calibrate self') probabilities, self').
End Calibration.

(** ** models.py and aggregator.py *)

Inductive ResponseStatus : Type := SUCCESS | ERROR | TIMEOUT | RATE_LIMITED.

(** [status.value == "success"] *)
Definition is_success (st : ResponseStatus) : bool :=
  match st with SUCCESS => true | _ => false end.

Record ModelResponse : Type := {
  response_model : string;
  response_iteration : nat;
  response_ensemble_id : string;
  response_time : Q;
  response_status : ResponseStatus;
  response_content : option string;
  response_probability : option Q;
}.

(** The attributes of a [ForecastAggregator] that
    [get_advanced_aggregation] uses. *)
Record ForecastAggregator : Type := {
  aggregator_method : string;
  calibrator : BatchCalibrator;
  consistency_scorer : ConsistencyScorer;
  bayesian_aggregator : BayesianAggregator;
}.

(** [ForecastAggregator()] *)
Definition ForecastAggregator_init : ForecastAggregator :=
  {| aggregator_method := "ensemble";
     calibrator := BatchCalibrator_init "temperature";
     consistency_scorer := ConsistencyScorer_init "ensemble";
     bayesian_aggregator := BayesianAggregator_init |}.

(** [r.status.value == "success" and r.probability is not None] *)
Definition valid_probability (r : ModelResponse) : option Q :=
  if is_success (response_status r) then response_probability r else None.

Definition valid_responses_of (responses : list ModelResponse)
    : list ModelResponse :=
  List.filter (fun r => match valid_probability r with
                        | Some _ => true | None => false end) responses.

(** [model_predictions[r.model].append(r.probability)] on a
    [defaultdict(list)], over the valid responses. *)
Definition group_by_model (responses : list ModelResponse)
    : list (string * list Q) :=
  fold_left
    (fun d r =>
       match valid_probability r with
       | Some p =>
           dict_set d (response_model r)
                    (default [] (dict_get d (response_model r)) ++ [p])
       | None => d
       end)
    responses [].

Section Aggregator.
Context {L : SciLib}.

(** [consistency_result.get("ensemble_consistency", 0)] is the field of
    the record: [score_ensemble] always sets it. *)
Definition _get_recommended_estimate (results : gmap string value)
    (consistency_result : EnsembleScore) : result value :=
  if Qltb 0.8 (ensemble_consistency consistency_result) then
    dict_item results "consistency_weighted"
  else
    try! bayesian_uncertainty <-
      as_float (default (VFloat 1) (results !! "bayesian_uncertainty"%string));
    if Qltb 0.5 bayesian_uncertainty then
      dict_item results "bayesian_aggregated"
    else
      dict_item results "ensemble_of_methods".

Definition _calculate_confidence_score (results : gmap string value)
    (probabilities : list Q) : result Q :=
  try! methods_std <-
    as_float (default (VFloat 10) (results !! "methods_std"%string));
  let agreement_score := 1.0 / (1.0 + methods_std / 10) in
  try! consistency <-
    as_float (default (VFloat 0.5) (results !! "ensemble_consistency"%string));
  let n_samples := Qlen probabilities in
  let sample_score := Qmin 1.0 (n_samples / 50) in
  let spread := np_std probabilities in
  let spread_score := 1.0 / (1.0 + spread / 20) in
  let confidence :=
    (agreement_score + consistency + sample_score + spread_score) / 4 in
  Ok (np_clip confidence 0 1).

Definition get_advanced_aggregation (self : ForecastAggregator)
    (responses : list ModelResponse)
    : result (gmap string value * ForecastAggregator) :=
  let valid_probabilities := omap valid_probability responses in
  match valid_probabilities with
  | [] =>
      Ok ({[ "error"%string := VStr "No valid responses for aggregation" ]},
          self)
  | _ =>
      let model_predictions := group_by_model responses in
      let results : gmap string value :=
        <[ "trimmed_mean"%string :=
             VFloat (trim_mean valid_probabilities 0.1) ]>
        (<[ "median"%string := VFloat (np_median valid_probabilities) ]>
        (<[ "simple_mean"%string := VFloat (np_mean valid_probabilities) ]>
           ∅)) in
      (* calibrated aggregation *)
      try! cal <- calibrate_batch (calibrator self) valid_probabilities;
      let '(calibrated, calibrator') := cal in
      let calibrated_mean := np_mean calibrated in
      let results :=
        <[ "calibration_temperature"%string :=
             VFloat (temperature calibrator') ]>
        (<[ "calibrated_mean"%string := VFloat calibrated_mean ]> results) in
      (* consistency-weighted aggregation *)
      let '(consistency_result, scorer') :=
        score_ensemble (consistency_scorer self) model_predictions in
      let consistency_weighted :=
        calculate_weighted_aggregate scorer' model_predictions in
      let results :=
        <[ "consistency_scores"%string :=
             VScores (model_scores consistency_result) ]>
        (<[ "ensemble_consistency"%string :=
             VFloat (ensemble_consistency consistency_result) ]>
        (<[ "consistency_weighted"%string := VFloat consistency_weighted ]>
           results)) in
      (* Bayesian aggregation *)
      let expert_ids :=
        map response_model (valid_responses_of responses) in
      try! bayes <-
        aggregate_forecasts (bayesian_aggregator self) valid_probabilities
                            (Some expert_ids) None;
      let '(bayesian_result, bayesian') := bayes in
      try! bayesian_aggregated <-
        dict_item bayesian_result "aggregated_probability";
      try! bayesian_interval <-
        dict_item bayesian_result "confidence_interval";
      try! bayesian_uncertainty <- dict_item bayesian_result "uncertainty";
      let results :=
        <[ "bayesian_uncertainty"%string := bayesian_uncertainty ]>
        (<[ "bayesian_confidence_interval"%string := bayesian_interval ]>
        (<[ "bayesian_aggregated"%string := bayesian_aggregated ]>
           results)) in
      (* ensemble of all methods *)
      try! e1 <- rbind (dict_item results "simple_mean") as_float;
      try! e2 <- rbind (dict_item results "calibrated_mean") as_float;
      try! e3 <- rbind (dict_item results "consistency_weighted") as_float;
      try! e4 <- rbind (dict_item results "bayesian_aggregated") as_float;
      let all_estimates := [e1; e2; e3; e4] in
      let results :=
        <[ "methods_std"%string := VFloat (np_std all_estimates) ]>
        (<[ "ensemble_of_methods"%string :=
             VFloat (np_mean all_estimates) ]> results) in
      try! recommended <-
        _get_recommended_estimate results consistency_result;
      let results := <[ "recommended_estimate"%string := recommended ]>
                       results in
      try! confidence <-
        _calculate_confidence_score results valid_probabilities;
      let results :=
        <[ "confidence_in_estimate"%string := VFloat confidence ]> results in
      Ok (results,
          {| aggregator_method := aggregator_method self;
             calibrator := calibrator';
             consistency_scorer := scorer';
             bayesian_aggregator := bayesian' |})
  end.
End Aggregator.

(** ** Text and regular expressions (Python's [str] and [re])

    One [ascii] stands for one character, so the texts of the model are
    the Python strings whose code points are below 256. *)

Definition code (c : ascii) : nat := nat_of_ascii c.

Definition in_range (lo hi : nat) (c : ascii) : bool :=
  (lo <=? code c)%nat && (code c <=? hi)%nat.

(** [\d] *)
Definition is_digit (c : ascii) : bool := in_range 48 57 c.

(** [\s] and [str.isspace]: tab to carriage return, the separators
    28-31, the space, and the Latin-1 characters NEL and NBSP. *)
Definition is_space (c : ascii) : bool :=
  in_range 9 13 c || in_range 28 32 c
  || (code c =? 133)%nat || (code c =? 160)%nat.

(** [\w]: letters, digits, the underscore, and the alphanumeric
    characters of Latin-1. *)
Definition is_word (c : ascii) : bool :=
  in_range 48 57 c || in_range 65 90 c || in_range 97 122 c
  || (code c =? 95)%nat
  || (code c =? 170)%nat || in_range 178 179 c || (code c =? 181)%nat
  || in_range 185 186 c || in_range 188 190 c
  || in_range 192 214 c || in_range 216 246 c || in_range 248 255 c.

Definition newline : ascii := ascii_of_nat 10.

(** [.] without [re.DOTALL] *)
Definition is_dot (c : ascii) : bool := negb (Ascii.eqb c newline).

(** [str.lower] on one character. *)
Definition lower_char (c : ascii) : ascii :=
  if in_range 65 90 c || in_range 192 214 c || in_range 216 222 c
  then ascii_of_nat (code c + 32)
  else c.

Fixpoint lower (s : string) : string :=
  match s with
  | EmptyString => EmptyString
  | String c t => String (lower_char c) (lower t)
  end.

(** [needle in hay] *)
Fixpoint contains (needle hay : string) : bool :=
  String.prefix needle hay
  || match hay with
     | EmptyString => false
     | String _ t => contains needle t
     end.

(** [s.split(sep)] for a one-character separator. *)
Fixpoint split_on (sep : ascii) (s : string) : list string :=
  match s with
  | EmptyString => [EmptyString]
  | String c t =>
      if Ascii.eqb c sep then EmptyString :: split_on sep t
      else match split_on sep t with
           | [] => [String c EmptyString]
           | h :: rest => String c h :: rest
           end
  end.

Fixpoint lstrip (s : string) : string :=
  match s with
  | String c t => if is_space c then lstrip t else s
  | EmptyString => EmptyString
  end.

Fixpoint string_rev_onto (s acc : string) : string :=
  match s with
  | EmptyString => acc
  | String c t => string_rev_onto t (String c acc)
  end.

Definition string_rev (s : string) : string := string_rev_onto s EmptyString.

(** [s.strip()] *)
Definition strip (s : string) : string :=
  string_rev (lstrip (string_rev (lstrip s))).

(** [s.replace(c, "")] for a one-character [c]. *)
Fixpoint remove_char (c : ascii) (s : string) : string :=
  match s with
  | EmptyString => EmptyString
  | String a t =>
      if Ascii.eqb a c then remove_char c t else String a (remove_char c t)
  end.

(** [s[-n:]] *)
Definition last_chars (n : nat) (s : string) : string :=
  String.substring (String.length s - n) n s.

(** [float(s)] for [s] matching [\d+(?:\.\d+)?], the only strings the
    extractor converts. *)
Fixpoint digits_value (acc : Z) (s : string) : Z :=
  match s with
  | String c t =>
      if is_digit c
      then digits_value (10 * acc + Z.of_nat (code c - 48)) t
      else acc
  | EmptyString => acc
  end.

Definition py_float (s : string) : Q :=
  match split_on "." s with
  | [whole] => inject_Z (digits_value 0 whole)
  | whole :: frac :: _ =>
      Qred (inject_Z (digits_value 0 (String.append whole frac))
            / inject_Z (10 ^ Z.of_nat (String.length frac)))
  | [] => 0
  end.

(** The fragment of Python's pattern language that the extractor uses.
    Every pattern has exactly one capturing group. *)
Inductive regex : Type :=
| Eps
| Chr (c : ascii)            (* a literal character *)
| Cls (p : ascii -> bool)    (* a character class *)
| Seq (r1 r2 : regex)
| Alt (r1 r2 : regex)        (* [r1|r2]: [r1] is tried first *)
| Star (r : regex)           (* greedy [r*] *)
| Lazy (r : regex)           (* [r*?] *)
| Group (r : regex)          (* [(r)] *)
| Eol                        (* [$] *)
| Wordb.                     (* [\b] *)

Record flags : Type := { IGNORECASE : bool; MULTILINE : bool }.

(** A position in the subject: the character before it, the text after
    it, and the text captured by the group so far. *)
Record mstate : Type := {
  prev : option ascii;
  rest : string;
  captured : option string;
}.

Definition advance (s : mstate) (c : ascii) (t : string) : mstate :=
  {| prev := Some c; rest := t; captured := captured s |}.

Definition char_matches (f : flags) (c a : ascii) : bool :=
  if IGNORECASE f then Ascii.eqb (lower_char c) (lower_char a)
  else Ascii.eqb c a.

(** [$]: the end of the text or just before a final newline; with
    [re.MULTILINE] also before every newline. *)
Definition at_eol (f : flags) (s : mstate) : bool :=
  match rest s with
  | EmptyString => true
  | String c t =>
      Ascii.eqb c newline
      && (MULTILINE f || match t with EmptyString => true | _ => false end)
  end.

Definition at_word_boundary (s : mstate) : bool :=
  let before := match prev s with Some c => is_word c | None => false end in
  let after :=
    match rest s with String c _ => is_word c | EmptyString => false end in
  xorb before after.

Definition shorter (s' s : mstate) : bool :=
  (String.length (rest s') <? String.length (rest s))%nat.

(** Backtracking matching in continuation-passing style: [k] is tried
    on every way of matching [r] at [s], in Python's priority order. *)
Fixpoint rmatch {A} (f : flags) (r : regex) (s : mstate)
    (k : mstate -> option A) : option A :=
  match r with
  | Eps => k s
  | Chr c =>
      match rest s with
      | String a t => if char_matches f c a then k (advance s a t) else None
      | EmptyString => None
      end
  | Cls p =>
      match rest s with
      | String a t => if p a then k (advance s a t) else None
      | EmptyString => None
      end
  | Seq r1 r2 => rmatch f r1 s (fun s' => rmatch f r2 s' k)
  | Alt r1 r2 =>
      match rmatch f r1 s k with
      | Some x => Some x
      | None => rmatch f r2 s k
      end
  | Star r' =>
      (fix loop (fuel : nat) (s : mstate) : option A :=
         match fuel with
         | O => k s
         | S fuel' =>
             match rmatch f r' s
                     (fun s' => if shorter s' s then loop fuel' s' else None)
             with
             | Some x => Some x
             | None => k s
             end
         end) (String.length (rest s)) s
  | Lazy r' =>
      (fix loop (fuel : nat) (s : mstate) : option A :=
         match k s with
         | Some x => Some x
         | None =>
             match fuel with
             | O => None
             | S fuel' =>
                 rmatch f r' s
                   (fun s' => if shorter s' s then loop fuel' s' else None)
             end
         end) (String.length (rest s)) s
  | Group r' =>
      rmatch f r' s
        (fun s' =>
           k {| prev := prev s'; rest := rest s';
                captured :=
                  Some (String.substring
                          0 (String.length (rest s) - String.length (rest s'))
                          (rest s)) |})
  | Eol => if at_eol f s then k s else None
  | Wordb => if at_word_boundary s then k s else None
  end.

(** One match attempt at a position: the captured group and the
    position after the match. *)
Definition match_at (f : flags) (r : regex) (p : option ascii) (t : string)
    : option (string * mstate) :=
  rmatch f r {| prev := p; rest := t; captured := None |}
         (fun s' => Some (default EmptyString (captured s'), s')).

(** [re.search(r, text, flags).group(1)] *)
Fixpoint search_from (f : flags) (r : regex) (p : option ascii) (t : string)
    : option string :=
  match match_at f r p t with
  | Some (g, _) => Some g
  | None =>
      match t with
      | String c t' => search_from f r (Some c) t'
      | EmptyString => None
      end
  end.

Definition re_search (f : flags) (r : regex) (text : string) : option string :=
  search_from f r None text.

(** [re.findall(r, text, flags)]: the groups of the successive
    non-overlapping matches, from left to right. *)
Fixpoint findall_from (fuel : nat) (f : flags) (r : regex)
    (p : option ascii) (t : string) : list string :=
  match fuel with
  | O => []
  | S fuel' =>
      match match_at f r p t with
      | Some (g, s') =>
          if (String.length (rest s') <? String.length t)%nat
          then g :: findall_from fuel' f r (prev s') (rest s')
          else g :: match t with
                    | String c t' => findall_from fuel' f r (Some c) t'
                    | EmptyString => []
                    end
      | None =>
          match t with
          | String c t' => findall_from fuel' f r (Some c) t'
          | EmptyString => []
          end
      end
  end.

Definition re_findall (f : flags) (r : regex) (text : string) : list string :=
  findall_from (S (String.length text)) f r None text.

(** Pattern notation. *)
Fixpoint lit (s : string) : regex :=
  match s with
  | EmptyString => Eps
  | String c EmptyString => Chr c
  | String c t => Seq (Chr c) (lit t)
  end.

Definition Opt (r : regex) : regex := Alt r Eps.
Definition Plus (r : regex) : regex := Seq r (Star r).

Declare Scope regex_scope.
Delimit Scope regex_scope with re.
Bind Scope regex_scope with regex.
Notation "r1 ;; r2" := (Seq r1 r2)
  (at level 100, r2 at level 200, right associativity) : regex_scope.

(** [\s*], [\s+], [.*?], [\d+(?:\.\d+)?] and the group [(\d+(?:\.\d+)?)] *)
Definition ws : regex := Star (Cls is_space).
Definition ws1 : regex := Plus (Cls is_space).
Definition anything : regex := Lazy (Cls is_dot).
Definition number : regex :=
  (Plus (Cls is_digit) ;; Opt (Chr "." ;; Plus (Cls is_digit)))%re.
Definition num : regex := Group number.
(** the double quote *)
Definition dq : regex := Chr (ascii_of_nat 34).

(** ** api_client.py: [_extract_probability] *)

Definition in_bounds (value : Q) : bool :=
  Qle_bool 0 value && Qle_bool value 100.

Definition no_flags : flags := {| IGNORECASE := false; MULTILINE := false |}.
Definition ignorecase : flags := {| IGNORECASE := true; MULTILINE := false |}.
Definition multiline_ignorecase : flags :=
  {| IGNORECASE := true; MULTILINE := true |}.

(** [label:\s*N\s*%], the same in bold, with only the percentage in bold,
    and without the percent sign. *)
Definition labelled_patterns (label : string) : list regex :=
  [ (lit label ;; ws ;; num ;; ws ;; lit "%")%re;
    (lit "**" ;; lit label ;; ws ;; num ;; ws ;; lit "%**")%re;
    (lit label ;; ws ;; lit "**" ;; num ;; ws ;; lit "%**")%re;
    (lit label ;; ws ;; num)%re ].

Definition hauptprognose_patterns : list regex :=
  labelled_patterns "HAUPTPROGNOSE:".
Definition prognose_patterns : list regex := labelled_patterns "PROGNOSE:".

Definition final_prob_patterns : list regex :=
  [ (* Final_Probability\s*=\s*N *)
    (lit "Final_Probability" ;; ws ;; lit "=" ;; ws ;; num)%re;
    (* Final_Probability\s*=.*?N\s*% *)
    (lit "Final_Probability" ;; ws ;; lit "=" ;; anything ;; num ;; ws
     ;; lit "%")%re;
    (* =\s*N\s*(?:%)?$ *)
    (lit "=" ;; ws ;; num ;; ws ;; Opt (lit "%") ;; Eol)%re ].

Definition deepseek_patterns : list regex :=
  [ (lit "Therefore" ;; Opt (lit ",") ;; ws1 ;; lit "the" ;; ws1
     ;; lit "probability" ;; ws1 ;; lit "is" ;; ws1 ;; num ;; ws
     ;; lit "%")%re;
    (lit "I" ;; ws1 ;; lit "estimate" ;; ws1
     ;; Opt (lit "the" ;; ws1 ;; lit "probability" ;; ws1)
     ;; Opt (lit "to" ;; ws1 ;; lit "be" ;; ws1)
     ;; num ;; ws ;; lit "%")%re;
    (lit "My" ;; ws1 ;; lit "assessment:" ;; ws ;; num ;; ws ;; lit "%")%re;
    (lit "Estimated" ;; ws1 ;; lit "probability:" ;; ws ;; num ;; ws
     ;; lit "%")%re ].

Definition qwen_patterns : list regex :=
  [ (lit "My" ;; ws1 ;; lit "final" ;; ws1 ;; lit "estimate:" ;; ws ;; num
     ;; ws ;; lit "%")%re;
    (lit "I" ;; ws1 ;; lit "conclude" ;; ws1
     ;; Opt (lit "with" ;; ws1) ;; Opt (lit "a" ;; ws1)
     ;; num ;; ws ;; lit "%")%re;
    (lit "Overall" ;; ws1 ;; lit "probability:" ;; ws ;; num ;; ws
     ;; lit "%")%re;
    (lit "Assessment:" ;; ws ;; num ;; ws ;; lit "%")%re ].

(** The three JSON-like patterns: a whole object with the key
    [probability], the quoted key with an optionally quoted value, and
    the bare key. *)
Definition json_patterns : list regex :=
  [ (lit "{" ;; dq ;; lit "probability" ;; dq ;; lit ":" ;; ws ;; num
     ;; lit "}")%re;
    (dq ;; lit "probability" ;; dq ;; lit ":" ;; ws ;; Opt dq ;; num
     ;; Opt dq ;; Opt (lit "%"))%re;
    (lit "probability:" ;; ws ;; num ;; ws ;; Opt (lit "%"))%re ].

Definition forecast_patterns : list string :=
  [ "prognose:"; "forecast:"; "prediction:"; "probability:";
    "wahrscheinlichkeit:"; "final probability:"; "ensemble probability:";
    "result:"; "answer:"; "conclusion:"; "estimate:"; "assessment:" ]%string.

(** [word.*?N\s*%] *)
Definition then_percent (word : string) : regex :=
  (lit word ;; anything ;; num ;; ws ;; lit "%")%re.
(** [word\s*N\s*%] *)
Definition near_percent (word : string) : regex :=
  (lit word ;; ws ;; num ;; ws ;; lit "%")%re.

Definition percentage_patterns : list regex :=
  [ (num ;; ws ;; lit "%")%re;
    (num ;; ws ;; lit "percent")%re;
    (* probability\s*(?:of|is|:)?\s*N\s*% *)
    (lit "probability" ;; ws ;; Opt (Alt (lit "of") (Alt (lit "is") (lit ":")))
     ;; ws ;; num ;; ws ;; lit "%")%re;
    (num ;; ws ;; lit "%" ;; ws ;; lit "probability")%re;
    then_percent "final";
    then_percent "answer";
    then_percent "final_probability";
    (* Final_Probability.*?N *)
    (lit "Final_Probability" ;; anything ;; num)%re;
    near_percent "=";
    then_percent "therefore";
    then_percent "conclusion";
    then_percent "estimate";
    then_percent "assess";
    then_percent "likely";
    near_percent "around";
    near_percent "approximately";
    near_percent "roughly";
    (* my\s+(?:final\s+)?(?:forecast|prediction|estimate)\s+is\s+N\s*% *)
    (lit "my" ;; ws1 ;; Opt (lit "final" ;; ws1)
     ;; Alt (lit "forecast") (Alt (lit "prediction") (lit "estimate"))
     ;; ws1 ;; lit "is" ;; ws1 ;; num ;; ws ;; lit "%")%re;
    (* i\s+(?:would\s+)?(?:forecast|predict|estimate)\s+N\s*% *)
    (lit "i" ;; ws1 ;; Opt (lit "would" ;; ws1)
     ;; Alt (lit "forecast") (Alt (lit "predict") (lit "estimate"))
     ;; ws1 ;; num ;; ws ;; lit "%")%re ].

(** The multiplication sign of the formula pattern, U+00D7. *)
Definition times_sign : regex := Chr (ascii_of_nat 215).

Definition formula_patterns : list regex :=
  [ (* Final_Probability\s*=.*?N *)
    (lit "Final_Probability" ;; ws ;; lit "=" ;; anything ;; num)%re;
    (* a parenthesised product, [/ 100 =], and the result N *)
    (lit "(" ;; ws ;; number ;; ws ;; times_sign ;; anything ;; lit ")"
     ;; ws ;; lit "/" ;; ws ;; lit "100" ;; ws ;; lit "=" ;; ws ;; num)%re;
    (* =\s*N\s*(?:%)?$ *)
    (lit "=" ;; ws ;; num ;; ws ;; Opt (lit "%") ;; Eol)%re;
    (lit "Antwort:" ;; ws ;; num ;; ws ;; lit "%")%re;
    (lit "Ergebnis:" ;; ws ;; num ;; ws ;; lit "%")%re ].

(** [for pattern in patterns: m = re.search(...); if m: value = ...;
    if 0 <= value <= 100: return value] *)
Fixpoint search_checked (f : flags) (patterns : list regex) (content : string)
    : option Q :=
  match patterns with
  | [] => None
  | pattern :: others =>
      match re_search f pattern content with
      | Some g =>
          let value := py_float g in
          if in_bounds value then Some value
          else search_checked f others content
      | None => search_checked f others content
      end
  end.

(** The same loop with [re.findall] and [matches[-1]]. *)
Fixpoint findall_last_checked (f : flags) (patterns : list regex)
    (content : string) : option Q :=
  match patterns with
  | [] => None
  | pattern :: others =>
      match List.last (map Some (re_findall f pattern content)) None with
      | Some g =>
          let value := py_float g in
          if in_bounds value then Some value
          else findall_last_checked f others content
      | None => findall_last_checked f others content
      end
  end.

(** The loop over [percentage_patterns]:
    [if matches: return float(matches[-1])]. *)
Fixpoint findall_last_returned (f : flags) (patterns : list regex)
    (content : string) : option Q :=
  match patterns with
  | [] => None
  | pattern :: others =>
      match List.last (map Some (re_findall f pattern content)) None with
      | Some g => Some (py_float g)
      | None => findall_last_returned f others content
      end
  end.

(** The text in which the keyword loop looks for the value: the part
    of the line after its last colon, or one of the next two lines. *)
Definition select_prob_text (line : string) (following : list string)
    : option string :=
  if contains "%" line then
    Some (if contains ":" line
          then strip (List.last (split_on ":" line) EmptyString)
          else strip line)
  else
    match following with
    | l1 :: rest =>
        if contains "%" l1 then Some (strip l1)
        else match rest with
             | l2 :: _ => if contains "%" l2 then Some (strip l2) else None
             | [] => None
             end
    | [] => None
    end.

(** The value read from the selected text, if the loop body returns. *)
Definition line_value (prob_text : string) : option Q :=
  let percentage :=
    match re_search no_flags (num ;; ws ;; lit "%")%re prob_text with
    | Some g => let value := py_float g in
                if in_bounds value then Some value else None
    | None => None
    end in
  match percentage with
  | Some value => Some value
  | None =>
      let prob_text := strip (remove_char "%" prob_text) in
      let midpoint :=
        if contains "-" prob_text then
          match re_findall no_flags (Group number) prob_text with
          | n0 :: n1 :: _ => Some ((py_float n0 + py_float n1) / 2)
          | _ => None
          end
        else None in
      match midpoint with
      | Some value => Some value
      | None =>
          match re_search no_flags num prob_text with
          | Some g =>
              let value := py_float g in
              if Qltb 0 value && Qle_bool value 1
                 && negb (contains "%" prob_text)
              then Some (value * 100)
              else if in_bounds value then Some value
              else None
          | None => None
          end
      end
  end.

Fixpoint scan_lines (pattern : string) (lines : list string) : option Q :=
  match lines with
  | [] => None
  | line :: following =>
      let here :=
        if contains pattern (lower line) then
          match select_prob_text line following with
          | Some prob_text => line_value prob_text
          | None => None
          end
        else None in
      match here with
      | Some value => Some value
      | None => scan_lines pattern following
      end
  end.

Fixpoint scan_keywords (patterns : list string) (content : string)
    : option Q :=
  match patterns with
  | [] => None
  | pattern :: others =>
      let found :=
        if contains pattern (lower content)
        then scan_lines pattern (split_on newline content)
        else None in
      match found with
      | Some value => Some value
      | None => scan_keywords others content
      end
  end.

(** The last resort: the standalone numbers of the last 500 characters,
    from the end backwards. *)
Definition last_resort (content : string) : option Q :=
  let end_content := last_chars 500 content in
  let number_matches :=
    re_findall no_flags (Wordb ;; num ;; Wordb)%re end_content in
  List.find in_bounds (map py_float (rev number_matches)).

Definition or_else {A} (x : option A) (y : option A) : option A :=
  match x with Some _ => x | None => y end.

Definition _extract_probability (content : string) (model : string)
    : option Q :=
  match content with
  | EmptyString => None
  | _ =>
      or_else (search_checked ignorecase hauptprognose_patterns content)
      (or_else (search_checked ignorecase prognose_patterns content)
      (or_else (findall_last_checked multiline_ignorecase
                                     final_prob_patterns content)
      (or_else (if contains "deepseek" (lower model)
                then search_checked ignorecase deepseek_patterns content
                else None)
      (or_else (if contains "qwen" (lower model)
                then search_checked ignorecase qwen_patterns content
                else None)
      (or_else (search_checked ignorecase json_patterns content)
      (or_else (scan_keywords forecast_patterns content)
      (or_else (findall_last_returned ignorecase percentage_patterns content)
      (or_else (findall_last_checked multiline_ignorecase
                                     formula_patterns content)
               (last_resort content)))))))))
  end.

(** ** api_client.py: [OpenRouterClient.query_model] *)

(** The values of the ["status"] entry of a reply. *)
Inductive Status : Type :=
| success | empty_response | rejected | timeout
| rate_limited | not_found | invalid_model | error.

#[export] Instance Status_eq_dec : EqDecision Status.
Proof. solve_decision. Defined.

Record Usage : Type := {
  prompt_tokens : Z; completion_tokens : Z; total_tokens : Z;
}.

(** The reply dictionary.  An entry that a given reply does not have
    is [None]; ["iteration"] and ["ensemble_id"] are added by the
    callers of [query_model]. *)
Record Reply : Type := {
  reply_model : string;
  reply_timestamp : Q;
  reply_response_time : Q;
  reply_content : option string;
  reply_probability : option Q;
  reply_error : option string;
  reply_status : Status;
  reply_source : option string;
  reply_usage : option Usage;
  reply_log_probabilities : option string;
  reply_iteration : option nat;
  reply_ensemble_id : option string;
}.

(** What [self.client.chat.completions.create] does with a request. *)
Record Request : Type := {
  request_model : string;
  request_prompt : string;
  request_temperature : Q;
  request_max_tokens : Z;
  request_timeout : Q;
  request_web_search : bool;
}.

(** [choices] is [None] for an empty list of choices and otherwise the
    content of the first message, which can itself be [None]. *)
Record Completion : Type := {
  choices : option (option string);
  usage : option Usage;
  logprobs : option string;
}.

Inductive Outcome : Type :=
| Responded (c : Completion) (elapsed : Q)
| TimeoutError (elapsed : Q)
| Failure (error_str : string) (elapsed : Q).

Record CacheEntry : Type := {
  entry_response : Reply;
  entry_created_at : Q;
  entry_expires_at : Q;
}.

(** The attributes of the client, with the clock and the number of
    requests sent so far.  [cache] is [None] when caching is off. *)
Record OpenRouterClient : Type := {
  client_timeout : Q;
  cache : option (gmap string CacheEntry);
  cache_ttl : Q;
  now : Q;
  requests_sent : nat;
}.

(** [OpenRouterClient(use_cache=...)] at time [t], with the default
    time-out of 120 seconds and the cache's default 168 hours. *)
Definition OpenRouterClient_init (use_cache : bool) (t : Q)
    : OpenRouterClient :=
  {| client_timeout := 120;
     cache := if use_cache then Some ∅ else None;
     cache_ttl := 604800; now := t; requests_sent := 0 |}.

(** The text that [_generate_cache_key] hashes. *)
Definition cache_key (model prompt : string) : string :=
  String.append model (String.append ":" prompt).

(** [CacheManager.get]: the stored response, unless it has expired. *)
Definition cache_get (c : gmap string CacheEntry) (t : Q)
    (model prompt : string) : option Reply :=
  match c !! cache_key model prompt with
  | Some e =>
      if Qltb t (entry_expires_at e) then Some (entry_response e) else None
  | None => None
  end.

(** [CacheManager.set] *)
Definition cache_set (c : gmap string CacheEntry) (t ttl : Q)
    (model prompt : string) (response : Reply) : gmap string CacheEntry :=
  <[cache_key model prompt :=
      {| entry_response := response; entry_created_at := t;
         entry_expires_at := t + ttl |}]> c.

(** The model-specific floors of [max_tokens]. *)
Definition adjust_max_tokens (model : string) (max_tokens : Z) : Z :=
  let m := lower model in
  if contains "gemini" m || contains "gemma" m then Z.max max_tokens 8000
  else if contains "gpt-5" m then Z.max max_tokens 4000
  else if contains "qwen" m || contains "qwq" m then
    if contains "qwen-2.5-72b" m then Z.max max_tokens 10000
    else if contains "qwen-2.5-coder" m then Z.max max_tokens 8000
    else Z.max max_tokens 8000
  else if contains "deepseek" m then Z.max max_tokens 8000
  else if contains "grok" m then Z.max max_tokens 8000
  else if contains "llama" m then
    if contains "llama-4-maverick" m then Z.max max_tokens 8000
    else Z.max max_tokens 6000
  else if contains ":free" m then Z.max max_tokens 6000
  else max_tokens.

Definition rejection_patterns : list string :=
  [ "cannot ignore my safety instructions"; "must decline this request";
    "attempt to override"; "cannot comply with"; "against my programming";
    "violates my guidelines" ]%string.

(** The status given to an exception other than a time-out. *)
Definition classify_error (error_str : string) : Status :=
  let l := lower error_str in
  if contains "429" error_str || contains "rate" l
     || contains "too many requests" l then rate_limited
  else if contains "404" error_str || contains "not found" l then not_found
  else if contains "400" error_str || contains "invalid" l then invalid_model
  else error.

Definition error_reply (model : string) (start_time elapsed : Q)
    (message : string) (st : Status) : Reply :=
  {| reply_model := model; reply_timestamp := start_time;
     reply_response_time := elapsed; reply_content := None;
     reply_probability := None; reply_error := Some message;
     reply_status := st; reply_source := None; reply_usage := None;
     reply_log_probabilities := None; reply_iteration := None;
     reply_ensemble_id := None |}.

Definition with_source (r : Reply) (source : string) : Reply :=
  {| reply_model := reply_model r; reply_timestamp := reply_timestamp r;
     reply_response_time := reply_response_time r;
     reply_content := reply_content r;
     reply_probability := reply_probability r;
     reply_error := reply_error r; reply_status := reply_status r;
     reply_source := Some source; reply_usage := reply_usage r;
     reply_log_probabilities := reply_log_probabilities r;
     reply_iteration := reply_iteration r;
     reply_ensemble_id := reply_ensemble_id r |}.

Definition tick (self : OpenRouterClient) (elapsed : Q)
    (c : option (gmap string CacheEntry)) : OpenRouterClient :=
  {| client_timeout := client_timeout self; cache := c;
     cache_ttl := cache_ttl self; now := now self + elapsed;
     requests_sent := S (requests_sent self) |}.

(** The final validation of [query_model]. *)
Definition validate_probability (probability : option Q) : option Q :=
  match probability with
  | Some p => if Qltb p 0 || Qltb 100 p then None else Some p
  | None => None
  end.

Section Client.
(** The language-model service: the outcome of the [n]-th request. *)
Variable transport : nat -> Request -> Outcome.

(** The decorator [backoff.on_exception] retries on an exception that
    leaves [query_model]; the body catches every exception of the
    request, so none leaves it. *)
Definition query_model (self : OpenRouterClient) (model prompt : string)
    (temperature : Q) (max_tokens : Z) (enable_web_search : bool)
    (force_refresh : bool) : Reply * OpenRouterClient :=
  let cached_response :=
    match cache self with
    | Some c =>
        if negb force_refresh then cache_get c (now self) model prompt
        else None
    | None => None
    end in
  match cached_response with
  | Some cached => (with_source cached "cache", self)
  | None =>
      let max_tokens := adjust_max_tokens model max_tokens in
      let start_time := now self in
      let request_params :=
        {| request_model := model; request_prompt := prompt;
           request_temperature := temperature;
           request_max_tokens := max_tokens;
           request_timeout := client_timeout self;
           request_web_search := enable_web_search |} in
      match transport (requests_sent self) request_params with
      | Responded response response_time =>
          let content :=
            match choices response with
            | Some c => c
            | None => Some EmptyString
            end in
          let content_lower :=
            match content with Some c => lower c | None => EmptyString end in
          let is_rejected :=
            existsb (fun pattern => contains pattern content_lower)
                    rejection_patterns in
          match content with
          | Some text =>
              if (String.length text <? 10)%nat then
                ({| reply_model := model; reply_timestamp := start_time;
                    reply_response_time := response_time;
                    reply_content := content; reply_probability := None;
                    reply_error := Some "Empty or insufficient response";
                    reply_status := empty_response;
                    reply_source := Some "api"; reply_usage := None;
                    reply_log_probabilities := None;
                    reply_iteration := None; reply_ensemble_id := None |},
                 tick self response_time (cache self))
              else
                let probability := _extract_probability text model in
                let probability := validate_probability probability in
                let result :=
                  {| reply_model := model; reply_timestamp := start_time;
                     reply_response_time := response_time;
                     reply_content := content;
                     reply_probability := probability;
                     reply_error := None;
                     reply_status :=
                       if is_rejected then rejected else success;
                     reply_source := Some "api";
                     reply_usage :=
                       Some (default {| prompt_tokens := 0;
                                        completion_tokens := 0;
                                        total_tokens := 0 |}
                                     (usage response));
                     reply_log_probabilities := logprobs response;
                     reply_iteration := None;
                     reply_ensemble_id := None |} in
                let cache' :=
                  match cache self with
                  | Some c =>
                      if is_rejected then Some c
                      else Some (cache_set c (now self + response_time)
                                           (cache_ttl self) model prompt
                                           result)
                  | None => None
                  end in
                (result, tick self response_time cache')
          | None =>
              ({| reply_model := model; reply_timestamp := start_time;
                  reply_response_time := response_time;
                  reply_content := None; reply_probability := None;
                  reply_error := Some "Empty or insufficient response";
                  reply_status := empty_response;
                  reply_source := Some "api"; reply_usage := None;
                  reply_log_probabilities := None;
                  reply_iteration := None; reply_ensemble_id := None |},
               tick self response_time (cache self))
          end
      | TimeoutError elapsed =>
          (error_reply model start_time (client_timeout self)
                       "Request timeout" timeout,
           tick self elapsed (cache self))
      | Failure error_str elapsed =>
          (error_reply model start_time elapsed error_str
                       (classify_error error_str),
           tick self elapsed (cache self))
      end
  end.

(** [test_connection]: a small query whose status must be success. *)
Definition test_connection (self : OpenRouterClient)
    : bool * OpenRouterClient :=
  let '(response, self') :=
    query_model self "openai/gpt-3.5-turbo"
                "Say 'test successful' if you can read this."
                0.7 10 false false in
  (bool_decide (reply_status response = success), self').
End Client.

(** The data-model invariant of a reply. *)
Definition reply_ok (r : Reply) : Prop :=
  (reply_status r = success ->
   exists text, reply_content r = Some text /\ text <> EmptyString)
  /\ (forall p, reply_probability r = Some p -> 0 <= p <= 100).

(** Every stored response satisfies the invariant. *)
Definition cache_ok (self : OpenRouterClient) : Prop :=
  forall c key e,
    cache self = Some c -> c !! key = Some e -> reply_ok (entry_response e).

(** ** ensemble_manager.py *)

Record Settings : Type := {
  enabled_models : list string;
  iterations_per_model : nat;
  concurrent_requests : nat;
  rate_limit_delay : Q;
}.

(** The attributes of an [EnsembleManager]; the client has a state of
    its own. *)
Record EnsembleManager : Type := {
  manager_settings : Settings;
  dry_run : bool;
  enhanced_prompts : bool;
}.

(** A task of the progress display and its counter. *)
Record Task : Type := {
  task_description : string;
  task_total : nat;
  task_completed : nat;
}.

(** [progress.add_task(description, total=...)]: the new task's id. *)
Definition add_task (progress : list Task) (description : string)
    (total : nat) : nat * list Task :=
  (length progress,
   progress ++ [{| task_description := description; task_total := total;
                   task_completed := 0 |}]).

(** [progress.update(task_id, advance=n)] *)
Definition progress_update (progress : list Task) (task_id advance : nat)
    : list Task :=
  match progress !! task_id with
  | Some t =>
      <[task_id := {| task_description := task_description t;
                      task_total := task_total t;
                      task_completed := task_completed t + advance |}]>
        progress
  | None => progress
  end.

Definition completed (progress : list Task) (task_id : nat) : nat :=
  match progress !! task_id with
  | Some t => task_completed t
  | None => 0
  end.

(** The statuses that an exception of the service leads to. *)
Definition error_family (st : Status) : bool :=
  match st with
  | timeout | rate_limited | not_found | invalid_model | error => true
  | success | empty_response | rejected => false
  end.

Definition with_iteration (r : Reply) (iteration : nat) : Reply :=
  {| reply_model := reply_model r; reply_timestamp := reply_timestamp r;
     reply_response_time := reply_response_time r;
     reply_content := reply_content r;
     reply_probability := reply_probability r;
     reply_error := reply_error r; reply_status := reply_status r;
     reply_source := reply_source r; reply_usage := reply_usage r;
     reply_log_probabilities := reply_log_probabilities r;
     reply_iteration := Some iteration;
     reply_ensemble_id := reply_ensemble_id r |}.

Definition with_ensemble_id (r : Reply) (id : string) : Reply :=
  {| reply_model := reply_model r; reply_timestamp := reply_timestamp r;
     reply_response_time := reply_response_time r;
     reply_content := reply_content r;
     reply_probability := reply_probability r;
     reply_error := reply_error r; reply_status := reply_status r;
     reply_source := reply_source r; reply_usage := reply_usage r;
     reply_log_probabilities := reply_log_probabilities r;
     reply_iteration := reply_iteration r;
     reply_ensemble_id := Some id |}.

(** [f"{model}_{iteration:02d}"] *)
Definition ensemble_id_of (model : string) (iteration : nat) : string :=
  String.append model
    (String.append "_"
       (if (iteration <? 10)%nat
        then String.append "0" (pretty iteration)
        else pretty iteration)).

(** The entries that [_apply_advanced_algorithms] keeps for a model
    with at least one probability.  The dictionaries
    [model_predictions], [calibrated_predictions] and [model_weights]
    have the same keys in the same order; the model keeps one list. *)
Record ModelEntry : Type := {
  entry_model : string;
  entry_probs : list Q;
  entry_calibrated : list Q;
  entry_consistency : Q;
}.

(** The dictionary [advanced_results]. *)
Record AdvancedResults : Type := {
  bayesian_ensemble : Q;
  calibrated_ensemble : option Q;
  model_consistency_scores : list (string * Q);
  calibrated_predictions : list (string * list Q);
  variance_reduction : Q;
  comparison_basic_mean : Q;
  comparison_bayesian_weighted : Q;
}.

(** The three dictionaries that [_apply_advanced_algorithms] returns. *)
Inductive Advanced : Type :=
| AdvancedOk (r : AdvancedResults)
| AdvancedError (e : string)      (* [{"error": ..., "fallback_to_basic": True}] *)
| InsufficientData.               (* [{"insufficient_data": True}] *)

(** [model_groups]: the replies of each model, in order of first
    appearance. *)
Definition group_replies (results : list Reply)
    : list (string * list Reply) :=
  fold_left
    (fun d r =>
       dict_set d (reply_model r)
                (default [] (dict_get d (reply_model r)) ++ [r]))
    results [].

(** [[r["probability"] for r in results if r.get("probability") is not None]] *)
Definition probabilities_of (results : list Reply) : list Q :=
  omap reply_probability results.

(** A Python list times a float. *)
Definition list_times_float (l : list Q) (x : Q) : result (list Q) :=
  Raise "TypeError".

Section Advanced.
Context {L : SciLib}.

Definition _apply_temperature_scaling (probabilities : list Q)
    (temperature : Q) : list Q :=
  let epsilon := 1e-7 in
  map (fun p =>
         let p01 := np_clip (p / 100.0) epsilon (1 - epsilon) in
         let logit_val := np_log (p01 / (1 - p01)) in
         let scaled := logit_val / temperature in
         1 / (1 + np_exp (- scaled)) * 100.0)
      probabilities.

(** The body of the loop over [model_groups.items()].  The product of
    the list that [calibrate_batch] returns with [100.0] raises, so the
    handler always supplies the calibrated values.  (A raise inside
    [fit] leaves the calibrator unfitted, and the next call fits it
    again.) *)
Definition advanced_entry (calibrator : BatchCalibrator)
    (model : string) (model_probs : list Q)
    : ModelEntry * BatchCalibrator :=
  let consistency :=
    calculate_consistency (ConsistencyScorer_init "ensemble") model_probs in
  let attempt :=
    match calibrate_batch calibrator (map (fun p => p / 100.0) model_probs)
    with
    | Ok (out, calibrator') =>
        (list_times_float out 100.0, calibrator')
    | Raise e => (Raise e, calibrator)
    end in
  let calibrated_probs :=
    match attempt.1 with
    | Ok probs => probs
    | Raise _ => _apply_temperature_scaling model_probs 1.5
    end in
  ({| entry_model := model; entry_probs := model_probs;
      entry_calibrated := calibrated_probs;
      entry_consistency := consistency |},
   attempt.2).

Definition advanced_entries (model_groups : list (string * list Reply))
    : list ModelEntry :=
  (fold_left
     (fun '(entries, calibrator) '(model, results) =>
        match probabilities_of results with
        | [] => (entries, calibrator)
        | model_probs =>
            let '(entry, calibrator') :=
              advanced_entry calibrator model model_probs in
            (entries ++ [entry], calibrator')
        end)
     model_groups ([], BatchCalibrator_init "platt")).1.

Definition _calculate_variance_reduction (basic_predictions : list Q)
    (enhanced_prediction : Q) : Q :=
  let basic_std := np_std basic_predictions in
  Qmax 0.0
       ((basic_std - Qabs (enhanced_prediction - np_mean basic_predictions))
        / basic_std * 100).

(** [_apply_advanced_algorithms].  An exception inside its [try] gives
    the error dictionary.  The entries ["consensus_improvement"] and
    ["improvement_metrics"] are left out: the helpers that compute them
    catch their own exceptions and take no part in the other entries. *)
Definition _apply_advanced_algorithms
    (model_groups : list (string * list Reply))
    (valid_probabilities : list Q) : Advanced :=
  let entries := advanced_entries model_groups in
  match entries with
  | [] => InsufficientData
  | _ =>
      let all_predictions :=
        map (fun e => np_mean (entry_probs e) / 100.0) entries in
      let all_weights := map entry_consistency entries in
      let model_names := map entry_model entries in
      let outcome :=
        try! bayes <-
          aggregate_forecasts BayesianAggregator_init
            (map (fun p => p * 100.0) all_predictions)
            (Some model_names) (Some all_weights);
        let bayesian_result := bayes.1 in
        try! bayesian_prediction <-
          as_float
            (default (VFloat (np_mean all_predictions * 100.0))
                     (bayesian_result !! "aggregated_forecast"%string));
        let all_calibrated := concat (map entry_calibrated entries) in
        let calibrated_ensemble :=
          match all_calibrated with
          | [] => None
          | _ => Some (np_mean all_calibrated)
          end in
        Ok {| bayesian_ensemble := bayesian_prediction;
              calibrated_ensemble := calibrated_ensemble;
              model_consistency_scores :=
                map (fun e => (entry_model e, entry_consistency e)) entries;
              calibrated_predictions :=
                map (fun e => (entry_model e, entry_calibrated e)) entries;
              variance_reduction :=
                _calculate_variance_reduction valid_probabilities
                                              bayesian_prediction;
              comparison_basic_mean := np_mean valid_probabilities;
              comparison_bayesian_weighted := bayesian_prediction |} in
      match outcome with
      | Ok r => AdvancedOk r
      | Raise e => AdvancedError e
      end
  end.

(** The per-model statistics of [_generate_summary]. *)
Record ModelStats : Type := {
  stats_mean : Q; stats_std : Q; stats_min : Q; stats_max : Q;
  stats_count : nat; stats_success_rate : Q;
}.

Record Summary : Type := {
  total_queries : nat;
  successful_queries : nat;
  failed_queries : nat;
  models_used : list string;
  valid_probabilities_count : nat;
  overall_mean : option Q;
  advanced_analysis : option Advanced;
  model_stats : list (string * ModelStats);
}.

Definition is_successful (r : Reply) : bool :=
  bool_decide (reply_status r = success).

Definition _generate_summary (results : list Reply) : Summary :=
  let model_groups := group_replies results in
  let valid_probabilities := probabilities_of results in
  {| total_queries := length results;
     successful_queries := length (List.filter is_successful results);
     failed_queries :=
       length (List.filter (fun r => negb (is_successful r)) results);
     models_used := map fst model_groups;
     valid_probabilities_count := length valid_probabilities;
     overall_mean :=
       match valid_probabilities with
       | [] => None
       | _ => Some (np_mean valid_probabilities)
       end;
     advanced_analysis :=
       match valid_probabilities with
       | [] => None
       | _ =>
           Some (_apply_advanced_algorithms model_groups valid_probabilities)
       end;
     model_stats :=
       omap (fun '(model, model_results) =>
               match probabilities_of model_results with
               | [] => None
               | model_probs =>
                   Some (model,
                         {| stats_mean := np_mean model_probs;
                            stats_std := np_std model_probs;
                            stats_min := np_min model_probs;
                            stats_max := np_max model_probs;
                            stats_count := length model_probs;
                            stats_success_rate :=
                              Qlen (List.filter is_successful model_results)
                              / Qlen model_results |})
               end)
            model_groups |}.
End Advanced.

(** The dictionary that [run_ensemble_forecast] returns (the metadata
    is left out). *)
Record ForecastResult : Type := {
  forecast_prompt : string;
  forecast_responses : list Reply;
  forecast_summary : Summary;
}.

Section Orchestrator.
Context {L : SciLib}.

(** The client: [query_model(model, prompt, enable_web_search=...,
    max_tokens=...)] either returns a reply or raises. *)
Variable ClientState : Type.
Variable client_query :
  ClientState -> string -> string -> bool -> option Z ->
  result Reply * ClientState.
(** [datetime.now()] *)
Variable clock : ClientState -> Q.
(** The prompt templates. *)
Variable make_prompt :
  bool -> string -> string -> option string -> option string -> string.
(** [random.gauss(35, 15)] and [random.uniform(0.5, 2.0)] of the [i]-th
    mock reply. *)
Variable mock_sample : nat -> Q * Q.

(** [OpenRouterClient.test_connection] over the client interface. *)
Definition connection_ok (st : ClientState) : bool * ClientState :=
  match client_query st "openai/gpt-3.5-turbo"
                     "Say 'test successful' if you can read this."
                     false (Some 10%Z) with
  | (Ok response, st') =>
      (bool_decide (reply_status response = success), st')
  | (Raise _, st') => (false, st')
  end.

(** The nested [limited_query] of [_run_model_batch]; the delay before
    a query to a free model takes time only. *)
Definition limited_query (model prompt : string) (task_id : nat)
    (iteration : nat) (st : ClientState) (progress : list Task)
    : result Reply * ClientState * list Task :=
  match client_query st model prompt true None with
  | (Raise e, st1) => (Raise e, st1, progress)
  | (Ok result, st1) =>
      let retried :=
        if bool_decide (reply_status result = empty_response)
           && contains ":free" model
        then client_query st1 model prompt true (Some 10000%Z)
        else (Ok result, st1) in
      match retried with
      | (Raise e, st2) => (Raise e, st2, progress)
      | (Ok result, st2) =>
          (Ok (with_iteration result (iteration + 1)), st2,
           progress_update progress task_id 1)
      end
  end.

(** The iterations of one model, in the order of their numbers.  The
    loop for a free model catches the exception of each iteration, and
    [asyncio.gather(..., return_exceptions=True)] returns the results of
    the tasks in the order of the tasks; the model runs the tasks in
    that order. *)
Definition run_iterations (model prompt : string) (task_id : nat)
    (iterations : nat) (st : ClientState) (progress : list Task)
    : list (result Reply) * ClientState * list Task :=
  fold_left
    (fun '(results, st, progress) i =>
       let '(result, st', progress') :=
         limited_query model prompt task_id i st progress in
       (results ++ [result], st', progress'))
    (seq 0 iterations) ([], st, progress).

(** The loop that turns exceptions into replies. *)
Definition to_valid_results (model : string) (t : Q)
    (results : list (result Reply)) : list Reply :=
  imap (fun i result =>
          match result with
          | Ok reply => reply
          | Raise e =>
              {| reply_model := model; reply_timestamp := t;
                 reply_response_time := 0; reply_content := None;
                 reply_probability := None; reply_error := Some e;
                 reply_status := error; reply_source := None;
                 reply_usage := None; reply_log_probabilities := None;
                 reply_iteration := Some (i + 1)%nat;
                 reply_ensemble_id := None |}
          end)
       results.

Definition mock_reply (model : string) (t : Q) (i : nat) : Reply :=
  let '(base_prob, response_time) := mock_sample i in
  let probability := Qmax 5 (Qmin 95 base_prob) in
  {| reply_model := model; reply_timestamp := t;
     reply_response_time := response_time;
     reply_content := Some (String.append "[DRY-RUN] Mock response for " model);
     reply_probability := Some probability; reply_error := None;
     reply_status := success; reply_source := Some "dry_run";
     reply_usage := Some {| prompt_tokens := 1500; completion_tokens := 500;
                            total_tokens := 2000 |};
     reply_log_probabilities := None;
     reply_iteration := Some (i + 1)%nat; reply_ensemble_id := None |}.

Definition _run_model_batch (self : EnsembleManager) (model prompt : string)
    (iterations : nat) (task_id : nat) (st : ClientState)
    (progress : list Task) : list Reply * ClientState * list Task :=
  if dry_run self then
    (map (mock_reply model (clock st)) (seq 0 iterations), st,
     progress_update progress task_id iterations)
  else
    let '(results, st', progress') :=
      run_iterations model prompt task_id iterations st progress in
    (to_valid_results model (clock st') results, st', progress').

(** The loop over the models in [run_ensemble_forecast]. *)
Definition run_models (self : EnsembleManager) (prompt : string)
    (models : list string) (iterations main_task : nat)
    (st : ClientState) (progress : list Task)
    : list Reply * ClientState * list Task :=
  fold_left
    (fun '(all_results, st, progress) model =>
       let '(model_task, progress) := add_task progress model iterations in
       let '(model_results, st, progress) :=
         _run_model_batch self model prompt iterations model_task st
                          progress in
       let progress := progress_update progress main_task iterations in
       let model_results :=
         map (fun r =>
                with_ensemble_id
                  r (ensemble_id_of model (default 0%nat (reply_iteration r))))
             model_results in
       (all_results ++ model_results, st, progress))
    models ([], st, progress).

(** [models or self.settings...] and [iterations or self.settings...]:
    an empty list and zero stand for a missing argument. *)
Definition effective_models (self : EnsembleManager) (models : list string)
    : list string :=
  match models with
  | [] => enabled_models (manager_settings self)
  | _ => models
  end.

Definition effective_iterations (self : EnsembleManager) (iterations : nat)
    : nat :=
  match iterations with
  | O => iterations_per_model (manager_settings self)
  | _ => iterations
  end.

(** [run_ensemble_forecast]; the task of the overall progress is the
    first task of the display, with id 0. *)
Definition run_ensemble_forecast (self : EnsembleManager)
    (question definition : string) (models : list string) (iterations : nat)
    (timeframe context : option string) (st : ClientState)
    : result (ForecastResult * list Task) * ClientState :=
  let models := effective_models self models in
  let iterations := effective_iterations self iterations in
  let prompt :=
    make_prompt (enhanced_prompts self) question definition timeframe
                context in
  let '(connected, st) :=
    if dry_run self then (true, st)
    else if forallb (contains ":free") models then (true, st)
    else connection_ok st in
  if negb connected then
    (Raise "ConnectionError: Could not connect to OpenRouter API", st)
  else
    let '(main_task, progress) :=
      add_task [] "Overall Analysis Progress"
               (length models * iterations) in
    let '(all_results, st, progress) :=
      run_models self prompt models iterations main_task st progress in
    (Ok ({| forecast_prompt := prompt;
            forecast_responses := all_results;
            forecast_summary := _generate_summary all_results |},
         progress),
     st).
End Orchestrator.

(** [OpenRouterClient] as the client of the orchestrator: the default
    temperature 0.7 and [max_tokens] 4000, no forced refresh. *)
Definition openrouter_query (transport : nat -> Request -> Outcome)
    (st : OpenRouterClient) (model prompt : string)
    (enable_web_search : bool) (max_tokens : option Z)
    : result Reply * OpenRouterClient :=
  let '(reply, st') :=
    query_model transport st model prompt 0.7 (default 4000%Z max_tokens)
                enable_web_search false in
  (Ok reply, st').

(** What a call yields when it fails: an exception, or a reply of the
    error family. *)
Definition failed (r : result Reply) : Prop :=
  match r with
  | Ok reply => error_family (reply_status reply) = true
  | Raise _ => True
  end.

(** Every call of the client fails, in every state that satisfies
    [inv], and leaves a state that satisfies [inv]. *)
Definition always_fails {ClientState : Type} (inv : ClientState -> Prop)
    (client_query : ClientState -> string -> string -> bool -> option Z ->
                    result Reply * ClientState) : Prop :=
  forall st model prompt web max_tokens,
    inv st ->
    failed (client_query st model prompt web max_tokens).1
    /\ inv (client_query st model prompt web max_tokens).2.

(** The service raises on every request. *)
Definition service_down (transport : nat -> Request -> Outcome) : Prop :=
  forall n request,
    match transport n request with
    | Responded _ _ => False
    | TimeoutError _ | Failure _ _ => True
    end.

(** No response is stored. *)
Definition cache_empty (st : OpenRouterClient) : Prop :=
  match cache st with
  | Some c => c = ∅
  | None => True
  end.

(** The defaults of [config/settings.py]. *)
Definition default_settings : Settings :=
  {| enabled_models :=
       [ "x-ai/grok-4-fast:free"; "google/gemma-2b-it:free";
         "mistralai/mistral-7b-instruct:free";
         "nousresearch/hermes-3-llama-3.1-8b:free";
         "qwen/qwen-2.5-72b-instruct:free";
         "meta-llama/llama-3.2-3b-instruct:free";
         "google/gemma-2-9b-it:free" ]%string;
     iterations_per_model := 10;
     concurrent_requests := 3;
     rate_limit_delay := 0 |}.

(** [EnsembleManager()] *)
Definition EnsembleManager_init : EnsembleManager :=
  {| manager_settings := default_settings; dry_run := false;
     enhanced_prompts := false |}.

(** A service that answers every request with an HTTP 503 error after
    one second. *)
Definition unavailable_service (n : nat) (request : Request) : Outcome :=
  Failure "Error code: 503 - Service Unavailable" 1.

(** A stand-in for the prompt templates. *)
Definition plain_prompt (enhanced : bool) (question definition : string)
    (timeframe context : option string) : string :=
  String.append question (String.append " " definition).

(** The dictionary [model_predictions] of [_apply_advanced_algorithms]:
    the probabilities of every model that has at least one. *)
Definition model_predictions_of (model_groups : list (string * list Reply))
    : list (string * list Q) :=
  omap (fun '(model, results) =>
          match probabilities_of results with
          | [] => None
          | model_probs => Some (model, model_probs)
          end)
       model_groups.

(** A successful reply of [model] whose extracted probability is [p],
    and two model groups used as a worked example for
    [_apply_advanced_algorithms]. *)
Definition answered (model : string) (p : Q) : Reply :=
  {| reply_model := model; reply_timestamp := 0; reply_response_time := 1;
     reply_content := Some "Probability: see the estimate above.";
     reply_probability := Some p; reply_error := None;
     reply_status := success; reply_source := Some "api";
     reply_usage := None; reply_log_probabilities := None;
     reply_iteration := None; reply_ensemble_id := None |}.

Definition sample_groups : list (string * list Reply) :=
  [("model-a"%string, [answered "model-a" 20; answered "model-a" 40]);
   ("model-b"%string, [answered "model-b" 60; answered "model-b" 80;
                       answered "model-b" 70])].

(** A service that answers every request, after two seconds, with a
    text whose percentage is out of range. *)
Definition overconfident_service (n : nat) (request : Request) : Outcome :=
  Responded {| choices := Some (Some "The chance is 150% for sure");
               usage := None; logprobs := None |} 2.

From Stdlib Require Import Sorted.

(** ** Further definitions for the properties of Part III *)

(** The recorded errors of the history are absolute values, and so are
    their running means. *)
Definition history_ok (self : BayesianAggregator) : Prop :=
  forall id perf,
    historical_performance self !! id = Some perf ->
    Forall (fun e => 0 <= e) (perf_errors perf) /\ 0 <= avg_error perf.

(** *** bayesian_aggregator.py: the two further methods *)

(** The parameters of one model's distribution; a missing entry is
    [None]. *)
Record Distribution : Type := {
  dist_mean : option Q;
  dist_variance : option Q;
}.

(** The dictionary that [supra_bayesian_aggregation] returns. *)
Record SupraResult : Type := {
  supra_pooled_mean : Q;
  supra_pooled_variance : Q;
  supra_pooled_std : Q;
  supra_credible_lower : Q;
  supra_credible_upper : Q;
  supra_model_weights : list (string * Q);
}.

Inductive Supra : Type :=
| SupraError (message : string)      (* [{"error": ...}] *)
| SupraOk (r : SupraResult).

Section SupraBayes.
Context {L : SciLib}.

(** [supra_bayesian_aggregation].  (Where a divisor is zero NumPy
    yields [inf] or [nan]; the model has neither, and the properties
    below assume variances that are not negative.) *)
Definition supra_bayesian_aggregation
    (model_distributions : list (string * Distribution)) : Supra :=
  match model_distributions with
  | [] => SupraError "No distributions provided"
  | _ =>
      let means :=
        map (fun md => default 0.5 (dist_mean md.2)) model_distributions in
      let variances :=
        map (fun md => default 0.01 (dist_variance md.2))
            model_distributions in
      let model_names := map fst model_distributions in
      let precisions := map (fun v => 1.0 / (v + 1e-10)) variances in
      let weights := map (fun pr => pr / Qsum precisions) precisions in
      let pooled_mean := Qsum (zip_with Qmult weights means) in
      let within_variance := 1.0 / Qsum precisions in
      let between_variance :=
        Qsum (zip_with
                (fun w m => w * ((m - pooled_mean) * (m - pooled_mean)))
                weights means) in
      let pooled_variance := within_variance + between_variance in
      let pooled_std := np_sqrt pooled_variance in
      let lower_ci := pooled_mean - 1.96 * pooled_std in
      let upper_ci := pooled_mean + 1.96 * pooled_std in
      SupraOk {| supra_pooled_mean := pooled_mean * 100;
                 supra_pooled_variance := pooled_variance;
                 supra_pooled_std := pooled_std;
                 supra_credible_lower := Qmax 0 lower_ci * 100;
                 supra_credible_upper := Qmin 1 upper_ci * 100;
                 supra_model_weights := zip model_names weights |}
  end.
End SupraBayes.

(** [evidence_based_update]; the two entries of [evidence] are [None]
    when missing.  A Python float division by zero raises. *)
Definition evidence_based_update (prior_prob : Q)
    (likelihood_ratio confidence : option Q) : result Q :=
  let prior := prior_prob / 100.0 in
  let likelihood_ratio := default 1.0 likelihood_ratio in
  let confidence := default 1.0 confidence in
  if negb (Qeq_bool likelihood_ratio 1.0) then
    let effective_lr := 1.0 + (likelihood_ratio - 1.0) * confidence in
    if Qeq_bool (1 - prior + 1e-10) 0 then Raise "ZeroDivisionError"
    else
      let odds_prior := prior / (1 - prior + 1e-10) in
      let odds_post := odds_prior * effective_lr in
      if Qeq_bool (1 + odds_post) 0 then Raise "ZeroDivisionError"
      else Ok (odds_post / (1 + odds_post) * 100)
  else Ok (prior * 100).

(** *** calibration.py: MultiModelCalibrator *)

(** The attribute [model_calibrators]. *)
Record MultiModelCalibrator : Type := {
  model_calibrators : gmap string BatchCalibrator;
}.

(** [MultiModelCalibrator()] *)
Definition MultiModelCalibrator_init : MultiModelCalibrator :=
  {| model_calibrators := ∅ |}.

Section MultiCalibration.
Context {L : SciLib}.

Definition fit_model (self : MultiModelCalibrator) (model_name : string)
    (probabilities : list Q) (labels : option (list bool))
    : result MultiModelCalibrator :=
  try! calibrator <-
    fit (BatchCalibrator_init "temperature") probabilities labels;
  Ok {| model_calibrators :=
          <[model_name := calibrator]> (model_calibrators self) |}.

(** The loop of [calibrate_ensemble].  A stored calibrator is the
    object that [calibrate_batch] works on, so what the call changes in
    it is stored; a new one is stored after its call. *)
Fixpoint calibrate_ensemble_loop
    (calibrators : gmap string BatchCalibrator)
    (items : list (string * list Q))
    (calibrated_predictions : list (string * list Q))
    : result (list (string * list Q) * gmap string BatchCalibrator) :=
  match items with
  | [] => Ok (calibrated_predictions, calibrators)
  | (model_name, predictions) :: rest =>
      let calibrator :=
        match calibrators !! model_name with
        | Some calibrator => calibrator
        | None => BatchCalibrator_init "temperature"
        end in
      try! r <- calibrate_batch calibrator predictions;
      let '(calibrated, calibrator') := r in
      calibrate_ensemble_loop
        (<[model_name := calibrator']> calibrators) rest
        (dict_set calibrated_predictions model_name calibrated)
  end.

Definition calibrate_ensemble (self : MultiModelCalibrator)
    (model_predictions : list (string * list Q))
    : result (list (string * list Q) * MultiModelCalibrator) :=
  try! r <- calibrate_ensemble_loop (model_calibrators self)
                                    model_predictions [];
  Ok (r.1, {| model_calibrators := r.2 |}).
End MultiCalibration.

(** Every stored calibrator scales by temperature. *)
Definition calibrators_ok (self : MultiModelCalibrator) : Prop :=
  forall name c,
    model_calibrators self !! name = Some c ->
    calibrator_method c = "temperature"%string.

(** A service that answers every request, after one second, with a
    usable text. *)
Definition friendly_service (n : nat) (request : Request) : Outcome :=
  Responded {| choices := Some (Some "test successful: about 40% overall");
               usage := None; logprobs := None |} 1.

(** *** aggregator.py: the further methods of ForecastAggregator *)

Definition with_calibrator (self : ForecastAggregator)
    (c : BatchCalibrator) : ForecastAggregator :=
  {| aggregator_method := aggregator_method self; calibrator := c;
     consistency_scorer := consistency_scorer self;
     bayesian_aggregator := bayesian_aggregator self |}.

Definition with_bayesian_aggregator (self : ForecastAggregator)
    (b : BayesianAggregator) : ForecastAggregator :=
  {| aggregator_method := aggregator_method self;
     calibrator := calibrator self;
     consistency_scorer := consistency_scorer self;
     bayesian_aggregator := b |}.

(** [ForecastAggregator(method)] *)
Definition ForecastAggregator_with (method : string) : ForecastAggregator :=
  {| aggregator_method := method;
     calibrator := BatchCalibrator_init "temperature";
     consistency_scorer := ConsistencyScorer_init "ensemble";
     bayesian_aggregator := BayesianAggregator_init |}.

(** [d.get(k)] read as a number. *)
Definition get_float (d : gmap string value) (k : string) : option Q :=
  match d !! k with
  | Some (VFloat q) => Some q
  | Some (VInt z) => Some (inject_Z z)
  | _ => None
  end.

(** The dictionary that [analyze_consensus] returns for at least two
    valid responses. *)
Record Consensus : Type := {
  consensus_score : option Q;
  consensus_std_deviation : Q;
  consensus_coefficient_of_variation : option Q;
  consensus_iqr : Q;
  consensus_p25 : Q;
  consensus_p75 : Q;
  consensus_range : Q;
  consensus_count : nat;
}.

Inductive ConsensusResult : Type :=
| ConsensusInsufficient      (* [{"consensus_score": None, "message": ...}] *)
| ConsensusOk (c : Consensus).

(** The dictionary that [calculate_brier_score] returns. *)
Inductive Brier : Type :=
| BrierError (message : string)
| BrierOk (ensemble_brier_score : Q)
          (model_brier_scores : list (string * Q)) (reference_score : Q).

Section AggregatorMethods.
Context {L : SciLib}.

(** [np.std(a, ddof=1)]: the sample standard deviation. *)
Definition np_std_ddof1 (l : list Q) : Q :=
  let m := np_mean l in
  np_sqrt (Qsum (map (fun x => Qabs (x - m) * Qabs (x - m)) l)
           / (Qlen l - 1)).

Definition calculate_ensemble_probability (self : ForecastAggregator)
    (responses : list ModelResponse)
    : result (option Q * ForecastAggregator) :=
  let valid_probabilities := omap valid_probability responses in
  match valid_probabilities with
  | [] => Ok (None, self)
  | _ =>
      let method := aggregator_method self in
      if String.eqb method "simple" then
        Ok (Some (np_mean valid_probabilities), self)
      else if String.eqb method "calibrated" then
        try! cal <- calibrate_batch (calibrator self) valid_probabilities;
        Ok (Some (np_mean cal.1), with_calibrator self cal.2)
      else if String.eqb method "consistency" then
        let model_predictions := group_by_model responses in
        Ok (Some (calculate_weighted_aggregate (consistency_scorer self)
                                               model_predictions),
            self)
      else if String.eqb method "bayesian" then
        let expert_ids :=
          map response_model (valid_responses_of responses) in
        try! bayes <-
          aggregate_forecasts (bayesian_aggregator self) valid_probabilities
                              (Some expert_ids) None;
        Ok (get_float bayes.1 "aggregated_probability",
            with_bayesian_aggregator self bayes.2)
      else if String.eqb method "ensemble" then
        try! cal <- calibrate_batch (calibrator self) valid_probabilities;
        let model_predictions := group_by_model responses in
        let expert_ids :=
          map response_model (valid_responses_of responses) in
        try! bayes <-
          aggregate_forecasts (bayesian_aggregator self) valid_probabilities
                              (Some expert_ids) None;
        let methods_results :=
          [Some (np_mean valid_probabilities); Some (np_mean cal.1)]
          ++ match model_predictions with
             | [] => []
             | _ => [Some (calculate_weighted_aggregate
                             (consistency_scorer self) model_predictions)]
             end
          ++ [get_float bayes.1 "aggregated_probability"] in
        Ok (Some (np_mean (omap id methods_results)),
            with_bayesian_aggregator (with_calibrator self cal.2) bayes.2)
      else
        Ok (Some (np_mean valid_probabilities), self)
  end.

(** [calculate_weighted_ensemble_probability]; [model_weights] is
    [None] when the argument is left out. *)
Definition calculate_weighted_ensemble_probability
    (responses : list ModelResponse) (model_weights : option (gmap string Q))
    : option Q :=
  let model_groups := group_by_model responses in
  match model_groups with
  | [] => None
  | _ =>
      let model_weights :=
        match model_weights with
        | Some w => w
        | None => py_dict (map (fun g => (g.1, 1.0)) model_groups)
        end in
      let '(weighted_sum, total_weight) :=
        fold_left
          (fun '(weighted_sum, total_weight) '(model, probabilities) =>
             match model_weights !! model with
             | Some weight =>
                 (weighted_sum + weight * np_mean probabilities,
                  total_weight + weight)
             | None => (weighted_sum, total_weight)
             end)
          model_groups (0.0, 0.0) in
      if Qltb 0 total_weight then Some (weighted_sum / total_weight)
      else None
  end.

(** [analyze_consensus].  [cv or 1] is 1 when the coefficient of
    variation is zero. *)
Definition analyze_consensus (responses : list ModelResponse)
    : ConsensusResult :=
  let valid_probabilities := omap valid_probability responses in
  if (length valid_probabilities <? 2)%nat then ConsensusInsufficient
  else
    let std_dev := np_std_ddof1 valid_probabilities in
    let coefficient_of_variation :=
      if Qltb 0 (np_mean valid_probabilities)
      then Some (std_dev / np_mean valid_probabilities) else None in
    let consensus_score :=
      match coefficient_of_variation with
      | Some cv => Some (Qmax 0 (1 - (if Qeq_bool cv 0 then 1 else cv)))
      | None => None
      end in
    let p25 := np_percentile valid_probabilities 25 in
    let p75 := np_percentile valid_probabilities 75 in
    let iqr := p75 - p25 in
    ConsensusOk
      {| consensus_score := consensus_score;
         consensus_std_deviation := std_dev;
         consensus_coefficient_of_variation := coefficient_of_variation;
         consensus_iqr := iqr; consensus_p25 := p25; consensus_p75 := p75;
         consensus_range :=
           np_max valid_probabilities - np_min valid_probabilities;
         consensus_count := length valid_probabilities |}.

(** [identify_outliers].  [scipy.stats.zscore] divides by the
    population standard deviation; where that is zero the scores are
    [nan] in NumPy and zero in the model, and no score exceeds the
    threshold either way. *)
Definition identify_outliers (responses : list ModelResponse)
    (method : string) : list string :=
  let valid_responses := valid_responses_of responses in
  if (length valid_responses <? 4)%nat then []
  else
    let probabilities := omap valid_probability valid_responses in
    if String.eqb method "iqr" then
      let q1 := np_percentile probabilities 25 in
      let q3 := np_percentile probabilities 75 in
      let iqr := q3 - q1 in
      let lower_bound := q1 - 1.5 * iqr in
      let upper_bound := q3 + 1.5 * iqr in
      map response_ensemble_id
          (List.filter
             (fun response =>
                match response_probability response with
                | Some p => Qltb p lower_bound || Qltb upper_bound p
                | None => false
                end)
             valid_responses)
    else if String.eqb method "zscore" then
      let mean := np_mean probabilities in
      let std := np_std probabilities in
      let z_scores := map (fun p => Qabs ((p - mean) / std)) probabilities in
      let threshold := 2.5 in
      omap (fun '(z, response) =>
              if Qltb threshold z then Some (response_ensemble_id response)
              else None)
           (zip z_scores valid_responses)
    else [].

(** [calculate_brier_score]; the groups collect [probability / 100.0]. *)
Definition calculate_brier_score (responses : list ModelResponse)
    (actual_outcome : bool) : Brier :=
  let outcome_binary := if actual_outcome then 1.0 else 0.0 in
  let valid_probabilities :=
    map (fun p => p / 100.0) (omap valid_probability responses) in
  match valid_probabilities with
  | [] => BrierError "No valid probabilities for Brier score calculation"
  | _ =>
      let ensemble_prob := np_mean valid_probabilities in
      let ensemble_brier :=
        (ensemble_prob - outcome_binary) * (ensemble_prob - outcome_binary) in
      let model_groups :=
        fold_left
          (fun d response =>
             match valid_probability response with
             | Some p =>
                 dict_set d (response_model response)
                          (default [] (dict_get d (response_model response))
                           ++ [p / 100.0])
             | None => d
             end)
          responses [] in
      let model_brier_scores :=
        map (fun '(model, probabilities) =>
               let model_mean := np_mean probabilities in
               (model,
                (model_mean - outcome_binary) * (model_mean - outcome_binary)))
            model_groups in
      BrierOk ensemble_brier model_brier_scores 0.25
  end.
End AggregatorMethods.

(** The probabilities that the validator of [ModelResponse] admits. *)
Definition responses_ok (responses : list ModelResponse) : Prop :=
  Forall (fun r => forall p, response_probability r = Some p -> 0 <= p <= 100)
         responses.

(** Batches of responses for the examples: six responses of three
    models, one of them failed and one far from the others; and three
    models that agree. *)
Definition response_of (model : string) (iteration : nat) (id : string)
    (status : ResponseStatus) (probability : option Q) : ModelResponse :=
  {| response_model := model; response_iteration := iteration;
     response_ensemble_id := id; response_time := 1;
     response_status := status;
     response_content :=
       match probability with Some _ => Some "PROGNOSE: x%" | None => None end;
     response_probability := probability |}.

Definition mixed_responses : list ModelResponse :=
  [response_of "A" 1 "A_1" SUCCESS (Some 30);
   response_of "A" 2 "A_2" SUCCESS (Some 32);
   response_of "B" 1 "B_1" SUCCESS (Some 31);
   response_of "B" 2 "B_2" ERROR None;
   response_of "C" 1 "C_1" SUCCESS (Some 33);
   response_of "C" 2 "C_2" SUCCESS (Some 95)].

Definition unanimous_responses : list ModelResponse :=
  [response_of "A" 1 "A_1" SUCCESS (Some 40);
   response_of "B" 1 "B_1" SUCCESS (Some 40);
   response_of "C" 1 "C_1" SUCCESS (Some 40)].

(* ===================================================================== *)
(** * Part II.  Properties                                                *)
(* ===================================================================== *)

(** ** Arithmetic of the array reductions *)

Lemma Qltb_lt x y : Qltb x y = true <-> x < y.
Proof.
  unfold Qltb. rewrite negb_true_iff.
  split; intros H.
  - apply Qnot_le_lt. intros Hle. apply Qle_bool_iff in Hle. congruence.
  - destruct (Qle_bool y x) eqn:E; [|reflexivity].
    apply Qle_bool_iff in E. exfalso. apply (Qlt_not_le _ _ H E).
Qed.

Lemma Qsum_cons x l : Qsum (x :: l) == x + Qsum l.
Proof. simpl. apply Qred_correct. Qed.

Lemma Qsum_nonneg l : Forall (fun x => 0 <= x) l -> 0 <= Qsum l.
Proof.
  induction 1 as [|x l Hx Hl IH]; [discriminate|].
  rewrite Qsum_cons. lra.
Qed.

Lemma Qsum_repeat_one n : Qsum (repeat 1 n) == inject_Z (Z.of_nat n).
Proof.
  induction n as [|n IH]; [reflexivity|].
  cbn [repeat]. rewrite Qsum_cons, IH, Nat2Z.inj_succ. unfold Z.succ.
  rewrite inject_Z_plus. ring.
Qed.

Lemma Qsum_scale c l : Qsum (map (fun w => Qred (w / c)) l) == Qsum l / c.
Proof.
  induction l as [|x l IH]; simpl map.
  - vm_compute Qsum. unfold Qdiv. ring.
  - rewrite !Qsum_cons, IH, Qred_correct. unfold Qdiv. ring.
Qed.

(** A weighted sum lies between the extreme values times the total weight. *)
Lemma weighted_sum_bounds lo hi (p w : list Q) :
  length p = length w ->
  Forall (fun x => lo <= x <= hi) p -> Forall (fun x => 0 <= x) w ->
  lo * Qsum w <= Qsum (zip_with Qmult p w) <= hi * Qsum w.
Proof.
  revert w. induction p as [|a p IH]; intros [|b w] Hlen Hp Hw;
    try discriminate.
  - vm_compute Qsum. lra.
  - inversion Hp as [|? ? [Ha1 Ha2] Hp']; subst.
    inversion Hw as [|? ? Hb Hw']; subst.
    simpl zip_with. rewrite !Qsum_cons.
    destruct (IH w) as [H1 H2]; auto.
    split; nra.
Qed.

Lemma nonneg_scaled (w a : list Q) :
  length a = length w ->
  Forall (fun x => 0 <= x) w -> Forall (fun x => 0 < x) a ->
  Forall (fun x => 0 <= x) (zip_with Qmult w a)
  /\ length (zip_with Qmult w a) = length w.
Proof.
  intros Hlen Hw. revert a Hlen.
  induction Hw as [|z w Hz Hw IH]; intros [|b a] Hlen Ha; try discriminate;
    cbn [zip_with length].
  - split; [constructor|reflexivity].
  - inversion Ha as [|? ? Hb Ha']; subst.
    destruct (IH a) as [H1 H2]; [simpl in Hlen; lia|assumption|].
    split; [|f_equal; exact H2].
    constructor; [|exact H1].
    apply Qmult_le_0_compat; [exact Hz|apply Qlt_le_weak; exact Hb].
Qed.

(** Scaling each weight by a positive factor keeps the weights usable. *)
Lemma weights_ok_scaled (w a : list Q) :
  length a = length w -> weights_ok w -> Forall (fun x => 0 < x) a ->
  length (zip_with Qmult w a) = length w /\ weights_ok (zip_with Qmult w a).
Proof.
  intros Hlen [Hw Hs] Ha.
  destruct (nonneg_scaled w a Hlen Hw Ha) as [Hnn Hl].
  split; [exact Hl|]. split; [exact Hnn|]. clear Hnn Hl.
  revert a Hlen Ha Hs.
  induction Hw as [|x w Hx Hw IH]; intros [|y a] Hlen Ha Hs; try discriminate.
  inversion Ha as [|? ? Hy Ha']; subst.
  rewrite Qsum_cons in Hs. cbn [zip_with]. rewrite Qsum_cons.
  destruct (nonneg_scaled w a) as [Hnn _];
    [simpl in Hlen; lia|assumption|assumption|].
  pose proof (Qsum_nonneg _ Hnn) as H0.
  assert (Hxy : 0 <= x * y)
    by (apply Qmult_le_0_compat; [exact Hx|apply Qlt_le_weak; exact Hy]).
  destruct (Qlt_le_dec 0 x) as [Hpos|Hzero].
  - assert (0 < x * y) by (apply Qmult_lt_0_compat; assumption). lra.
  - assert (0 < Qsum w) by lra.
    assert (0 < Qsum (zip_with Qmult w a))
      by (apply IH; [simpl in Hlen; lia|assumption|assumption]).
    lra.
Qed.

(** ** The weights of [_calculate_expert_weights] *)

Lemma length_detect_outliers self p :
  length (_detect_outliers self p) = length p.
Proof.
  unfold _detect_outliers.
  repeat match goal with |- context [if ?b then _ else _] => destruct b end;
    rewrite ?repeat_length, ?length_map; reflexivity.
Qed.

Lemma zip_with_repeat_one (c : list Q) :
  Forall2 Qeq (zip_with Qmult (repeat 1 (length c)) c) c.
Proof.
  induction c as [|x c IH]; cbn [length repeat zip_with]; constructor.
  - ring.
  - exact IH.
Qed.

Lemma weights_ok_Forall2 (w w' : list Q) :
  Forall2 Qeq w w' -> weights_ok w -> weights_ok w'.
Proof.
  intros H [Hn Hs]. assert (Qsum w == Qsum w' /\ Forall (fun x => 0 <= x) w').
  { clear Hs. induction H as [|x y w w' Hxy H IH]; [split; [reflexivity|constructor]|].
    inversion Hn as [|? ? Hx Hn']; subst. destruct (IH Hn') as [E F].
    split; [rewrite !Qsum_cons, Hxy, E; reflexivity|].
    constructor; [rewrite <- Hxy; exact Hx|exact F]. }
  destruct H0 as [E F]. split; [exact F|]. rewrite <- E. exact Hs.
Qed.

Lemma confidence_weighting_ok n c :
  length c = n -> weights_ok c ->
  exists w, confidence_weighting n c = Ok w /\ length w = n /\ weights_ok w.
Proof.
  intros Hlen Hc. unfold confidence_weighting.
  rewrite (proj2 (Nat.eqb_eq _ _) Hlen).
  eexists; split; [reflexivity|]. subst n.
  pose proof (zip_with_repeat_one c) as H. split.
  - apply (Forall2_length _ _ _ H).
  - apply (weights_ok_Forall2 c); [|exact Hc].
    clear -H. induction H; constructor; [symmetry|]; assumption.
Qed.

Lemma outlier_penalty_ok w mask :
  length mask = length w -> weights_ok w ->
  length (outlier_penalty w mask) = length w /\
  weights_ok (outlier_penalty w mask).
Proof.
  intros Hlen Hw.
  destruct (weights_ok_scaled w (map (fun o : bool => if o then 0.1 else 1) mask))
    as [L1 W1]; [rewrite length_map; exact Hlen|exact Hw| |].
  { rewrite Forall_map. apply Forall_true. intros [|]; reflexivity. }
  assert (F : Forall2 Qeq
                (zip_with Qmult w (map (fun o : bool => if o then 0.1 else 1) mask))
                (outlier_penalty w mask)).
  { clear. unfold outlier_penalty. revert mask.
    induction w as [|x w IH]; intros [|b mask]; cbn [map zip_with];
      try constructor; [destruct b; ring|apply IH]. }
  split.
  - rewrite <- (Forall2_length _ _ _ F). exact L1.
  - exact (weights_ok_Forall2 _ _ F W1).
Qed.

Lemma weights_ok_insert_scaled (w : list Q) (i : nat) (x h : Q) :
  weights_ok w -> w !! i = Some x -> 0 < h ->
  weights_ok (<[i := x * h]> w).
Proof.
  intros [Hn Hs] Hi Hh.
  assert (Hx : 0 <= x) by (eapply (Forall_lookup_1 _ _ _ _ Hn); eauto).
  assert (Hn' : Forall (fun y => 0 <= y) (<[i := x * h]> w)).
  { apply Forall_insert; [exact Hn|]. nra. }
  split; [exact Hn'|].
  revert i Hi Hn'. induction w as [|y t IH]; intros i Hi Hn'.
  - discriminate.
  - inversion Hn as [|? ? Hy Ht]; subst. cbv beta in Hy.
    rewrite Qsum_cons in Hs.
    destruct i as [|j]; cbn [insert list_insert] in *.
    + cbn in Hi. injection Hi as ->. rewrite Qsum_cons.
      pose proof (Qsum_nonneg _ Ht).
      destruct (Qlt_le_dec 0 x); nra.
    + cbn in Hi. rewrite Qsum_cons.
      inversion Hn' as [|? ? _ Hn'']; subst. cbv beta in *.
      match goal with
      | |- 0 < _ + ?S =>
          assert (H0 : 0 <= S) by (apply Qsum_nonneg; exact Hn'');
          destruct (Qlt_le_dec 0 (Qsum t)) as [Hpos|Hzero];
          [assert (0 < S) by (apply IH; auto); lra | lra]
      end.
Qed.

Lemma historical_weighting_ok self ids : hist_ok self ->
  forall i w, (i + length ids <= length w)%nat -> weights_ok w ->
  exists w', historical_weighting self i ids w = Ok w' /\
             length w' = length w /\ weights_ok w'.
Proof.
  intros Hh. induction ids as [|id ids IH]; intros i w Hlen Hw; simpl.
  - eauto.
  - simpl in Hlen.
    destruct (historical_performance self !! id) as [perf|] eqn:E.
    + destruct (lookup_lt_is_Some_2 w i) as [x Hx]; [lia|].
      rewrite Hx.
      destruct (IH (S i) (<[i := x * (1.0 / (1.0 + avg_error perf))]> w))
        as (w' & H1 & H2 & H3).
      * rewrite length_insert. lia.
      * apply weights_ok_insert_scaled; [exact Hw|exact Hx|].
        assert (0 <= avg_error perf) by (eapply Hh; eauto).
        apply Qlt_shift_div_l; lra.
      * exists w'. rewrite length_insert in H2. auto.
    + apply IH; [lia|assumption].
Qed.

Lemma np_average_ok p w :
  weights_ok w ->
  np_average p w = Ok (Qred (Qsum (zip_with Qmult p w) / Qsum w)).
Proof.
  intros [_ Hs]. unfold np_average.
  destruct (Qeq_bool (Qsum w) 0) eqn:E; [|reflexivity].
  apply Qeq_bool_iff in E. lra.
Qed.

Lemma agreement_weights_positive m (p : list Q) :
  Forall (fun x => 0 < x)
         (map (fun d => 1.0 / (1.0 + d * 5))
              (map (fun x => Qabs (x - m)) p)).
Proof.
  rewrite !Forall_map. apply Forall_true. intros x.
  cbv beta. pose proof (Qabs_nonneg (x - m)).
  apply Qlt_shift_div_l; lra.
Qed.

Lemma consensus_round_ok p w :
  length p = length w -> weights_ok w ->
  exists w', consensus_round p w = Ok w' /\
             length w' = length w /\ weights_ok w'.
Proof.
  intros Hlen Hw. unfold consensus_round.
  rewrite np_average_ok by assumption. unfold rbind.
  eexists; split; [reflexivity|].
  apply weights_ok_scaled; [|assumption|apply agreement_weights_positive].
  rewrite !length_map. exact Hlen.
Qed.

Lemma consensus_rounds_ok k p w :
  length p = length w -> weights_ok w ->
  exists w', consensus_rounds k p w = Ok w' /\
             length w' = length w /\ weights_ok w'.
Proof.
  revert w. induction k as [|k IH]; intros w Hlen Hw; simpl.
  - eauto.
  - destruct (consensus_round_ok p w) as (w1 & E1 & L1 & P1); auto.
    rewrite E1. cbn [rbind].
    destruct (IH w1) as (w2 & E2 & L2 & P2); auto.
    + congruence.
    + exists w2. repeat split; auto; [congruence|apply P2|apply P2].
Qed.

Lemma normalize_weights_ok w :
  weights_ok w ->
  length (normalize_weights w) = length w /\
  weights_ok (normalize_weights w) /\ Qsum (normalize_weights w) == 1.
Proof.
  intros [Hn Hs]. unfold normalize_weights.
  assert (E : Qsum (map (fun x => Qred (x / Qsum w)) w) == 1).
  { rewrite Qsum_scale. field. lra. }
  split; [apply length_map|]. split; [split|exact E].
  - rewrite Forall_map. eapply Forall_impl; [exact Hn|].
    intros x Hx. cbv beta in *. rewrite Qred_correct.
    apply Qle_shift_div_l; lra.
  - rewrite E. reflexivity.
Qed.

(** With usable confidences and non-negative recorded errors the weights
    are computed without an exception, are usable, and sum to one. *)
Lemma calculate_expert_weights_ok self p ids c mask :
  hist_ok self ->
  length ids = length p -> length c = length p -> weights_ok c ->
  length mask = length p ->
  exists w, _calculate_expert_weights self p ids c mask = Ok w /\
            length w = length p /\ weights_ok w /\ Qsum w == 1.
Proof.
  intros Hh Hids Hc Hpos Hmask. unfold _calculate_expert_weights.
  destruct (confidence_weighting_ok (length p) c) as (w0 & E0 & L0 & P0);
    auto.
  rewrite E0. cbn [rbind].
  destruct (outlier_penalty_ok w0 mask) as [L1 P1]; [congruence|assumption|].
  destruct (historical_weighting_ok self ids Hh 0 (outlier_penalty w0 mask))
    as (w2 & E2 & L2 & P2); [simpl; lia|assumption|].
  rewrite E2. cbn [rbind].
  destruct (consensus_rounds_ok 3 p w2) as (w3 & E3 & L3 & P3); auto;
    [congruence|].
  rewrite E3. cbn [rbind].
  destruct (normalize_weights_ok w3) as (L4 & P4 & S4); auto.
  eexists; split; [reflexivity|]. repeat split; auto; [congruence|apply P4..].
Qed.

(** ** Bounds of the pooled mean *)

Lemma fold_left_Qmin_le t : forall a,
  fold_left Qmin t a <= a /\ Forall (fun y => fold_left Qmin t a <= y) t.
Proof.
  induction t as [|y t IH]; intros a; simpl.
  - split; [lra|constructor].
  - destruct (IH (Qmin a y)) as [H1 H2].
    pose proof (Q.le_min_l a y). pose proof (Q.le_min_r a y).
    split; [lra|]. constructor; [lra|exact H2].
Qed.

Lemma fold_left_Qmax_ge t : forall a,
  a <= fold_left Qmax t a /\ Forall (fun y => y <= fold_left Qmax t a) t.
Proof.
  induction t as [|y t IH]; intros a; simpl.
  - split; [lra|constructor].
  - destruct (IH (Qmax a y)) as [H1 H2].
    pose proof (Q.le_max_l a y). pose proof (Q.le_max_r a y).
    split; [lra|]. constructor; [lra|exact H2].
Qed.

Lemma np_min_max_bounds l :
  Forall (fun x => np_min l <= x <= np_max l) l.
Proof.
  destruct l as [|a t]; [constructor|]. unfold np_min, np_max.
  destruct (fold_left_Qmin_le t a) as [H1 H2].
  destruct (fold_left_Qmax_ge t a) as [H3 H4].
  constructor; [split; assumption|].
  rewrite Forall_forall in H2, H4. apply Forall_forall.
  intros x Hx. split; [apply H2|apply H4]; exact Hx.
Qed.

Lemma Qsum_alpha_updates (p w : list Q) :
  Qsum (zip_with (fun p w => p * w * 10) p w)
  == 10 * Qsum (zip_with Qmult p w).
Proof.
  revert w. induction p as [|a p IH]; intros [|b w]; simpl zip_with;
    try (vm_compute; reflexivity).
  rewrite !Qsum_cons, IH. ring.
Qed.

Lemma Qsum_beta_updates (p w : list Q) :
  length p = length w ->
  Qsum (zip_with (fun p w => (1 - p) * w * 10) p w)
  == 10 * (Qsum w - Qsum (zip_with Qmult p w)).
Proof.
  revert w. induction p as [|a p IH]; intros [|b w] Hlen; try discriminate;
    simpl zip_with.
  - vm_compute; reflexivity.
  - rewrite !Qsum_cons, IH by (simpl in Hlen; lia). ring.
Qed.

(** The Beta(1,1)-family prior pulls the weighted mean towards 50. *)
Lemma prior_pull_bounds lo hi ps S m :
  0 < ps -> lo / 100 <= S <= hi / 100 ->
  m == (ps + 10 * S) / (ps + 10 * S + (ps + 10 * (1 - S))) * 100 ->
  Qmin lo 50 <= m <= Qmax hi 50.
Proof.
  intros Hps [Hlo Hhi] ->.
  assert (HD : 0 < ps + 10 * S + (ps + 10 * (1 - S))) by lra.
  assert (Hlo' : lo <= 100 * S).
  { assert (E : lo == lo / 100 * 100) by field.
    set (t := lo / 100) in *. lra. }
  assert (Hhi' : 100 * S <= hi).
  { assert (E : hi == hi / 100 * 100) by field.
    set (t := hi / 100) in *. lra. }
  set (D := ps + 10 * S + (ps + 10 * (1 - S))) in *.
  assert (E : (ps + 10 * S) / D * 100 == (100 * ps + 1000 * S) / D).
  { unfold Qdiv. ring. }
  rewrite E. split.
  - apply Qle_shift_div_l; [exact HD|]. unfold D.
    destruct (Q.min_spec lo 50) as [[H1 ->]|[H1 ->]]; nra.
  - apply Qle_shift_div_r; [exact HD|]. unfold D.
    destruct (Q.max_spec hi 50) as [[H1 ->]|[H1 ->]]; nra.
Qed.

Section PooledMean.
Context {L : SciLib}.

Lemma pool_mean_formula self (p w : list Q) :
  length p = length w -> Qsum w == 1 ->
  let S := Qsum (zip_with Qmult p w) in
  let ps := prior_strength self in
  pool_mean (_bayesian_pool self p w)
  == (ps + 10 * S) / (ps + 10 * S + (ps + 10 * (1 - S))).
Proof.
  intros Hlen Hw S ps. unfold _bayesian_pool. cbn [pool_mean].
  rewrite Qred_correct, Qsum_alpha_updates, Qsum_beta_updates, Hw
    by exact Hlen.
  reflexivity.
Qed.

Lemma calculate_uncertainty_ok (p w : list Q) :
  weights_ok w -> exists u, _calculate_uncertainty p w = Ok u.
Proof.
  intros Hw. unfold _calculate_uncertainty.
  rewrite np_average_ok by assumption. cbn [rbind].
  rewrite np_average_ok by assumption. cbn [rbind]. eauto.
Qed.

(** A run that meets the preconditions returns, with these entries. *)
Lemma aggregate_forecasts_ok self forecasts ids conf :
  forecasts <> [] -> hist_ok self ->
  ids_ok (length forecasts) ids -> confidences_ok (length forecasts) conf ->
  exists w d self' lo hi u,
    length w = length forecasts /\ weights_ok w /\ Qsum w == 1 /\
    aggregate_forecasts self forecasts ids conf = Ok (d, self') /\
    d !! "aggregated_probability"%string
    = Some (VFloat (pool_mean (_bayesian_pool self
                                 (map (fun f => f / 100.0) forecasts) w)
                    * 100)) /\
    d !! "confidence_interval"%string = Some (VInterval lo hi) /\
    d !! "uncertainty"%string = Some (VFloat u).
Proof.
  intros Hne Hh Hids Hconf.
  set (p := map (fun f => f / 100.0) forecasts).
  set (ids' := match ids with
               | None => map expert_name (seq 0 (length forecasts))
               | Some i => i end).
  set (c' := match conf with
             | None => repeat 1 (length forecasts) | Some c => c end).
  assert (Hp : length p = length forecasts) by apply length_map.
  assert (Hpne : p <> []).
  { intros E. rewrite E in Hp. destruct forecasts; [congruence|discriminate]. }
  destruct (calculate_expert_weights_ok self p ids' c'
              (_detect_outliers self p)) as (w & Ew & Lw & Pw & Sw); auto.
  - rewrite Hp. subst ids'. destruct ids as [i|]; [exact Hids|].
    rewrite length_map, length_seq. reflexivity.
  - rewrite Hp. subst c'. destruct conf as [c|]; [apply Hconf|].
    apply repeat_length.
  - subst c'. destruct conf as [c|]; [apply Hconf|].
    split.
    + clear. induction (length forecasts); simpl; constructor;
        [discriminate|assumption].
    + rewrite Qsum_repeat_one. destruct forecasts; [congruence|].
      reflexivity.
  - apply length_detect_outliers.
  - destruct (calculate_uncertainty_ok p w Pw) as [u Eu].
    exists w. do 4 eexists. exists u.
    split; [congruence|]. split; [assumption|]. split; [assumption|].
    unfold aggregate_forecasts. destruct forecasts as [|f0 fs]; [congruence|].
    fold p ids' c'. rewrite Ew. cbn [rbind]. rewrite Eu. cbn [rbind].
    split; [reflexivity|].
    split; [apply lookup_insert_eq|].
    split.
    + rewrite lookup_insert_ne by discriminate. apply lookup_insert_eq.
    + rewrite !(lookup_insert_ne _ "aggregated_probability"%string),
        !(lookup_insert_ne _ "confidence_interval"%string) by discriminate.
      apply lookup_insert_eq.
Qed.

(** The pooled mean of a run that meets the preconditions. *)
Lemma aggregate_forecasts_mean self forecasts ids conf :
  forecasts <> [] -> hist_ok self ->
  ids_ok (length forecasts) ids -> confidences_ok (length forecasts) conf ->
  exists w,
    length w = length forecasts /\ weights_ok w /\ Qsum w == 1 /\
    aggregated_probability (aggregate_forecasts self forecasts ids conf)
    = Some (pool_mean (_bayesian_pool self
                         (map (fun f => f / 100.0) forecasts) w) * 100).
Proof.
  intros Hne Hh Hids Hconf.
  destruct (aggregate_forecasts_ok self forecasts ids conf)
    as (w & d & s & lo & hi & u & Lw & Pw & Sw & E & Hd & _); auto.
  exists w. split; [exact Lw|]. split; [exact Pw|]. split; [exact Sw|].
  unfold aggregated_probability. rewrite E, Hd. reflexivity.
Qed.
End PooledMean.

(** C1 (as amended).  For every non-empty list of forecasts in [0,100],
    a positive prior strength, non-negative recorded errors, and optional
    arguments of matching length with confidences that are not negative
    and not all zero,
    [aggregate_forecasts] returns, and its ["aggregated_probability"] lies
    between [min(min(forecasts), 50)] and [max(max(forecasts), 50)]: the
    prior pulls the weighted mean of the forecasts towards 50. *)
Theorem C1_posterior_mean_within_hull_with_50 :
  forall (L : SciLib) (self : BayesianAggregator) (forecasts : list Q)
         (expert_ids : option (list string)) (confidences : option (list Q)),
    forecasts <> [] ->
    Forall (fun f => 0 <= f <= 100) forecasts ->
    0 < prior_strength self ->
    hist_ok self ->
    ids_ok (length forecasts) expert_ids ->
    confidences_ok (length forecasts) confidences ->
    exists m,
      aggregated_probability
        (aggregate_forecasts self forecasts expert_ids confidences) = Some m
      /\ Qmin (np_min forecasts) 50 <= m <= Qmax (np_max forecasts) 50.
Proof.
  intros L self forecasts ids conf Hne _ Hps Hh Hids Hconf.
  destruct (aggregate_forecasts_mean self forecasts ids conf)
    as (w & Lw & Pw & Sw & E); auto.
  eexists; split; [exact E|].
  set (p := map (fun f => f / 100.0) forecasts) in *.
  assert (Hp : length p = length w) by (unfold p; rewrite length_map; congruence).
  apply (prior_pull_bounds _ _ (prior_strength self)
           (Qsum (zip_with Qmult p w))); [exact Hps| |].
  - destruct (weighted_sum_bounds (np_min forecasts / 100)
                (np_max forecasts / 100) p w) as [H1 H2];
      [exact Hp| |apply Pw|].
    + unfold p. rewrite Forall_map.
      eapply Forall_impl; [apply np_min_max_bounds|].
      intros x [Hx1 Hx2]. cbv beta.
      assert (E1 : x / 100.0 == x / 100) by field.
      rewrite E1. unfold Qdiv.
      split; apply Qmult_le_compat_r; try assumption; discriminate.
    + rewrite Sw in H1, H2. lra.
  - rewrite pool_mean_formula by assumption. reflexivity.
Qed.

Lemma C1_posterior_mean_within_hull_with_50_witness :
  exists m,
    aggregated_probability
      (aggregate_forecasts BayesianAggregator_init [30; 40; 35] None None)
    = Some m
    /\ Qmin (np_min [30; 40; 35]) 50 <= m <= Qmax (np_max [30; 40; 35]) 50.
Proof.
  apply (C1_posterior_mean_within_hull_with_50 rational_lib
           BayesianAggregator_init [30; 40; 35] None None).
  - discriminate.
  - repeat constructor; discriminate.
  - reflexivity.
  - intros id perf H. unfold BayesianAggregator_init in H.
    cbn [historical_performance] in H. rewrite lookup_empty in H.
    discriminate.
  - exact I.
  - exact I.
Defined.

(** C1 (as stated) fails: three sources that all forecast 10 give the
    posterior mean 50/3, above the largest forecast. *)
Lemma C1_counterexample :
  exists m,
    aggregated_probability
      (aggregate_forecasts BayesianAggregator_init [10; 10; 10] None None)
    = Some m
    /\ ~ (np_min [10; 10; 10] <= m <= np_max [10; 10; 10]).
Proof.
  eexists. split; [vm_compute; reflexivity|].
  intros [_ H]. vm_compute in H. apply H. reflexivity.
Qed.

(** ** Outlier detection and the outlier penalty *)

Lemma detect_outliers_small self (p : list Q) :
  (length p < 3)%nat -> _detect_outliers self p = repeat false (length p).
Proof.
  intros H. unfold _detect_outliers.
  rewrite (proj2 (Nat.ltb_lt _ _) H). reflexivity.
Qed.

Lemma outlier_penalty_lookup (w : list Q) (mask : list bool) (i : nat)
    (x : Q) (b : bool) :
  w !! i = Some x -> mask !! i = Some b ->
  outlier_penalty w mask !! i = Some (if b then x * 0.1 else x).
Proof.
  revert mask i. unfold outlier_penalty.
  induction w as [|y w IH]; intros [|c mask] [|i] Hw Hm; try discriminate.
  - cbn in Hw, Hm. injection Hw as ->. injection Hm as ->. reflexivity.
  - cbn in Hw, Hm. cbn [zip_with]. apply IH; assumption.
Qed.

(** C6 (as amended).  Fewer than three samples are never flagged.  For
    [10,12,11,13,90] exactly the sample 90 is flagged, its modified
    z-score being above 2.5, and nothing is flagged once 90 is replaced by
    12.  The outlier-penalty step multiplies the weight of a flagged sample
    by 0.1 and leaves the others alone (samples are on the 0-1 scale
    used inside [aggregate_forecasts]), so the weight of the fifth sample
    entering the consensus rounds is 0.1 times that of the comparison run;
    after the consensus rounds and the normalisation its final weight is
    below 0.1 times the final weight of the comparison run. *)
Theorem C6_outlier_flag_and_penalty :
  (forall self (p : list Q),
      (length p < 3)%nat -> Forall (fun b => b = false) (_detect_outliers self p))
  /\ (forall (w : list Q) (mask : list bool) (i : nat) (x : Q) (b : bool),
         w !! i = Some x -> mask !! i = Some b ->
         outlier_penalty w mask !! i = Some (if b then x * 0.1 else x))
  /\ (let self := BayesianAggregator_init in
      let p1 := map (fun f => f / 100.0) [10; 12; 11; 13; 90] in
      let p2 := map (fun f => f / 100.0) [10; 12; 11; 13; 12] in
      let ids := map expert_name (seq 0 5) in
      let median := np_median p1 in
      let mad := np_median (map (fun p => Qabs (p - median)) p1) in
      _detect_outliers self p1 = [false; false; false; false; true]
      /\ 2.5 < 0.6745 * (90 / 100.0 - median) / mad
      /\ _detect_outliers self p2 = [false; false; false; false; false]
      /\ (exists c x1 x2,
             confidence_weighting 5 (repeat 1 5) = Ok c
             /\ outlier_penalty c (_detect_outliers self p1) !! 4%nat = Some x1
             /\ outlier_penalty c (_detect_outliers self p2) !! 4%nat = Some x2
             /\ x1 == 0.1 * x2)
      /\ (exists w1 w2 y1 y2,
             _calculate_expert_weights self p1 ids (repeat 1 5)
                                       (_detect_outliers self p1) = Ok w1
             /\ _calculate_expert_weights self p2 ids (repeat 1 5)
                                          (_detect_outliers self p2) = Ok w2
             /\ w1 !! 4%nat = Some y1 /\ w2 !! 4%nat = Some y2
             /\ y1 < 0.1 * y2)).
Proof.
  split; [|split].
  - intros self p H. rewrite detect_outliers_small by exact H.
    clear. induction (length p); simpl; constructor; auto.
  - exact outlier_penalty_lookup.
  - cbv zeta. split; [|split; [|split; [|split]]].
    + vm_compute; reflexivity.
    + vm_compute; reflexivity.
    + vm_compute; reflexivity.
    + do 3 eexists. split; [|split; [|split]]; vm_compute; reflexivity.
    + do 4 eexists.
      split; [|split; [|split; [|split]]]; vm_compute; reflexivity.
Qed.

Lemma C6_outlier_flag_and_penalty_witness :
  Forall (fun b => b = false)
         (_detect_outliers BayesianAggregator_init [0.1; 0.9]).
Proof.
  apply (proj1 C6_outlier_flag_and_penalty BayesianAggregator_init [0.1; 0.9]).
  simpl. lia.
Defined.

(** C6 (as stated) fails in its last part: the final aggregation weight of
    the sample 90 is not 0.1 times the weight the fifth sample gets when
    90 is replaced by 12. *)
Lemma C6_counterexample :
  let self := BayesianAggregator_init in
  let p1 := map (fun f => f / 100.0) [10; 12; 11; 13; 90] in
  let p2 := map (fun f => f / 100.0) [10; 12; 11; 13; 12] in
  let ids := map expert_name (seq 0 5) in
  exists w1 w2 y1 y2,
    _calculate_expert_weights self p1 ids (repeat 1 5)
                              (_detect_outliers self p1) = Ok w1
    /\ _calculate_expert_weights self p2 ids (repeat 1 5)
                                 (_detect_outliers self p2) = Ok w2
    /\ w1 !! 4%nat = Some y1 /\ w2 !! 4%nat = Some y2
    /\ ~ y1 == 0.1 * y2.
Proof.
  cbv zeta. do 4 eexists.
  split; [|split; [|split; [|split]]]; [vm_compute; reflexivity ..|].
  intros H. vm_compute in H. discriminate H.
Qed.

(** ** Order statistics do not depend on the order of the samples *)

Lemma Qsum_Permutation (l l' : list Q) :
  Permutation l l' -> Qsum l == Qsum l'.
Proof.
  induction 1 as [|x l l' _ IH|x y l|l l' l'' _ IH1 _ IH2].
  - reflexivity.
  - rewrite !Qsum_cons, IH. reflexivity.
  - rewrite !Qsum_cons. ring.
  - rewrite IH1. exact IH2.
Qed.

Lemma Qsum_map_ext (f g : Q -> Q) (l : list Q) :
  (forall x, f x == g x) -> Qsum (map f l) == Qsum (map g l).
Proof.
  intros H. induction l as [|x l IH]; [reflexivity|].
  cbn [map]. rewrite !Qsum_cons, IH, H. reflexivity.
Qed.

Lemma Qlen_Permutation {A} (l l' : list A) :
  Permutation l l' -> Qlen l = Qlen l'.
Proof. intros H. unfold Qlen. rewrite (Permutation_length H). reflexivity. Qed.

Lemma np_mean_Permutation (l l' : list Q) :
  Permutation l l' -> np_mean l == np_mean l'.
Proof.
  intros H. unfold np_mean.
  rewrite !Qred_correct, (Qsum_Permutation _ _ H), (Qlen_Permutation _ _ H).
  reflexivity.
Qed.

Lemma np_var_Permutation (l l' : list Q) :
  Permutation l l' -> np_var l == np_var l'.
Proof.
  intros H. unfold np_var.
  pose proof (np_mean_Permutation _ _ H) as Hm.
  set (m := np_mean l) in *. set (m' := np_mean l') in *.
  unfold np_mean. rewrite !Qred_correct.
  unfold Qlen. rewrite !length_map, (Permutation_length H).
  apply Qmult_comp; [|reflexivity].
  rewrite (Qsum_Permutation _ _ (Permutation_map _ H)).
  apply Qsum_map_ext. intros x. rewrite Hm. reflexivity.
Qed.

Lemma Forall2_Qeq_refl (l : list Q) : Forall2 Qeq l l.
Proof. induction l; constructor; [reflexivity|assumption]. Qed.

Lemma Forall2_Qeq_trans (l1 l2 l3 : list Q) :
  Forall2 Qeq l1 l2 -> Forall2 Qeq l2 l3 -> Forall2 Qeq l1 l3.
Proof.
  intros H. revert l3. induction H as [|x y l1 l2 Hxy H IH]; intros l3 H3.
  - exact H3.
  - inversion H3 as [|? z ? l3' Hyz H3']; subst.
    constructor; [rewrite Hxy; exact Hyz|apply IH; exact H3'].
Qed.

Lemma Qle_bool_false x y : Qle_bool x y = false -> y < x.
Proof.
  intros H. apply Qnot_le_lt. intros Hle.
  apply Qle_bool_iff in Hle. congruence.
Qed.

Ltac Qle_cases :=
  repeat match goal with
         | |- context [Qle_bool ?a ?b] =>
             let E := fresh "E" in
             destruct (Qle_bool a b) eqn:E;
             [apply Qle_bool_iff in E | apply Qle_bool_false in E]
         end.

Lemma insert_sorted_Forall2 x y (s s' : list Q) :
  x == y -> Forall2 Qeq s s' ->
  Forall2 Qeq (insert_sorted x s) (insert_sorted y s').
Proof.
  intros Hxy H. induction H as [|a b s s' Hab H IH]; cbn [insert_sorted].
  - constructor; [exact Hxy|constructor].
  - rewrite (Qleb_comp _ _ Hxy _ _ Hab).
    destruct (Qle_bool y b).
    + constructor; [exact Hxy|]. constructor; assumption.
    + constructor; assumption.
Qed.

Lemma insert_sorted_comm x y (s : list Q) :
  Forall2 Qeq (insert_sorted x (insert_sorted y s))
              (insert_sorted y (insert_sorted x s)).
Proof.
  induction s as [|z s IH]; cbn [insert_sorted].
  - Qle_cases; cbn [insert_sorted]; Qle_cases;
      try (exfalso; lra);
      repeat (constructor; try lra); apply Forall2_Qeq_refl.
  - Qle_cases; cbn [insert_sorted]; Qle_cases;
      try (exfalso; lra);
      repeat (constructor; try reflexivity; try lra);
      try apply Forall2_Qeq_refl; try exact IH.
Qed.

Lemma np_sort_Permutation (l l' : list Q) :
  Permutation l l' -> Forall2 Qeq (np_sort l) (np_sort l').
Proof.
  induction 1 as [|x l l' _ IH|x y l|l l' l'' _ IH1 _ IH2];
    cbn [np_sort fold_right].
  - constructor.
  - apply insert_sorted_Forall2; [reflexivity|exact IH].
  - apply insert_sorted_comm.
  - eapply Forall2_Qeq_trans; eassumption.
Qed.

Lemma Forall2_Qeq_nth (l l' : list Q) (i : nat) :
  Forall2 Qeq l l' -> nth i l 0 == nth i l' 0.
Proof.
  intros H. revert i. induction H as [|x y l l' Hxy H IH]; intros [|i];
    cbn [nth]; try reflexivity; [exact Hxy|apply IH].
Qed.

Lemma np_percentile_Permutation (l l' : list Q) q :
  Permutation l l' -> np_percentile l q == np_percentile l' q.
Proof.
  intros H. pose proof (np_sort_Permutation _ _ H) as Hs.
  unfold np_percentile. rewrite (Forall2_length _ _ _ Hs).
  rewrite !(Forall2_Qeq_nth _ _ _ Hs). reflexivity.
Qed.

Lemma fold_left_Qmax_attained t : forall a,
  Exists (fun y => y == fold_left Qmax t a) (a :: t).
Proof.
  induction t as [|y t IH]; intros a; cbn [fold_left].
  - left. reflexivity.
  - specialize (IH (Qmax a y)). inversion IH as [? ? H|? ? H]; subst; cbv beta in H.
    + destruct (Q.max_spec a y) as [[_ E]|[_ E]].
      * right. left. transitivity (Qmax a y); [symmetry; exact E|exact H].
      * left. transitivity (Qmax a y); [symmetry; exact E|exact H].
    + right. right. exact H.
Qed.

Lemma fold_left_Qmin_attained t : forall a,
  Exists (fun y => y == fold_left Qmin t a) (a :: t).
Proof.
  induction t as [|y t IH]; intros a; cbn [fold_left].
  - left. reflexivity.
  - specialize (IH (Qmin a y)). inversion IH as [? ? H|? ? H]; subst; cbv beta in H.
    + destruct (Q.min_spec a y) as [[_ E]|[_ E]].
      * left. transitivity (Qmin a y); [symmetry; exact E|exact H].
      * right. left. transitivity (Qmin a y); [symmetry; exact E|exact H].
    + right. right. exact H.
Qed.

Lemma np_max_attained (l : list Q) :
  l <> [] -> Exists (fun y => y == np_max l) l.
Proof.
  destruct l as [|a t]; [congruence|]. intros _.
  apply fold_left_Qmax_attained.
Qed.

Lemma np_min_attained (l : list Q) :
  l <> [] -> Exists (fun y => y == np_min l) l.
Proof.
  destruct l as [|a t]; [congruence|]. intros _.
  apply fold_left_Qmin_attained.
Qed.

Lemma np_max_Permutation (l l' : list Q) :
  Permutation l l' -> np_max l == np_max l'.
Proof.
  intros H. destruct l as [|a t].
  - apply Permutation_nil in H. subst. reflexivity.
  - assert (Hl : a :: t <> []) by discriminate.
    assert (Hl' : l' <> []).
    { intros ->. symmetry in H. apply Permutation_nil in H. discriminate. }
    pose proof (np_min_max_bounds (a :: t)) as B.
    pose proof (np_min_max_bounds l') as B'.
    pose proof (np_max_attained _ Hl) as A.
    pose proof (np_max_attained _ Hl') as A'.
    rewrite H in A. rewrite <- H in A'.
    rewrite Forall_forall in B, B'.
    apply Exists_exists in A as (y & Hy & Ey).
    apply Exists_exists in A' as (y' & Hy' & Ey').
    apply Qle_antisym.
    + rewrite <- Ey. apply B'. exact Hy.
    + rewrite <- Ey'. apply B. exact Hy'.
Qed.

Lemma np_min_Permutation (l l' : list Q) :
  Permutation l l' -> np_min l == np_min l'.
Proof.
  intros H. destruct l as [|a t].
  - apply Permutation_nil in H. subst. reflexivity.
  - assert (Hl : a :: t <> []) by discriminate.
    assert (Hl' : l' <> []).
    { intros ->. symmetry in H. apply Permutation_nil in H. discriminate. }
    pose proof (np_min_max_bounds (a :: t)) as B.
    pose proof (np_min_max_bounds l') as B'.
    pose proof (np_min_attained _ Hl) as A.
    pose proof (np_min_attained _ Hl') as A'.
    rewrite H in A. rewrite <- H in A'.
    rewrite Forall_forall in B, B'.
    apply Exists_exists in A as (y & Hy & Ey).
    apply Exists_exists in A' as (y' & Hy' & Ey').
    apply Qle_antisym.
    + rewrite <- Ey'. apply B. exact Hy'.
    + rewrite <- Ey. apply B'. exact Hy.
Qed.

Lemma np_histogram10_Permutation (l l' : list Q) :
  Permutation l l' -> np_histogram10 l = np_histogram10 l'.
Proof.
  intros H. unfold np_histogram10. apply map_ext. intros i.
  apply Qlen_Permutation.
  clear -H. induction H; cbn [List.filter].
  - constructor.
  - destruct (in_bin i x); [constructor|]; assumption.
  - destruct (in_bin i x), (in_bin i y); try reflexivity. constructor.
  - etransitivity; eassumption.
Qed.

Lemma Qltb_comp a x y : x == y -> Qltb a x = Qltb a y.
Proof. intros H. unfold Qltb. rewrite (Qleb_comp _ _ H a a); reflexivity. Qed.

Lemma np_clip_comp x y lo hi : x == y -> np_clip x lo hi == np_clip y lo hi.
Proof. intros H. unfold np_clip. rewrite H. reflexivity. Qed.

Section ConsistencyFacts.
Context {L : SciLib}.

Lemma np_std_Permutation (l l' : list Q) :
  Permutation l l' -> np_std l == np_std l'.
Proof. intros H. apply np_sqrt_wd, np_var_Permutation, H. Qed.

Lemma calculate_consistency_Permutation self (l l' : list Q) :
  Permutation l l' ->
  calculate_consistency self l == calculate_consistency self l'.
Proof.
  intros H. unfold calculate_consistency.
  rewrite (Permutation_length H).
  destruct (length l' <? 2)%nat; [reflexivity|].
  apply np_clip_comp.
  pose proof (np_std_Permutation _ _ H) as Hstd.
  pose proof (np_mean_Permutation _ _ H) as Hmean.
  destruct (String.eqb (scorer_method self) "direct").
  { rewrite (Qltb_comp 0 _ _ Hmean).
    rewrite (Qeqb_comp _ _ Hstd 0 0) by reflexivity.
    destruct (Qltb 0 (np_mean l')); [|reflexivity].
    rewrite Hstd, Hmean. reflexivity. }
  destruct (String.eqb (scorer_method self) "indirect").
  { rewrite (np_histogram10_Permutation _ _ H). reflexivity. }
  destruct (String.eqb (scorer_method self) "ensemble").
  { rewrite Hstd, (np_max_Permutation _ _ H), (np_min_Permutation _ _ H),
      (np_percentile_Permutation _ _ 75 H),
      (np_percentile_Permutation _ _ 25 H).
    reflexivity. }
  rewrite Hstd. reflexivity.
Qed.
End ConsistencyFacts.



(** ** The fallback of the consistency-weighted aggregate *)

(** C9 (as amended).  When the consistency-squared weights sum to zero
    (the total weight is not positive), [calculate_weighted_aggregate]
    returns the unweighted mean of all individual samples across all
    sources if there is at least one sample, and 50.0 if there is none. *)
Theorem C9_zero_weight_fallback :
  forall (L : SciLib) (self : ConsistencyScorer)
         (model_predictions : list (string * list Q)),
    (weighted_totals self model_predictions).2 == 0 ->
    calculate_weighted_aggregate self model_predictions
    = match all_preds model_predictions with
      | [] => 50.0
      | samples => np_mean samples
      end.
Proof.
  intros L self mp H. unfold calculate_weighted_aggregate.
  destruct (weighted_totals self mp) as [ws tw]. cbn [snd] in H.
  destruct (Qltb 0 tw) eqn:E; [|reflexivity].
  apply Qltb_lt in E. lra.
Qed.

Lemma C9_zero_weight_fallback_witness :
  calculate_weighted_aggregate (ConsistencyScorer_init "ensemble")
                               [("A"%string, [0; 1000]); ("B"%string, [])]
  = match all_preds [("A"%string, [0; 1000]); ("B"%string, [])] with
    | [] => 50.0
    | samples => np_mean samples
    end.
Proof.
  apply (C9_zero_weight_fallback rational_lib
           (ConsistencyScorer_init "ensemble")
           [("A"%string, [0; 1000]); ("B"%string, [])]).
  vm_compute. reflexivity.
Defined.

(** C9 (as stated) fails when no source has a sample: the weights sum to
    zero, there is no mean of the samples, and the helper returns 50.0. *)
Lemma C9_counterexample :
  let self := ConsistencyScorer_init "ensemble" in
  let model_predictions := [("A"%string, []); ("B"%string, [])] in
  (weighted_totals self model_predictions).2 == 0
  /\ calculate_weighted_aggregate self model_predictions = 50.0
  /\ ~ (exists m, mean_of_samples (all_preds model_predictions) = Some m
                  /\ calculate_weighted_aggregate self model_predictions == m).
Proof.
  cbv zeta. split; [vm_compute; reflexivity|].
  split; [vm_compute; reflexivity|].
  intros (m & H & _). vm_compute in H. discriminate H.
Qed.

(** ** Temperature scaling at temperature one *)

Lemma np_clip_id x lo hi : lo <= x <= hi -> np_clip x lo hi == x.
Proof.
  intros [H1 H2]. unfold np_clip.
  rewrite (Q.max_l x lo) by exact H1. apply Q.min_l. exact H2.
Qed.

Lemma np_clip_range x lo hi : lo <= hi -> lo <= np_clip x lo hi <= hi.
Proof.
  intros H. unfold np_clip. split.
  - apply Q.min_glb; [apply Q.le_max_r|exact H].
  - apply Q.le_min_r.
Qed.

Section CalibrationFacts.
Context {L : SciLib}.

Lemma calibrate_temperature_one self (p : Q) :
  calibrator_method self = "temperature"%string ->
  temperature self == 1.0 ->
  calibrate self p == (if is_fitted self then np_clip p 0 100 else p).
Proof.
  intros Hm HT. unfold calibrate. cbv zeta. rewrite Hm.
  change (String.eqb "temperature" "temperature") with true. cbv iota.
  destruct (is_fitted self); cbn [negb]; [|reflexivity].
  rewrite (proj2 (Qeq_bool_iff _ _) HT).
  apply np_clip_comp. field.
Qed.

Lemma calibrate_batch_fitted self (batch : list Q) :
  is_fitted self = true ->
  calibrate_batch self batch = Ok (map (calibrate self) batch, self).
Proof. intros H. unfold calibrate_batch. rewrite H. reflexivity. Qed.
End CalibrationFacts.



(** ** The recommended estimate *)

Lemma length_valid_responses_of (responses : list ModelResponse) :
  length (valid_responses_of responses)
  = length (omap valid_probability responses).
Proof.
  unfold valid_responses_of.
  induction responses as [|r rs IH]; [reflexivity|].
  cbn [List.filter].
  change (omap valid_probability (r :: rs))
    with (match valid_probability r with
          | Some y => y :: omap valid_probability rs
          | None => omap valid_probability rs
          end).
  destruct (valid_probability r); cbn [length]; rewrite IH; reflexivity.
Qed.

Section AggregatorFacts.
Context {L : SciLib}.

Lemma fit_unsupervised_temperature_ok self (probabilities : list Q) :
  calibrator_method self = "temperature"%string ->
  exists T, _fit_unsupervised self probabilities
            = Ok (with_temperature self T).
Proof.
  intros Hm. unfold _fit_unsupervised. rewrite Hm.
  change (String.eqb "temperature" "temperature") with true. cbv iota.
  destruct (map np_var _); eauto.
Qed.

Lemma calibrate_batch_temperature_ok self (probabilities : list Q) :
  calibrator_method self = "temperature"%string ->
  exists out self', calibrate_batch self probabilities = Ok (out, self').
Proof.
  intros Hm. unfold calibrate_batch.
  destruct (is_fitted self); cbn [negb]; [eauto|].
  unfold fit. destruct (fit_unsupervised_temperature_ok self probabilities Hm)
    as [T ->].
  cbn [rbind]. eauto.
Qed.

(** The selection made by [_get_recommended_estimate] on a dictionary
    that holds the three candidate estimates. *)
Lemma get_recommended_estimate_spec results consistency_result
    (cw ba em bu : Q) :
  results !! "consistency_weighted"%string = Some (VFloat cw) ->
  results !! "bayesian_aggregated"%string = Some (VFloat ba) ->
  results !! "ensemble_of_methods"%string = Some (VFloat em) ->
  results !! "bayesian_uncertainty"%string = Some (VFloat bu) ->
  _get_recommended_estimate results consistency_result
  = Ok (VFloat (if Qltb 0.8 (ensemble_consistency consistency_result) then cw
                else if Qltb 0.5 bu then ba else em)).
Proof.
  intros H1 H2 H3 H4. unfold _get_recommended_estimate, dict_item.
  rewrite H1, H2, H3, H4. cbn [default from_option id as_float rbind].
  destruct (Qltb 0.8 _); [reflexivity|].
  destruct (Qltb 0.5 bu); reflexivity.
Qed.
End AggregatorFacts.




(** ** The probability extractor and the reply invariant *)

(** C2 (code defect).  The loop over [percentage_patterns] returns the
    last match without the bound check that the other rules make: on
    the texts ["The chance is 150% for sure"] and ["150%"] the extractor
    returns 150, and on ["estimate: 150-250%"] the range rule returns
    the midpoint 200. *)
Theorem C2_extractor_returns_out_of_range :
  _extract_probability "The chance is 150% for sure" "openai/gpt-4"
  = Some 150
  /\ _extract_probability "150%" "" = Some 150
  /\ in_bounds 150 = false
  /\ (exists v, _extract_probability "estimate: 150-250%" "" = Some v
                /\ v == 200 /\ in_bounds v = false).
Proof.
  split; [vm_compute; reflexivity|].
  split; [vm_compute; reflexivity|].
  split; [vm_compute; reflexivity|].
  eexists. split; [vm_compute; reflexivity|].
  split; vm_compute; reflexivity.
Qed.

Lemma validate_probability_bounds (probability : option Q) (p : Q) :
  validate_probability probability = Some p -> 0 <= p <= 100.
Proof.
  unfold validate_probability. destruct probability as [q|]; [|discriminate].
  destruct (Qltb q 0) eqn:E1; [discriminate|].
  destruct (Qltb 100 q) eqn:E2; [discriminate|].
  cbn [orb]. intros [= <-].
  unfold Qltb in E1, E2. apply negb_false_iff in E1, E2.
  apply Qle_bool_iff in E1, E2. split; assumption.
Qed.

Lemma error_reply_ok model t e msg st :
  st <> success -> reply_ok (error_reply model t e msg st).
Proof.
  intros H. split; cbn [error_reply reply_status reply_probability].
  - intros E. congruence.
  - discriminate.
Qed.

Lemma classify_error_not_success s : classify_error s <> success.
Proof.
  unfold classify_error.
  repeat match goal with |- context [if ?b then _ else _] => destruct b end;
    discriminate.
Qed.

Lemma cache_get_ok self c model prompt r :
  cache_ok self -> cache self = Some c ->
  cache_get c (now self) model prompt = Some r -> reply_ok r.
Proof.
  intros Hc Ec. unfold cache_get.
  destruct (c !! cache_key model prompt) as [e|] eqn:E; [|discriminate].
  destruct (Qltb _ _); [|discriminate]. intros [= <-].
  eapply Hc; eassumption.
Qed.

Lemma cache_ok_tick self elapsed c :
  (forall key e, c !! key = Some e -> reply_ok (entry_response e)) ->
  cache_ok (tick self elapsed (Some c)).
Proof.
  intros H c' key e. cbn [tick cache]. intros [= <-]. apply H.
Qed.

Lemma cache_ok_tick_same self elapsed :
  cache_ok self -> cache_ok (tick self elapsed (cache self)).
Proof. intros H c key e. cbn [tick cache]. apply H. Qed.

Lemma string_length_nonempty (text : string) :
  (String.length text <? 10)%nat = false -> text <> EmptyString.
Proof. intros H ->. discriminate H. Qed.

(** C7.  Every reply that [query_model] produces, from the cache or from
    the service, satisfies the data-model invariant, and so does every
    response it stores: a reply with status success has a non-empty
    text, and a probability that is not [None] lies in [0,100].  When
    the service answers with a text of at least ten characters (and the
    cache does not answer first), the probability of the reply is the
    extracted value if that is within [0,100] and [None] otherwise. *)
Theorem C7_reply_invariant :
  forall (transport : nat -> Request -> Outcome) (self : OpenRouterClient)
         (model prompt : string) (temperature : Q) (max_tokens : Z)
         (enable_web_search force_refresh : bool),
    cache_ok self ->
    let '(reply, self') :=
      query_model transport self model prompt temperature max_tokens
                  enable_web_search force_refresh in
    reply_ok reply
    /\ cache_ok self'
    /\ (reply_source reply = Some "api"%string ->
        forall text, reply_content reply = Some text ->
        (10 <= String.length text)%nat ->
        reply_probability reply
        = match _extract_probability text model with
          | Some v => if in_bounds v then Some v else None
          | None => None
          end).
Proof.
  intros transport self model prompt temperature max_tokens web force Hc.
  unfold query_model.
  destruct (match cache self with
            | Some c => if negb force
                        then cache_get c (now self) model prompt else None
            | None => None
            end) as [cached|] eqn:Ecached.
  - (* answered by the cache *)
    assert (Hr : reply_ok cached).
    { destruct (cache self) as [c|] eqn:Ec; [|discriminate].
      destruct (negb force); [|discriminate].
      eapply cache_get_ok; eauto. }
    split; [exact Hr|]. split; [exact Hc|].
    cbn [with_source reply_source]. intros [=].
  - cbv zeta.
    destruct (transport (requests_sent self) _) as [resp el|el|msg el].
    + destruct (match choices resp with
                | Some c => c | None => Some EmptyString end)
        as [text|] eqn:Econtent.
      * destruct (String.length text <? 10)%nat eqn:Elen.
        -- split; [|split].
           ++ split; cbn; [discriminate|discriminate].
           ++ apply cache_ok_tick_same, Hc.
           ++ cbn [reply_content]. intros _ t [= <-] Ht.
              apply Nat.ltb_lt in Elen. lia.
        -- split; [|split].
           ++ split; cbn [reply_status reply_content reply_probability].
              ** intros _. exists text. split; [reflexivity|].
                 apply string_length_nonempty, Elen.
              ** apply validate_probability_bounds.
           ++ destruct (cache self) as [c|] eqn:Ec.
              ** destruct (existsb _ rejection_patterns).
                 --- apply cache_ok_tick. intros key e. eapply Hc; eauto.
                 --- apply cache_ok_tick. intros key e. unfold cache_set.
                     destruct (decide (cache_key model prompt = key)) as [->|Hne].
                     +++ rewrite lookup_insert_eq. intros [= <-].
                         cbn [entry_response]. split;
                           cbn [reply_status reply_content reply_probability].
                         *** intros _. exists text. split; [reflexivity|].
                             apply string_length_nonempty, Elen.
                         *** apply validate_probability_bounds.
                     +++ rewrite lookup_insert_ne by exact Hne.
                         eapply Hc; eauto.
              ** intros c key e. cbn [tick cache]. discriminate.
           ++ cbn [reply_content reply_probability].
              intros _ t [= <-] _. unfold validate_probability, in_bounds.
              destruct (_extract_probability text model) as [v|]; [|reflexivity].
              unfold Qltb. destruct (Qle_bool 0 v), (Qle_bool v 100);
                reflexivity.
      * split; [|split].
        -- split; cbn; [discriminate|discriminate].
        -- apply cache_ok_tick_same, Hc.
        -- cbn [reply_content]. discriminate.
    + split; [|split].
      * apply error_reply_ok. discriminate.
      * apply cache_ok_tick_same, Hc.
      * cbn. discriminate.
    + split; [|split].
      * apply error_reply_ok, classify_error_not_success.
      * apply cache_ok_tick_same, Hc.
      * cbn. discriminate.
Qed.

Lemma C7_reply_invariant_witness :
  cache_ok (OpenRouterClient_init true 0)
  /\ reply_ok (query_model overconfident_service (OpenRouterClient_init true 0)
                           "openai/gpt-4" "Will it rain tomorrow?" 0.7 1000
                           false false).1.
Proof.
  assert (Hc : cache_ok (OpenRouterClient_init true 0)).
  { intros c key e [= <-] H. rewrite lookup_empty in H. discriminate. }
  split; [exact Hc|].
  pose proof (C7_reply_invariant overconfident_service _ "openai/gpt-4"
                "Will it rain tomorrow?" 0.7 1000 false false Hc) as H.
  destruct (query_model _ _ _ _ _ _ _ _) as [reply self'].
  exact (proj1 H).
Defined.

(** The extractor yields 150 on this service's text; the reply carries
    no probability. *)
Example query_model_resets_out_of_range :
  reply_probability
    (query_model overconfident_service (OpenRouterClient_init true 0)
                 "openai/gpt-4" "Will it rain tomorrow?" 0.7 1000
                 false false).1 = None.
Proof. vm_compute. reflexivity. Qed.

(** ** The orchestrator under a failing client *)

Lemma completed_update_same (progress : list Task) (id n : nat) :
  (id < length progress)%nat ->
  completed (progress_update progress id n) id = (completed progress id + n)%nat.
Proof.
  intros H. unfold completed, progress_update.
  destruct (lookup_lt_is_Some_2 progress id H) as [t Ht]. rewrite Ht.
  rewrite list_lookup_insert_eq by exact H. reflexivity.
Qed.

Lemma completed_update_other (progress : list Task) (id id' n : nat) :
  id <> id' ->
  completed (progress_update progress id n) id' = completed progress id'.
Proof.
  intros H. unfold completed, progress_update.
  destruct (progress !! id) as [t|]; [|reflexivity].
  rewrite list_lookup_insert_ne by exact H. reflexivity.
Qed.

Lemma length_progress_update (progress : list Task) (id n : nat) :
  length (progress_update progress id n) = length progress.
Proof.
  unfold progress_update. destruct (progress !! id); [|reflexivity].
  apply length_insert.
Qed.

Lemma completed_add_task (progress : list Task) d total (id : nat) :
  (id < length progress)%nat ->
  completed (add_task progress d total).2 id = completed progress id.
Proof.
  intros H. unfold completed, add_task. cbn [snd].
  rewrite lookup_app_l by exact H. reflexivity.
Qed.

Section OrchestratorFacts.
Context {L : SciLib}.
Variable ClientState : Type.
Variable client_query :
  ClientState -> string -> string -> bool -> option Z ->
  result Reply * ClientState.
Variable clock : ClientState -> Q.
Variable make_prompt :
  bool -> string -> string -> option string -> option string -> string.
Variable mock_sample : nat -> Q * Q.
Variable inv : ClientState -> Prop.
Hypothesis Hfail : always_fails inv client_query.

Lemma limited_query_failed model prompt task_id i st progress :
  inv st ->
  let '(r, st', progress') :=
    limited_query ClientState client_query model prompt task_id i st progress
  in
  failed r /\ inv st'
  /\ length progress' = length progress
  /\ forall id, id <> task_id -> completed progress' id = completed progress id.
Proof.
  intros Hst. unfold limited_query.
  destruct (Hfail st model prompt true None Hst) as [H1 H2].
  destruct (client_query st model prompt true None) as [[r1|e1] st1];
    cbn [fst snd] in H1, H2.
  - assert (Er : bool_decide (reply_status r1 = empty_response) = false).
    { apply bool_decide_eq_false. intros E. cbn in H1. rewrite E in H1.
      discriminate. }
    rewrite Er. cbn [andb].
    split; [exact H1|]. split; [exact H2|].
    split; [apply length_progress_update|].
    intros id Hid. apply completed_update_other. congruence.
  - split; [exact I|]. split; [exact H2|]. split; reflexivity.
Qed.

Lemma run_iterations_failed model prompt task_id iterations st progress :
  inv st ->
  let '(results, st', progress') :=
    run_iterations ClientState client_query model prompt task_id iterations
                   st progress in
  length results = iterations
  /\ Forall failed results /\ inv st'
  /\ length progress' = length progress
  /\ forall id, id <> task_id -> completed progress' id = completed progress id.
Proof.
  intros Hst. unfold run_iterations.
  assert (G : forall (l : list nat) acc st0 p0,
             inv st0 ->
             let '(results, st', progress') :=
               fold_left
                 (fun '(results, st, progress) i =>
                    let '(result, st', progress') :=
                      limited_query ClientState client_query model prompt
                                    task_id i st progress in
                    (results ++ [result], st', progress'))
                 l (acc, st0, p0) in
             length results = (length acc + length l)%nat
             /\ (Forall failed acc -> Forall failed results) /\ inv st'
             /\ length progress' = length p0
             /\ forall id, id <> task_id ->
                           completed progress' id = completed p0 id).
  { induction l as [|i l IH]; intros acc st0 p0 Hst0; cbn [fold_left].
    - split; [cbn; lia|]. split; [auto|]. split; [exact Hst0|].
      split; reflexivity.
    - pose proof (limited_query_failed model prompt task_id i st0 p0 Hst0)
        as Hq.
      destruct (limited_query ClientState client_query model prompt task_id
                              i st0 p0) as [[r st1] p1].
      destruct Hq as (Hr & Hst1 & Hl & Hc).
      specialize (IH (acc ++ [r]) st1 p1 Hst1).
      destruct (fold_left _ l (acc ++ [r], st1, p1)) as [[results st2] p2].
      destruct IH as (I1 & I2 & I5 & I3 & I4).
      split; [rewrite I1, length_app; cbn; lia|].
      split.
      + intros Hacc. apply I2. apply Forall_app. split; [exact Hacc|].
        constructor; [exact Hr|constructor].
      + split; [exact I5|]. split; [congruence|].
        intros id Hid. rewrite I4, Hc by exact Hid. reflexivity. }
  specialize (G (seq 0 iterations) [] st progress Hst).
  destruct (fold_left _ (seq 0 iterations) ([], st, progress))
    as [[results st'] progress'].
  destruct G as (G1 & G2 & G5 & G3 & G4).
  rewrite length_seq in G1. split; [exact G1|].
  split; [apply G2; constructor|]. split; [exact G5|].
  split; [exact G3|exact G4].
Qed.

Lemma to_valid_results_failed model t (results : list (result Reply)) :
  Forall failed results ->
  length (to_valid_results model t results) = length results
  /\ Forall (fun r => error_family (reply_status r) = true)
            (to_valid_results model t results).
Proof.
  intros H. unfold to_valid_results. split; [apply length_imap|].
  apply Forall_forall. intros r Hr.
  apply elem_of_lookup_imap_1 in Hr as (i & x & -> & Hx).
  destruct x as [reply|e]; [|reflexivity].
  rewrite Forall_forall in H. apply (H (Ok reply)).
  eapply list_elem_of_lookup_2. exact Hx.
Qed.

(** One source: exactly [iterations] replies of the error family. *)
Lemma run_model_batch_failed self model prompt iterations task_id st progress :
  dry_run self = false -> inv st ->
  let '(replies, st', progress') :=
    _run_model_batch ClientState client_query clock mock_sample self model
                     prompt iterations task_id st progress in
  length replies = iterations
  /\ Forall (fun r => error_family (reply_status r) = true) replies
  /\ inv st'
  /\ length progress' = length progress
  /\ forall id, id <> task_id -> completed progress' id = completed progress id.
Proof.
  intros Hdry Hst. unfold _run_model_batch. rewrite Hdry.
  pose proof (run_iterations_failed model prompt task_id iterations st progress
                Hst) as H.
  destruct (run_iterations ClientState client_query model prompt task_id
                           iterations st progress) as [[results st'] p'].
  destruct H as (H1 & H2 & H5 & H3 & H4).
  destruct (to_valid_results_failed model (clock st') results H2) as [V1 V2].
  split; [congruence|]. split; [exact V2|]. split; [exact H5|].
  split; [exact H3|exact H4].
Qed.

Lemma run_models_failed self prompt (models : list string) iterations st
    progress :
  dry_run self = false -> inv st -> (0 < length progress)%nat ->
  let '(replies, _, progress') :=
    run_models ClientState client_query clock mock_sample self prompt models
               iterations 0 st progress in
  length replies = (length models * iterations)%nat
  /\ Forall (fun r => error_family (reply_status r) = true) replies
  /\ completed progress' 0
     = (completed progress 0 + length models * iterations)%nat.
Proof.
  intros Hdry. unfold run_models.
  assert (G : forall (ms : list string) acc st0 p0,
             inv st0 -> (0 < length p0)%nat ->
             let '(replies, _, progress') :=
               fold_left
                 (fun '(all_results, st, progress) model =>
                    let '(model_task, progress) :=
                      add_task progress model iterations in
                    let '(model_results, st, progress) :=
                      _run_model_batch ClientState client_query clock
                        mock_sample self model prompt iterations model_task
                        st progress in
                    let progress := progress_update progress 0 iterations in
                    let model_results :=
                      map (fun r =>
                             with_ensemble_id r
                               (ensemble_id_of model
                                  (default 0%nat (reply_iteration r))))
                          model_results in
                    (all_results ++ model_results, st, progress))
                 ms (acc, st0, p0) in
             length replies = (length acc + length ms * iterations)%nat
             /\ (Forall (fun r => error_family (reply_status r) = true) acc ->
                 Forall (fun r => error_family (reply_status r) = true) replies)
             /\ completed progress' 0
                = (completed p0 0 + length ms * iterations)%nat).
  { induction ms as [|m ms IH]; intros acc st0 p0 Hst0 Hp0; cbn [fold_left].
    - split; [cbn; lia|]. split; [auto|]. cbn. lia.
    - pose proof (completed_add_task p0 m iterations 0 Hp0) as Hadd.
      unfold add_task in *. cbn [snd] in Hadd.
      set (p1 := p0 ++ [_]) in *.
      pose proof (run_model_batch_failed self m prompt iterations (length p0)
                    st0 p1 Hdry Hst0) as Hb.
      destruct (_run_model_batch ClientState client_query clock mock_sample
                  self m prompt iterations (length p0) st0 p1)
        as [[rs st1] p2].
      destruct Hb as (B1 & B2 & B5 & B3 & B4).
      assert (Hp1 : (0 < length p1)%nat).
      { unfold p1. rewrite length_app. lia. }
      set (p3 := progress_update p2 0 iterations).
      assert (Hp3 : (0 < length p3)%nat).
      { unfold p3. rewrite length_progress_update. lia. }
      specialize (IH (acc ++ map (fun r =>
                             with_ensemble_id r
                               (ensemble_id_of m
                                  (default 0%nat (reply_iteration r)))) rs)
                     st1 p3 B5 Hp3).
      destruct (fold_left _ ms _) as [[replies st2] p4].
      destruct IH as (I1 & I2 & I3).
      split; [rewrite I1, length_app, length_map, B1; cbn; lia|].
      split.
      + intros Hacc. apply I2. apply Forall_app. split; [exact Hacc|].
        rewrite Forall_map. eapply Forall_impl; [exact B2|].
        intros r Hr. exact Hr.
      + rewrite I3. unfold p3.
        rewrite completed_update_same by lia.
        rewrite B4 by lia. rewrite Hadd. cbn [length]. lia. }
  intros Hst Hp. specialize (G models [] st progress Hst Hp).
  destruct (fold_left _ models _) as [[replies st'] progress'].
  destruct G as (G1 & G2 & G3).
  split; [exact G1|]. split; [apply G2; constructor|exact G3].
Qed.

(** A batch of free-tier sources under a failing client. *)
Lemma run_ensemble_forecast_failed self question definition models iterations
    timeframe context st :
  dry_run self = false -> inv st ->
  forallb (contains ":free") (effective_models self models) = true ->
  exists result progress st',
    run_ensemble_forecast ClientState client_query clock make_prompt
      mock_sample self question definition models iterations timeframe
      context st
    = (Ok (result, progress), st')
    /\ length (forecast_responses result)
       = (length (effective_models self models)
          * effective_iterations self iterations)%nat
    /\ Forall (fun r => error_family (reply_status r) = true)
              (forecast_responses result)
    /\ completed progress 0
       = (length (effective_models self models)
          * effective_iterations self iterations)%nat.
Proof.
  intros Hdry Hst Hfree. unfold run_ensemble_forecast.
  rewrite Hdry, Hfree. cbn [negb].
  set (ms := effective_models self models).
  set (n := effective_iterations self iterations).
  set (prompt := make_prompt _ _ _ _ _).
  unfold add_task. cbn [length app].
  set (p0 := [_]).
  pose proof (run_models_failed self prompt ms n st p0 Hdry Hst) as H.
  destruct (run_models ClientState client_query clock mock_sample self prompt
                       ms n 0 st p0) as [[replies st'] progress'].
  destruct H as (H1 & H2 & H3); [cbn; lia|].
  do 3 eexists. split; [reflexivity|]. cbn [forecast_responses].
  split; [exact H1|]. split; [exact H2|]. rewrite H3. reflexivity.
Qed.
End OrchestratorFacts.

Section ConnectionTest.
Variable ClientState : Type.
Variable client_query :
  ClientState -> string -> string -> bool -> option Z ->
  result Reply * ClientState.
Variable inv : ClientState -> Prop.
Hypothesis Hfail : always_fails inv client_query.

(** Under a failing client the connection test fails. *)
Lemma connection_ok_failed st :
  inv st -> (connection_ok ClientState client_query st).1 = false.
Proof.
  intros Hst. unfold connection_ok.
  destruct (Hfail st "openai/gpt-3.5-turbo"
              "Say 'test successful' if you can read this." false
              (Some 10%Z) Hst) as [H _].
  destruct (client_query st _ _ false (Some 10%Z)) as [[r|e] st'];
    cbn [fst] in *; [|reflexivity].
  apply bool_decide_eq_false. intros E. cbn in H. rewrite E in H.
  discriminate.
Qed.
End ConnectionTest.

(** The client of the sources, over a service that raises on every
    request and with nothing stored, fails on every call. *)
Lemma openrouter_always_fails transport :
  service_down transport ->
  always_fails cache_empty (openrouter_query transport).
Proof.
  intros Hdown st model prompt web max_tokens Hst.
  unfold openrouter_query, query_model.
  assert (Hmiss : match cache st with
                  | Some c => if negb false
                              then cache_get c (now st) model prompt else None
                  | None => None
                  end = None).
  { unfold cache_empty in Hst. destruct (cache st) as [c|]; [|reflexivity].
    subst c. unfold cache_get. rewrite lookup_empty. reflexivity. }
  rewrite Hmiss. cbv zeta.
  specialize (Hdown (requests_sent st)).
  match goal with
  | |- context [transport (requests_sent st) ?req] =>
      specialize (Hdown req); destruct (transport (requests_sent st) req)
  end; [contradiction| |].
  - split; [reflexivity|exact Hst].
  - split; [|exact Hst]. cbn [fst failed error_reply reply_status].
    unfold classify_error.
    repeat match goal with
           | |- context [if ?b then _ else _] => destruct b
           end; reflexivity.
Qed.

(** C3 (as amended).  Let every call of the client fail (raise, or
    return a reply of the error family), and let dry-run be off.  For
    one source, [_run_model_batch] returns exactly as many replies as
    iterations, each with a status of the error family.  For a batch
    whose sources are all free-tier (so that the connection test is
    skipped), [run_ensemble_forecast] returns exactly S*I replies, each
    with a status of the error family, and the overall progress counter
    reaches S*I, where S and I are the numbers of sources and iterations
    in effect (the configured defaults replace an empty list and zero).
    For a batch with a source that is not free-tier, the connection test
    fails and [run_ensemble_forecast] raises ConnectionError. *)
Theorem C3_failing_client_batch :
  forall (L : SciLib) (ClientState : Type)
         (client_query : ClientState -> string -> string -> bool ->
                         option Z -> result Reply * ClientState)
         (clock : ClientState -> Q)
         (make_prompt : bool -> string -> string -> option string ->
                        option string -> string)
         (mock_sample : nat -> Q * Q) (inv : ClientState -> Prop)
         (self : EnsembleManager) (question definition : string)
         (models : list string) (iterations : nat)
         (timeframe context : option string) (st : ClientState),
    always_fails inv client_query -> inv st -> dry_run self = false ->
    (forall model prompt n task_id progress,
        let '(replies, _, _) :=
          _run_model_batch ClientState client_query clock mock_sample self
                           model prompt n task_id st progress in
        length replies = n
        /\ Forall (fun r => error_family (reply_status r) = true) replies)
    /\ (forallb (contains ":free") (effective_models self models) = true ->
        exists result progress st',
          run_ensemble_forecast ClientState client_query clock make_prompt
            mock_sample self question definition models iterations
            timeframe context st
          = (Ok (result, progress), st')
          /\ length (forecast_responses result)
             = (length (effective_models self models)
                * effective_iterations self iterations)%nat
          /\ Forall (fun r => error_family (reply_status r) = true)
                    (forecast_responses result)
          /\ completed progress 0
             = (length (effective_models self models)
                * effective_iterations self iterations)%nat)
    /\ (forallb (contains ":free") (effective_models self models) = false ->
        (run_ensemble_forecast ClientState client_query clock make_prompt
           mock_sample self question definition models iterations
           timeframe context st).1
        = Raise "ConnectionError: Could not connect to OpenRouter API").
Proof.
  intros L ClientState client_query clock make_prompt mock_sample inv self
         question definition models iterations timeframe context st
         Hfail Hst Hdry.
  split; [|split].
  - intros model prompt n task_id progress.
    pose proof (run_model_batch_failed ClientState client_query clock
                  mock_sample inv Hfail self model prompt n task_id st
                  progress Hdry Hst) as H.
    destruct (_run_model_batch _ _ _ _ _ _ _ _ _ _ _) as [[replies st'] p'].
    destruct H as (H1 & H2 & _). split; assumption.
  - intros Hfree.
    apply (run_ensemble_forecast_failed ClientState client_query clock
             make_prompt mock_sample inv Hfail); assumption.
  - intros Hpaid. unfold run_ensemble_forecast. rewrite Hdry, Hpaid.
    pose proof (connection_ok_failed ClientState client_query inv Hfail st Hst)
      as Hc.
    destruct (connection_ok ClientState client_query st) as [ok st'].
    cbn [fst] in Hc. subst ok. reflexivity.
Qed.

Lemma C3_failing_client_batch_witness :
  let self := EnsembleManager_init in
  let st := OpenRouterClient_init true 0 in
  let models := ["x-ai/grok-4-fast:free"; "google/gemma-2b-it:free"]%string in
  let query := openrouter_query unavailable_service in
  exists result progress st',
    run_ensemble_forecast OpenRouterClient query now plain_prompt
      (fun _ => (35, 1)) self "Q" "D" models 3 None None st
    = (Ok (result, progress), st')
    /\ length (forecast_responses result) = 6%nat
    /\ Forall (fun r => error_family (reply_status r) = true)
              (forecast_responses result)
    /\ completed progress 0 = 6%nat.
Proof.
  intros self st models query.
  destruct (C3_failing_client_batch rational_lib OpenRouterClient
              query now plain_prompt (fun _ => (35, 1)) cache_empty
              self "Q" "D" models 3 None None st)
    as (_ & Hfree & _).
  - apply openrouter_always_fails. intros n request. exact I.
  - reflexivity.
  - reflexivity.
  - apply Hfree. reflexivity.
Defined.

(** C3 (as stated) fails for a source that is not free-tier: with a
    service that fails on every request, the connection test fails and
    the orchestrator raises instead of returning S*I = 1 reply. *)
Lemma C3_counterexample :
  (run_ensemble_forecast OpenRouterClient
     (openrouter_query unavailable_service) now plain_prompt
     (fun _ => (35, 1)) EnsembleManager_init "Q" "D" ["openai/gpt-4"]%string 1
     None None (OpenRouterClient_init true 0)).1
  = Raise "ConnectionError: Could not connect to OpenRouter API".
Proof. vm_compute. reflexivity. Qed.

(** ** The Bayesian entry of the advanced analysis *)

Lemma Qsum_map_div (c : Q) {A} (g : A -> Q) (l : list A) :
  Qsum (map (fun x => g x / c) l) == Qsum (map g l) / c.
Proof.
  induction l as [|x l IH]; cbn [map].
  - vm_compute Qsum. unfold Qdiv. ring.
  - rewrite !Qsum_cons, IH. unfold Qdiv. ring.
Qed.

Lemma np_mean_rescaled {A} (g : A -> Q) (l : list A) :
  np_mean (map (fun x => g x / 100.0) l) * 100.0 == np_mean (map g l).
Proof.
  unfold np_mean. rewrite !Qred_correct, (Qsum_map_div 100.0 g).
  unfold Qlen. rewrite !length_map. unfold Qdiv.
  transitivity (Qsum (map g l) * / inject_Z (Z.of_nat (length l))
                * (100.0 * / 100.0)); [ring|].
  rewrite Qmult_inv_r by discriminate. ring.
Qed.

Section AdvancedFacts.
Context {L : SciLib}.

(** The dictionary that [aggregate_forecasts] returns has no entry
    ["aggregated_forecast"]. *)
Lemma aggregate_forecasts_no_aggregated_forecast self forecasts ids conf d s :
  aggregate_forecasts self forecasts ids conf = Ok (d, s) ->
  d !! "aggregated_forecast"%string = None.
Proof.
  unfold aggregate_forecasts. destruct forecasts as [|f0 fs].
  - intros [= <- _]. apply lookup_singleton_ne. discriminate.
  - destruct (_calculate_expert_weights _ _ _ _ _) as [w|e]; [|discriminate].
    cbn [rbind].
    destruct (_calculate_uncertainty _ _) as [u|e]; [|discriminate].
    cbn [rbind]. intros [= <- _].
    rewrite !lookup_insert_ne by discriminate. apply lookup_empty.
Qed.

Lemma advanced_entry_value calibrator model model_probs :
  (advanced_entry calibrator model model_probs).1
  = {| entry_model := model; entry_probs := model_probs;
       entry_calibrated := _apply_temperature_scaling model_probs 1.5;
       entry_consistency :=
         calculate_consistency (ConsistencyScorer_init "ensemble")
                               model_probs |}.
Proof.
  unfold advanced_entry.
  destruct (calibrate_batch _ _) as [[out c']|e]; reflexivity.
Qed.

(** The entries follow [model_predictions]; the calibrated values are
    always those of [_apply_temperature_scaling]. *)
Lemma advanced_entries_spec model_groups :
  advanced_entries model_groups
  = map (fun mp =>
           {| entry_model := mp.1; entry_probs := mp.2;
              entry_calibrated := _apply_temperature_scaling mp.2 1.5;
              entry_consistency :=
                calculate_consistency (ConsistencyScorer_init "ensemble")
                                      mp.2 |})
        (model_predictions_of model_groups).
Proof.
  unfold advanced_entries.
  assert (G : forall mg acc calibrator,
             (fold_left
                (fun '(entries, calibrator) '(model, results) =>
                   match probabilities_of results with
                   | [] => (entries, calibrator)
                   | model_probs =>
                       let '(entry, calibrator') :=
                         advanced_entry calibrator model model_probs in
                       (entries ++ [entry], calibrator')
                   end)
                mg (acc, calibrator)).1
             = acc ++ map (fun mp =>
                    {| entry_model := mp.1; entry_probs := mp.2;
                       entry_calibrated := _apply_temperature_scaling mp.2 1.5;
                       entry_consistency :=
                         calculate_consistency
                           (ConsistencyScorer_init "ensemble") mp.2 |})
                  (model_predictions_of mg)).
  { induction mg as [|[model results] mg IH]; intros acc calibrator;
      cbn [fold_left].
    - cbn. rewrite app_nil_r. reflexivity.
    - unfold model_predictions_of. cbn [omap list_omap].
      fold (model_predictions_of mg).
      destruct (probabilities_of results) as [|p ps] eqn:E.
      + apply IH.
      + pose proof (advanced_entry_value calibrator model (p :: ps)) as Hv.
        destruct (advanced_entry calibrator model (p :: ps)) as [entry c'].
        cbn [fst] in Hv. subst entry. rewrite IH. cbn [map fst snd].
        rewrite <- app_assoc. reflexivity. }
  apply (G model_groups []).
Qed.

Lemma apply_advanced_value model_groups valid_probabilities r :
  _apply_advanced_algorithms model_groups valid_probabilities = AdvancedOk r ->
  bayesian_ensemble r
  == np_mean (map (fun mp => np_mean mp.2) (model_predictions_of model_groups)).
Proof.
  unfold _apply_advanced_algorithms. rewrite advanced_entries_spec.
  set (mps := model_predictions_of model_groups).
  destruct (map _ mps) as [|e0 es] eqn:Eentries; [discriminate|].
  rewrite <- Eentries. clear Eentries e0 es.
  destruct (aggregate_forecasts _ _ _ _) as [[d s]|e] eqn:Eagg;
    [|discriminate].
  cbn [rbind fst].
  rewrite (aggregate_forecasts_no_aggregated_forecast _ _ _ _ _ _ Eagg).
  cbn [default from_option id as_float rbind]. intros [= <-].
  cbn [bayesian_ensemble].
  rewrite map_map. cbn [entry_probs].
  rewrite (np_mean_rescaled (fun mp : string * list Q => np_mean mp.2)).
  reflexivity.
Qed.

Lemma apply_advanced_returns model_groups valid_probabilities :
  0 < Qsum (map (fun mp =>
                   calculate_consistency (ConsistencyScorer_init "ensemble")
                                         mp.2)
                (model_predictions_of model_groups)) ->
  exists r,
    _apply_advanced_algorithms model_groups valid_probabilities = AdvancedOk r.
Proof.
  intros Hpos. unfold _apply_advanced_algorithms.
  rewrite advanced_entries_spec.
  set (mps := model_predictions_of model_groups) in *.
  remember (map (fun mp : string * list Q =>
                   {| entry_model := mp.1; entry_probs := mp.2;
                      entry_calibrated := _apply_temperature_scaling mp.2 1.5;
                      entry_consistency :=
                        calculate_consistency
                          (ConsistencyScorer_init "ensemble") mp.2 |}) mps)
    as entries eqn:Hentries.
  assert (Hne : entries <> []).
  { intros E. rewrite E in Hentries. symmetry in Hentries.
    apply map_eq_nil in Hentries. rewrite Hentries in Hpos.
    vm_compute in Hpos. discriminate. }
  destruct (aggregate_forecasts_ok BayesianAggregator_init
              (map (fun p => p * 100.0)
                   (map (fun e => np_mean (entry_probs e) / 100.0) entries))
              (Some (map entry_model entries))
              (Some (map entry_consistency entries)))
    as (w & d & s & lo & hi & u & _ & _ & _ & Eagg & _).
  - intros E. apply map_eq_nil in E. apply map_eq_nil in E. congruence.
  - intros id perf H. unfold BayesianAggregator_init in H.
    cbn [historical_performance] in H. rewrite lookup_empty in H.
    discriminate.
  - cbn [ids_ok]. rewrite !length_map. reflexivity.
  - cbn [confidences_ok]. split; [rewrite !length_map; reflexivity|].
    rewrite Hentries. split.
    + rewrite !Forall_map. apply Forall_true. intros mp.
      cbn [entry_consistency]. unfold calculate_consistency.
      destruct (length mp.2 <? 2)%nat; [discriminate|].
      apply np_clip_range. discriminate.
    + rewrite map_map. cbn [entry_consistency]. exact Hpos.
  - destruct entries as [|e0 es]; [congruence|].
    rewrite Eagg. cbn [rbind fst].
    rewrite (aggregate_forecasts_no_aggregated_forecast _ _ _ _ _ _ Eagg).
    cbn [default from_option id as_float rbind]. eauto.
Qed.
End AdvancedFacts.




(* ===================================================================== *)
(** * Part III.  Further properties of the embedded code                  *)
(* ===================================================================== *)

(** ** BayesianAggregator: weights, pooled mean and history *)

Section BayesFacts.
Context {L : SciLib}.

(** X1.  [_calculate_expert_weights] returns one weight per forecast;
    the weights are not negative and sum to one, whatever the outlier
    mask and the recorded performance. *)
Theorem X1_expert_weights_form_distribution :
  forall (self : BayesianAggregator) (probabilities : list Q)
         (expert_ids : list string) (confidences : list Q)
         (outlier_mask : list bool),
    hist_ok self ->
    length expert_ids = length probabilities ->
    length confidences = length probabilities ->
    weights_ok confidences ->
    length outlier_mask = length probabilities ->
    exists weights,
      _calculate_expert_weights self probabilities expert_ids confidences
                                outlier_mask = Ok weights
      /\ length weights = length probabilities
      /\ Forall (fun w => 0 <= w) weights
      /\ Qsum weights == 1.
Proof.
  intros self p ids c mask Hh Hids Hc Hw Hm.
  destruct (calculate_expert_weights_ok self p ids c mask)
    as (w & E & Lw & [Pw _] & Sw); auto.
  exists w. auto.
Qed.

Lemma pooled_mean_in_prior_band ps S m :
  0 < ps -> 0 <= S <= 1 ->
  m == (ps + 10 * S) / (ps + 10 * S + (ps + 10 * (1 - S))) * 100 ->
  100 * ps / (2 * ps + 10) <= m <= 100 * (ps + 10) / (2 * ps + 10)
  /\ 0 < m < 100.
Proof.
  intros Hps [H0 H1] ->.
  assert (HD : 0 < 2 * ps + 10) by lra.
  assert (E : (ps + 10 * S) / (ps + 10 * S + (ps + 10 * (1 - S))) * 100
              == (100 * ps + 1000 * S) / (2 * ps + 10)).
  { field. lra. }
  rewrite E. split; [split|split].
  - apply Qle_shift_div_l; [exact HD|].
    assert (E2 : 100 * ps / (2 * ps + 10) * (2 * ps + 10) == 100 * ps)
      by (field; lra).
    rewrite E2. lra.
  - apply Qle_shift_div_r; [exact HD|].
    assert (E2 : 100 * (ps + 10) / (2 * ps + 10) * (2 * ps + 10)
                 == 100 * (ps + 10)) by (field; lra).
    rewrite E2. lra.
  - apply Qlt_shift_div_l; [exact HD|]. lra.
  - apply Qlt_shift_div_r; [exact HD|]. lra.
Qed.

(** The pooled mean of a run on forecasts in [0,100]. *)
Lemma aggregate_forecasts_band (self : BayesianAggregator)
    (forecasts : list Q) (expert_ids : option (list string))
    (confidences : option (list Q)) :
  forecasts <> [] ->
  Forall (fun f => 0 <= f <= 100) forecasts ->
  0 < prior_strength self ->
  hist_ok self ->
  ids_ok (length forecasts) expert_ids ->
  confidences_ok (length forecasts) confidences ->
  exists d self' m,
    aggregate_forecasts self forecasts expert_ids confidences = Ok (d, self')
    /\ d !! "aggregated_probability"%string = Some (VFloat m)
    /\ 100 * prior_strength self / (2 * prior_strength self + 10) <= m
    /\ m <= 100 * (prior_strength self + 10)
            / (2 * prior_strength self + 10)
    /\ 0 < m < 100.
Proof.
  intros Hne Hf Hps Hh Hids Hconf.
  destruct (aggregate_forecasts_ok self forecasts expert_ids confidences)
    as (w & d & s & lo & hi & u & Lw & Pw & Sw & E & Hd & _); auto.
  exists d, s. eexists. split; [exact E|]. split; [exact Hd|].
  set (p := map (fun f => f / 100.0) forecasts) in *.
  assert (Hp : length p = length w)
    by (unfold p; rewrite length_map; congruence).
  destruct (weighted_sum_bounds 0 1 p w) as [H1 H2];
    [exact Hp| |apply Pw|].
  { unfold p. rewrite Forall_map. eapply Forall_impl; [exact Hf|].
    intros x [Hx1 Hx2]. cbv beta.
    assert (E1 : x / 100.0 == x * (1 # 100)) by field.
    rewrite E1. lra. }
  rewrite Sw in H1, H2.
  destruct (pooled_mean_in_prior_band (prior_strength self)
              (Qsum (zip_with Qmult p w))
              (pool_mean (_bayesian_pool self p w) * 100))
    as [[B1 B2] B3]; [exact Hps|lra| |].
  - rewrite pool_mean_formula by assumption. reflexivity.
  - split; [exact B1|]. split; [exact B2|exact B3].
Qed.

(** X2.  The prior keeps the reported posterior mean away from the
    ends of the scale: for forecasts in [0,100] the value of
    ["aggregated_probability"] lies between [100*s/(2s+10)] and
    [100*(s+10)/(2s+10)] for the prior strength [s], so strictly
    between 0 and 100 (between 8.33 and 91.67 by default). *)
Theorem X2_posterior_mean_in_prior_band :
  forall (self : BayesianAggregator) (forecasts : list Q)
         (expert_ids : option (list string)) (confidences : option (list Q)),
    forecasts <> [] ->
    Forall (fun f => 0 <= f <= 100) forecasts ->
    0 < prior_strength self ->
    hist_ok self ->
    ids_ok (length forecasts) expert_ids ->
    confidences_ok (length forecasts) confidences ->
    exists m,
      aggregated_probability
        (aggregate_forecasts self forecasts expert_ids confidences) = Some m
      /\ 100 * prior_strength self / (2 * prior_strength self + 10) <= m
      /\ m <= 100 * (prior_strength self + 10)
              / (2 * prior_strength self + 10)
      /\ 0 < m < 100.
Proof.
  intros self forecasts ids conf Hne Hf Hps Hh Hids Hconf.
  destruct (aggregate_forecasts_band self forecasts ids conf)
    as (d & s & m & E & Hd & B); auto.
  exists m. split; [|exact B].
  unfold aggregated_probability. rewrite E, Hd. reflexivity.
Qed.
End BayesFacts.

Lemma X2_posterior_mean_in_prior_band_witness :
  exists m,
    aggregated_probability
      (aggregate_forecasts BayesianAggregator_init [0; 0; 100] None None)
    = Some m
    /\ 100 * 1.0 / (2 * 1.0 + 10) <= m
    /\ m <= 100 * (1.0 + 10) / (2 * 1.0 + 10)
    /\ 0 < m < 100.
Proof.
  apply (@X2_posterior_mean_in_prior_band rational_lib
           BayesianAggregator_init [0; 0; 100] None None).
  - discriminate.
  - repeat constructor; discriminate.
  - reflexivity.
  - intros id perf H. unfold BayesianAggregator_init in H.
    cbn [historical_performance] in H. rewrite lookup_empty in H.
    discriminate.
  - exact I.
  - exact I.
Defined.

Lemma X1_expert_weights_form_distribution_witness :
  exists weights,
    _calculate_expert_weights BayesianAggregator_init
      [0.1; 0.2; 0.9] ["a"; "b"; "c"]%string [1; 1; 0.5]
      [false; false; true] = Ok weights
    /\ length weights = 3%nat
    /\ Forall (fun w => 0 <= w) weights
    /\ Qsum weights == 1.
Proof.
  apply (X1_expert_weights_form_distribution
           BayesianAggregator_init [0.1; 0.2; 0.9] ["a"; "b"; "c"]%string
           [1; 1; 0.5] [false; false; true]).
  - intros id perf H. unfold BayesianAggregator_init in H.
    cbn [historical_performance] in H. rewrite lookup_empty in H.
    discriminate.
  - reflexivity.
  - reflexivity.
  - split; [repeat constructor; discriminate|reflexivity].
  - reflexivity.
Defined.


(** ** BayesianAggregator: confidences that are all zero *)

Lemma Qsum_all_zero (w : list Q) :
  Forall (fun x => x == 0) w -> Qsum w == 0.
Proof.
  induction 1 as [|x w Hx _ IH]; [reflexivity|].
  rewrite Qsum_cons, Hx, IH. reflexivity.
Qed.

Lemma confidence_weighting_zero n c :
  length c = n -> Forall (fun x => x == 0) c ->
  exists w, confidence_weighting n c = Ok w /\ length w = n
            /\ Forall (fun x => x == 0) w.
Proof.
  intros Hlen Hc. unfold confidence_weighting.
  rewrite (proj2 (Nat.eqb_eq _ _) Hlen).
  eexists; split; [reflexivity|]. subst n. clear -Hc.
  induction Hc as [|x c Hx _ [IH1 IH2]]; cbn [length repeat zip_with].
  - split; [reflexivity|constructor].
  - split; [cbn [length]; congruence|].
    constructor; [rewrite Hx; ring|exact IH2].
Qed.

Lemma outlier_penalty_zero w mask :
  Forall (fun x => x == 0) w ->
  Forall (fun x => x == 0) (outlier_penalty w mask).
Proof.
  intros Hw. revert mask. unfold outlier_penalty.
  induction Hw as [|x w Hx _ IH]; intros [|b mask]; cbn [zip_with];
    try constructor; [|apply IH].
  destruct b; rewrite Hx; ring.
Qed.

Lemma historical_weighting_zero self ids :
  forall i w, (i + length ids <= length w)%nat ->
  Forall (fun x => x == 0) w ->
  exists w', historical_weighting self i ids w = Ok w'
             /\ length w' = length w /\ Forall (fun x => x == 0) w'.
Proof.
  induction ids as [|id ids IH]; intros i w Hlen Hw; cbn [historical_weighting].
  - eauto.
  - cbn [length] in Hlen.
    destruct (historical_performance self !! id) as [perf|].
    + destruct (lookup_lt_is_Some_2 w i) as [x Hx]; [lia|].
      rewrite Hx.
      destruct (IH (S i) (<[i := x * (1.0 / (1.0 + avg_error perf))]> w))
        as (w' & H1 & H2 & H3).
      * rewrite length_insert. lia.
      * apply Forall_insert; [exact Hw|].
        assert (E : x == 0)
          by (eapply (Forall_lookup_1 _ _ _ _ Hw); eauto).
        cbv beta. rewrite E. ring.
      * exists w'. rewrite length_insert in H2. auto.
    + apply IH; [lia|assumption].
Qed.

Lemma np_average_zero_weights p w :
  Qsum w == 0 -> np_average p w = Raise "ZeroDivisionError".
Proof.
  intros H. unfold np_average.
  rewrite (proj2 (Qeq_bool_iff _ _) H). reflexivity.
Qed.

Section ZeroConfidence.
Context {L : SciLib}.

(** X3.  Confidences that are all zero leave no weight to normalise:
    [np.average] raises in the first consensus round, and
    [aggregate_forecasts] raises ZeroDivisionError instead of returning
    a dictionary. *)
Theorem X3_zero_confidences_raise :
  forall (self : BayesianAggregator) (forecasts : list Q)
         (expert_ids : option (list string)) (confidences : list Q),
    forecasts <> [] ->
    ids_ok (length forecasts) expert_ids ->
    length confidences = length forecasts ->
    Forall (fun c => c == 0) confidences ->
    aggregate_forecasts self forecasts expert_ids (Some confidences)
    = Raise "ZeroDivisionError".
Proof.
  intros self forecasts ids c Hne Hids Hlen Hc.
  unfold aggregate_forecasts.
  destruct forecasts as [|f0 fs] eqn:Ef; [congruence|]. rewrite <- Ef in *.
  set (p := map (fun f => f / 100.0) forecasts).
  set (ids' := match ids with
               | None => map expert_name (seq 0 (length forecasts))
               | Some i => i end).
  assert (Hp : length p = length forecasts) by apply length_map.
  assert (Hids' : length ids' = length forecasts).
  { subst ids'. destruct ids as [i|]; [exact Hids|].
    rewrite length_map, length_seq. reflexivity. }
  unfold _calculate_expert_weights.
  destruct (confidence_weighting_zero (length p) c) as (w0 & E0 & L0 & Z0);
    [congruence|exact Hc|].
  rewrite E0. cbn [rbind].
  destruct (historical_weighting_zero self ids' 0
              (outlier_penalty w0 (_detect_outliers self p)))
    as (w2 & E2 & L2 & Z2).
  - unfold outlier_penalty. rewrite length_zip_with, length_detect_outliers.
    cbn [plus]. lia.
  - apply outlier_penalty_zero, Z0.
  - rewrite E2. cbn [rbind consensus_rounds]. unfold consensus_round.
    rewrite np_average_zero_weights by (apply Qsum_all_zero, Z2).
    reflexivity.
Qed.
End ZeroConfidence.

Lemma X3_zero_confidences_raise_witness :
  aggregate_forecasts (L := rational_lib) BayesianAggregator_init
                      [30; 40] None (Some [0; 0])
  = Raise "ZeroDivisionError".
Proof.
  apply (@X3_zero_confidences_raise rational_lib BayesianAggregator_init
           [30; 40] None [0; 0]).
  - discriminate.
  - exact I.
  - reflexivity.
  - repeat constructor; reflexivity.
Defined.

(** ** BayesianAggregator: the history of the experts *)

Lemma np_mean_nonneg (l : list Q) :
  Forall (fun x => 0 <= x) l -> 0 <= np_mean l.
Proof.
  intros H. unfold np_mean. rewrite Qred_correct.
  pose proof (Qsum_nonneg l H) as Hs.
  unfold Qlen. destruct l as [|x l].
  - vm_compute. discriminate.
  - apply Qle_shift_div_l; [|lra].
    change 0 with (inject_Z 0). rewrite <- Zlt_Qlt. cbn [length]. lia.
Qed.

Lemma last_n_Forall {A} (P : A -> Prop) n (l : list A) :
  Forall P l -> Forall P (last_n n l).
Proof. intros H. unfold last_n. apply Forall_drop, H. Qed.

Lemma update_one_history (hp : gmap string Performance) id (pred consensus : Q) :
  (forall k perf, hp !! k = Some perf ->
                  Forall (fun e => 0 <= e) (perf_errors perf)
                  /\ 0 <= avg_error perf) ->
  forall k perf, update_one hp id pred consensus !! k = Some perf ->
                 Forall (fun e => 0 <= e) (perf_errors perf)
                 /\ 0 <= avg_error perf.
Proof.
  intros H k perf. unfold update_one.
  destruct (decide (id = k)) as [->|Hne].
  - rewrite lookup_insert_eq. intros [= <-]. cbn [perf_errors avg_error].
    assert (F : Forall (fun e => 0 <= e)
                  (perf_errors
                     match hp !! k with
                     | Some perf => perf
                     | None => {| perf_predictions := []; perf_errors := [];
                                  avg_error := 0.5 |}
                     end ++ [Qabs (pred - consensus)])).
    { apply Forall_app. split.
      - destruct (hp !! k) as [perf0|] eqn:E; [apply (H k perf0 E)|].
        constructor.
      - constructor; [apply Qabs_nonneg|constructor]. }
    split; [exact F|]. apply np_mean_nonneg, last_n_Forall, F.
  - rewrite lookup_insert_ne by exact Hne. apply H.
Qed.

Lemma update_one_recorded (hp : gmap string Performance) id (pred consensus : Q) k :
  is_Some (hp !! k) \/ k = id ->
  is_Some (update_one hp id pred consensus !! k).
Proof.
  intros H. unfold update_one. destruct (decide (id = k)) as [->|Hne].
  - rewrite lookup_insert_eq. eauto.
  - rewrite lookup_insert_ne by exact Hne. destruct H; [assumption|congruence].
Qed.

Lemma update_one_other (hp : gmap string Performance) id (pred consensus : Q) k :
  k <> id -> update_one hp id pred consensus !! k = hp !! k.
Proof. intros H. unfold update_one. apply lookup_insert_ne. congruence. Qed.

Lemma update_expert_performance_history self ids preds consensus :
  history_ok self ->
  history_ok (_update_expert_performance self ids preds consensus)
  /\ (forall id, id ∈ take (length preds) ids ->
                 is_Some (historical_performance
                            (_update_expert_performance self ids preds
                                                        consensus) !! id))
  /\ (forall id, id ∉ take (length preds) ids ->
                 historical_performance
                   (_update_expert_performance self ids preds consensus) !! id
                 = historical_performance self !! id).
Proof.
  unfold history_ok, _update_expert_performance.
  cbn [historical_performance].
  generalize (historical_performance self) as hp.
  revert preds. induction ids as [|id ids IH]; intros preds hp H.
  - cbn. split; [exact H|]. split; [|reflexivity].
    intros id Hin. rewrite take_nil in Hin. inversion Hin.
  - destruct preds as [|pred preds].
    + cbn. split; [exact H|]. split; [|reflexivity].
      intros k Hin. inversion Hin.
    + cbn [zip zip_with fold_left length take fst snd].
      destruct (IH preds (update_one hp id pred consensus))
        as (I1 & I2 & I3); [apply update_one_history, H|].
      split; [exact I1|]. split.
      * intros k Hin. apply elem_of_cons in Hin.
        destruct (decide (k ∈ take (length preds) ids)) as [Hk|Hk];
          [apply I2, Hk|].
        rewrite I3 by exact Hk. apply update_one_recorded.
        destruct Hin as [->|Hin]; [right; reflexivity|contradiction].
      * intros k Hk. rewrite not_elem_of_cons in Hk. destruct Hk as [Hk1 Hk2].
        rewrite I3 by exact Hk2. apply update_one_other, Hk1.
Qed.

Section HistoryFacts.
Context {L : SciLib}.

(** X4.  The history of the experts is kept sound by every call of
    [aggregate_forecasts] that returns: the recorded errors and their
    running means stay non-negative (so the next call can weight by
    them), the parameters are not changed, every expert of the call
    has a record afterwards, and the records of other experts are not
    touched. *)
Theorem X4_history_kept_sound :
  forall (self self' : BayesianAggregator) (forecasts : list Q)
         (expert_ids : list string) (confidences : option (list Q))
         (d : gmap string value),
    history_ok self ->
    length expert_ids = length forecasts ->
    aggregate_forecasts self forecasts (Some expert_ids) confidences
    = Ok (d, self') ->
    history_ok self'
    /\ hist_ok self'
    /\ prior_strength self' = prior_strength self
    /\ outlier_threshold self' = outlier_threshold self
    /\ (forecasts <> [] ->
        forall id, id ∈ expert_ids ->
                   is_Some (historical_performance self' !! id))
    /\ (forall id, id ∉ expert_ids ->
                   historical_performance self' !! id
                   = historical_performance self !! id).
Proof.
  intros self self' forecasts ids conf d Hh Hlen.
  assert (Hweak : forall s, history_ok s -> hist_ok s).
  { intros s Hs id perf E. apply (Hs id perf E). }
  unfold aggregate_forecasts. destruct forecasts as [|f0 fs] eqn:Ef.
  - intros [= _ <-]. split; [exact Hh|]. split; [apply Hweak, Hh|].
    split; [reflexivity|]. split; [reflexivity|].
    split; [congruence|reflexivity].
  - rewrite <- Ef in *.
    destruct (_calculate_expert_weights _ _ _ _ _) as [w|e]; [|discriminate].
    cbn [rbind].
    destruct (_calculate_uncertainty _ _) as [u|e]; [|discriminate].
    cbn [rbind]. intros [= _ <-].
    set (p := map (fun f => f / 100.0) forecasts).
    destruct (update_expert_performance_history self ids p
                (pool_mean (_bayesian_pool self p w)) Hh) as (I1 & I2 & I3).
    assert (Et : take (length p) ids = ids).
    { apply take_ge. unfold p. rewrite length_map. lia. }
    rewrite Et in I2, I3.
    split; [exact I1|]. split; [apply Hweak, I1|].
    split; [reflexivity|]. split; [reflexivity|].
    split; [intros _; exact I2|exact I3].
Qed.
End HistoryFacts.

Lemma history_ok_init : history_ok BayesianAggregator_init.
Proof.
  intros id perf H. unfold BayesianAggregator_init in H.
  cbn [historical_performance] in H. rewrite lookup_empty in H.
  discriminate.
Qed.

Lemma X4_history_kept_sound_witness :
  exists d self',
    aggregate_forecasts (L := rational_lib) BayesianAggregator_init
                        [30; 40] (Some ["a"; "b"]%string) None
    = Ok (d, self')
    /\ history_ok self'
    /\ is_Some (historical_performance self' !! "a"%string).
Proof.
  destruct (aggregate_forecasts_ok (L := rational_lib) BayesianAggregator_init
              [30; 40] (Some ["a"; "b"]%string) None)
    as (w & d & self' & lo & hi & u & _ & _ & _ & E & _).
  - discriminate.
  - intros id perf H. apply (history_ok_init id perf H).
  - reflexivity.
  - exact I.
  - exists d, self'. split; [exact E|].
    destruct (@X4_history_kept_sound rational_lib BayesianAggregator_init
                self' [30; 40] ["a"; "b"]%string None d history_ok_init
                eq_refl E) as (H1 & _ & _ & _ & H5 & _).
    split; [exact H1|]. apply H5; [discriminate|]. apply elem_of_cons. auto.
Defined.


(** ** BayesianAggregator: precision-weighted pooling and evidence *)

(** The constant [1e-10] of the sources. *)
Lemma tiny_bounds : 0 < 1e-10 /\ 1e-10 < 1 # 1000.
Proof. split; reflexivity. Qed.

Lemma Qsum_zip_comm (a b : list Q) :
  Qsum (zip_with Qmult a b) == Qsum (zip_with Qmult b a).
Proof.
  revert b. induction a as [|x a IH]; intros [|y b]; cbn [zip_with];
    try reflexivity.
  rewrite !Qsum_cons, IH. ring.
Qed.

Lemma Qsum_pos (l : list Q) :
  l <> [] -> Forall (fun x => 0 < x) l -> 0 < Qsum l.
Proof.
  intros Hne H. destruct H as [|x l Hx Hl]; [congruence|].
  rewrite Qsum_cons.
  assert (0 <= Qsum l).
  { apply Qsum_nonneg. eapply Forall_impl; [exact Hl|].
    intros y Hy. cbv beta in *. lra. }
  lra.
Qed.

Lemma Qsum_weighted_squares_nonneg (w m : list Q) (c : Q) :
  Forall (fun x => 0 <= x) w ->
  0 <= Qsum (zip_with (fun w m => w * ((m - c) * (m - c))) w m).
Proof.
  intros H. revert m. induction H as [|x w Hx _ IH]; intros [|y m];
    cbn [zip_with]; try discriminate.
  rewrite Qsum_cons. specialize (IH m). cbv beta in Hx.
  assert (Hsq : 0 <= (y - c) * (y - c)).
  { set (t := y - c). destruct (Qlt_le_dec t 0).
    - assert (E : t * t == (- t) * (- t)) by ring.
      rewrite E. apply Qmult_le_0_compat; lra.
    - apply Qmult_le_0_compat; lra. }
  pose proof (Qmult_le_0_compat _ _ Hx Hsq). lra.
Qed.

Section SupraFacts.
Context {L : SciLib}.

(** X5.  For a non-empty set of distributions whose variances are not
    negative, [supra_bayesian_aggregation] gives every model a weight
    that is not negative, the weights sum to one, the pooled mean lies
    between the smallest and the largest model mean (on the 0-100
    scale), the pooled variance is positive, and the credible interval
    is cut to the range from 0 to 100. *)
Theorem X5_supra_bayesian_pooling :
  forall (model_distributions : list (string * Distribution)),
    model_distributions <> [] ->
    Forall (fun md => 0 <= default 0.01 (dist_variance md.2))
           model_distributions ->
    let means :=
      map (fun md => default 0.5 (dist_mean md.2)) model_distributions in
    exists r,
      supra_bayesian_aggregation model_distributions = SupraOk r
      /\ map fst (supra_model_weights r) = map fst model_distributions
      /\ Forall (fun w => 0 <= w) (map snd (supra_model_weights r))
      /\ Qsum (map snd (supra_model_weights r)) == 1
      /\ np_min means * 100 <= supra_pooled_mean r <= np_max means * 100
      /\ 0 < supra_pooled_variance r
      /\ 0 <= supra_credible_lower r
      /\ supra_credible_upper r <= 100.
Proof.
  intros mds Hne Hvar. cbv zeta.
  unfold supra_bayesian_aggregation.
  destruct mds as [|md0 mds'] eqn:Emds; [congruence|]. rewrite <- Emds in *.
  set (means := map (fun md => default 0.5 (dist_mean md.2)) mds).
  set (variances := map (fun md => default 0.01 (dist_variance md.2)) mds).
  set (precisions := map (fun v => 1.0 / (v + 1e-10)) variances).
  set (S := Qsum precisions).
  set (weights := map (fun pr => pr / S) precisions).
  assert (Hprec : Forall (fun x => 0 < x) precisions).
  { unfold precisions, variances. rewrite !Forall_map.
    eapply Forall_impl; [exact Hvar|]. intros md Hmd. cbv beta in *.
    pose proof tiny_bounds as [Ht _]. set (eps := 1e-10) in *.
    apply Qlt_shift_div_l; lra. }
  assert (Hpne : precisions <> []).
  { unfold precisions, variances. intros E.
    apply map_eq_nil in E. apply map_eq_nil in E. congruence. }
  assert (HS : 0 < S) by (apply Qsum_pos; assumption).
  assert (Hw : Forall (fun x => 0 <= x) weights).
  { unfold weights. rewrite Forall_map.
    eapply Forall_impl; [exact Hprec|]. intros x Hx. cbv beta in *.
    apply Qle_shift_div_l; lra. }
  assert (Hsum : Qsum weights == 1).
  { unfold weights.
    rewrite (Qsum_map_div S (fun x : Q => x) precisions), map_id.
    fold S. field. lra. }
  assert (Hlen : length weights = length mds).
  { unfold weights, precisions, variances. rewrite !length_map.
    reflexivity. }
  assert (Hlenm : length means = length mds)
    by (unfold means; apply length_map).
  eexists. split; [reflexivity|].
  cbn [supra_model_weights supra_pooled_mean supra_pooled_variance
       supra_credible_lower supra_credible_upper].
  split; [apply fst_zip; rewrite length_map; lia|].
  assert (Esnd : map snd (zip (map fst mds) weights) = weights)
    by (apply snd_zip; rewrite length_map; lia).
  rewrite Esnd.
  split; [exact Hw|]. split; [exact Hsum|].
  split; [|split; [|split]].
  - destruct (weighted_sum_bounds (np_min means) (np_max means)
                means weights) as [H1 H2];
      [congruence|apply np_min_max_bounds|exact Hw|].
    rewrite Hsum in H1, H2. rewrite Qsum_zip_comm. nra.
  - pose proof (Qsum_weighted_squares_nonneg weights means
                  (Qsum (zip_with Qmult weights means)) Hw) as Hb.
    assert (0 < 1.0 / S) by (apply Qlt_shift_div_l; lra).
    lra.
  - pose proof (Q.le_max_l 0 (Qsum (zip_with Qmult weights means)
                              - 1.96 * np_sqrt (1.0 / S
                                  + Qsum (zip_with
                                       (fun w m =>
                                          w * ((m - Qsum (zip_with Qmult
                                                           weights means))
                                               * (m - Qsum (zip_with Qmult
                                                           weights means))))
                                       weights means)))) as Hm.
    nra.
  - match goal with
    | |- Qmin 1 ?u * 100 <= 100 => pose proof (Q.le_min_l 1 u)
    end.
    nra.
Qed.
End SupraFacts.

Lemma X5_supra_bayesian_pooling_witness :
  exists r,
    supra_bayesian_aggregation (L := rational_lib)
      [("a"%string, {| dist_mean := Some 0.3; dist_variance := Some 0.02 |});
       ("b"%string, {| dist_mean := Some 0.6; dist_variance := None |})]
    = SupraOk r
    /\ Qsum (map snd (supra_model_weights r)) == 1
    /\ 0.3 * 100 <= supra_pooled_mean r <= 0.6 * 100.
Proof.
  destruct (@X5_supra_bayesian_pooling rational_lib
              [("a"%string,
                {| dist_mean := Some 0.3; dist_variance := Some 0.02 |});
               ("b"%string,
                {| dist_mean := Some 0.6; dist_variance := None |})])
    as (r & E & _ & _ & Hs & Hm & _).
  - discriminate.
  - repeat constructor; discriminate.
  - exists r. split; [exact E|]. split; [exact Hs|exact Hm].
Defined.




(** ** ConsistencyScorer: ranges and the weighted aggregate *)

Lemma np_mean_bounds lo hi (l : list Q) :
  l <> [] -> Forall (fun x => lo <= x <= hi) l -> lo <= np_mean l <= hi.
Proof.
  intros Hne H. unfold np_mean. rewrite Qred_correct.
  assert (Hs : lo * Qlen l <= Qsum l <= hi * Qlen l).
  { clear Hne. unfold Qlen.
    induction H as [|x l [Hx1 Hx2] _ IH].
    { change (Qsum []) with 0. change (inject_Z (Z.of_nat (length (@nil Q))))
        with 0. lra. }
    rewrite Qsum_cons. cbn [length]. rewrite Nat2Z.inj_succ.
    unfold Z.succ. rewrite inject_Z_plus. change (inject_Z 1) with 1.
    set (N := inject_Z (Z.of_nat (length l))) in *. destruct IH as [I1 I2].
    assert (E1 : lo * (N + 1) == lo * N + lo) by ring.
    assert (E2 : hi * (N + 1) == hi * N + hi) by ring.
    rewrite E1, E2. split; lra. }
  assert (Hn : 0 < Qlen l).
  { unfold Qlen. destruct l; [congruence|].
    change 0 with (inject_Z 0). rewrite <- Zlt_Qlt. cbn [length]. lia. }
  split; [apply Qle_shift_div_l|apply Qle_shift_div_r]; lra.
Qed.

Section ConsistencyFacts.
Context {L : SciLib}.

Lemma calculate_consistency_range self samples :
  0 <= calculate_consistency self samples <= 1.
Proof.
  unfold calculate_consistency.
  destruct (length samples <? 2)%nat; [split; discriminate|].
  apply np_clip_range. discriminate.
Qed.

(** The accumulator of [calculate_weighted_aggregate] is a weighted sum
    of values between the bounds. *)
Lemma weighted_totals_bounds self lo hi
    (model_predictions : list (string * list Q)) :
  Forall (fun mp => Forall (fun p => lo <= p <= hi) mp.2) model_predictions ->
  let '(weighted_sum, total_weight) :=
    weighted_totals self model_predictions in
  0 <= total_weight
  /\ lo * total_weight <= weighted_sum <= hi * total_weight.
Proof.
  intros H. unfold weighted_totals.
  assert (G : forall ws tw,
             0 <= tw /\ lo * tw <= ws <= hi * tw ->
             let '(weighted_sum, total_weight) :=
               fold_left
                 (fun '(weighted_sum, total_weight) '(model_name, predictions) =>
                    match predictions with
                    | [] => (weighted_sum, total_weight)
                    | _ =>
                        let consistency :=
                          calculate_consistency self predictions in
                        let weight := consistency * consistency in
                        let mean_pred := np_mean predictions in
                        (Qred (weighted_sum + weight * mean_pred),
                         Qred (total_weight + weight))
                    end)
                 model_predictions (ws, tw) in
             0 <= total_weight
             /\ lo * total_weight <= weighted_sum <= hi * total_weight).
  { induction H as [|[name preds] mps Hp _ IH]; intros ws tw Hacc;
      cbn [fold_left]; [exact Hacc|].
    destruct preds as [|p0 ps] eqn:E; [apply IH, Hacc|]. rewrite <- E in *.
    apply IH. cbn [snd] in Hp.
    destruct (np_mean_bounds lo hi preds) as [M1 M2];
      [congruence|exact Hp|].
    destruct (calculate_consistency_range self preds) as [C1 C2].
    set (c := calculate_consistency self preds) in *.
    set (m := np_mean preds) in *.
    rewrite !Qred_correct.
    assert (Hw : 0 <= c * c) by (apply Qmult_le_0_compat; assumption).
    set (wt := c * c) in *. destruct Hacc as (A0 & A1 & A2).
    split; [lra|]. split; nra. }
  apply (G 0.0 0.0). split; [discriminate|]. split; lra.
Qed.

Lemma weighted_aggregate_within_range :
  forall (self : ConsistencyScorer)
         (model_predictions : list (string * list Q)) (lo hi : Q),
    Forall (fun mp => Forall (fun p => lo <= p <= hi) mp.2)
           model_predictions ->
    lo <= 50 <= hi ->
    lo <= calculate_weighted_aggregate self model_predictions <= hi.
Proof.
  intros self mps lo hi H H50. unfold calculate_weighted_aggregate.
  pose proof (weighted_totals_bounds self lo hi mps H) as Hb.
  destruct (weighted_totals self mps) as [ws tw].
  destruct Hb as (T0 & T1 & T2).
  destruct (Qltb 0 tw) eqn:E.
  - apply Qltb_lt in E.
    split; [apply Qle_shift_div_l|apply Qle_shift_div_r]; lra.
  - destruct (all_preds mps) as [|p0 ps] eqn:Ea.
    + assert (E50 : 50.0 == 50) by reflexivity. rewrite E50. exact H50.
    + apply np_mean_bounds; [discriminate|].
      rewrite <- Ea. unfold all_preds. apply Forall_concat.
      rewrite Forall_map. exact H.
Qed.

(** X7.  [calculate_weighted_aggregate] never leaves the range of its
    input: when every prediction lies between [lo] and [hi], and 50
    does too, so does the aggregate, on the weighted path and on both
    fallbacks.  For predictions in [0,100] the aggregate is in
    [0,100]. *)
Theorem X7_weighted_aggregate_within_range :
  forall (self : ConsistencyScorer)
         (model_predictions : list (string * list Q)) (lo hi : Q),
    Forall (fun mp => Forall (fun p => lo <= p <= hi) mp.2)
           model_predictions ->
    lo <= 50 <= hi ->
    lo <= calculate_weighted_aggregate self model_predictions <= hi.
Proof. exact weighted_aggregate_within_range. Qed.

End ConsistencyFacts.

Lemma X7_weighted_aggregate_within_range_witness :
  0 <= calculate_weighted_aggregate (L := rational_lib)
         (ConsistencyScorer_init "ensemble")
         [("a"%string, [20; 30; 25]); ("b"%string, [80; 60])] <= 100.
Proof.
  apply (@X7_weighted_aggregate_within_range rational_lib
           (ConsistencyScorer_init "ensemble")
           [("a"%string, [20; 30; 25]); ("b"%string, [80; 60])] 0 100).
  - repeat constructor; discriminate.
  - split; discriminate.
Defined.



(** ** ConsistencyScorer: the scores of an ensemble *)

Lemma dict_get_In {V} (d : list (string * V)) k v :
  dict_get d k = Some v -> In (k, v) d.
Proof.
  induction d as [|[k' v'] d IH]; cbn [dict_get]; [discriminate|].
  destruct (String.eqb k' k) eqn:E.
  - apply String.eqb_eq in E. intros [= ->]. left. congruence.
  - intros H. right. apply IH, H.
Qed.

Lemma dict_get_None {V} (d : list (string * V)) k :
  dict_get d k = None <-> ~ In k (map fst d).
Proof.
  induction d as [|[k' v'] d IH]; cbn [dict_get map fst In]; [tauto|].
  destruct (String.eqb k' k) eqn:E.
  - apply String.eqb_eq in E. split; [discriminate|]. intros H. tauto.
  - apply String.eqb_neq in E. rewrite IH. tauto.
Qed.

Lemma dict_get_NoDup {V} (d : list (string * V)) k v :
  NoDup (map fst d) -> In (k, v) d -> dict_get d k = Some v.
Proof.
  induction d as [|[k' v'] d IH]; cbn [dict_get map fst In]; [tauto|].
  intros Hnd [H|H].
  - injection H as -> ->. rewrite String.eqb_refl. reflexivity.
  - apply NoDup_cons in Hnd. destruct Hnd as [Hk Hnd].
    destruct (String.eqb k' k) eqn:E; [|apply IH; assumption].
    apply String.eqb_eq in E. subst k'. exfalso. apply Hk.
    apply list_elem_of_In, in_map_iff. exists (k, v). auto.
Qed.

Lemma dict_set_fresh {V} (d : list (string * V)) k v :
  dict_get d k = None -> dict_set d k v = d ++ [(k, v)].
Proof.
  induction d as [|[k' v'] d IH]; cbn [dict_get dict_set app];
    [reflexivity|].
  destruct (String.eqb k' k); [discriminate|].
  intros H. rewrite IH by exact H. reflexivity.
Qed.

(** [max(d, key=...)] and [min(d, key=...)] pick an entry that no other
    entry beats. *)
Lemma arg_best_spec (better : Q -> Q -> bool) :
  (forall a b, better a b = true -> better b a = false) ->
  (forall a b c, better b a = false -> better c b = false ->
                 better c a = false) ->
  forall d : list (string * Metrics),
    NoDup (map fst d) ->
    match arg_best better d with
    | None => d = []
    | Some k =>
        exists m, In (k, m) d
                  /\ forall k' m', In (k', m') d ->
                       better (consistency_score m') (consistency_score m)
                       = false
    end.
Proof.
  intros Hasym Htrans.
  assert (Hirr : forall a, better a a = false).
  { intros a. destruct (better a a) eqn:E; [|reflexivity].
    rewrite (Hasym a a E) in E. discriminate. }
  induction d as [|[k m] rest IH]; intros Hnd; cbn [arg_best];
    [reflexivity|].
  cbn [map fst] in Hnd. apply NoDup_cons in Hnd. destruct Hnd as [Hk Hnd].
  specialize (IH Hnd).
  destruct (arg_best better rest) as [k'|].
  - destruct IH as (m' & Hin & Hbest).
    rewrite (dict_get_NoDup rest k' m' Hnd Hin).
    destruct (better (consistency_score m') (consistency_score m)) eqn:E.
    + exists m'. split; [right; exact Hin|].
      intros k2 m2 [H|H]; [|eapply Hbest; exact H].
      injection H as <- <-. apply Hasym, E.
    + exists m. split; [left; reflexivity|].
      intros k2 m2 [H|H]; [injection H as <- <-; apply Hirr|].
      eapply Htrans; [exact E|]. eapply Hbest. exact H.
  - subst rest. exists m. split; [left; reflexivity|].
    intros k2 m2 [H|[]]. injection H as <- <-. apply Hirr.
Qed.

Section ScoreEnsembleFacts.
Context {L : SciLib}.

Lemma calculate_consistency_method self self' samples :
  scorer_method self' = scorer_method self ->
  calculate_consistency self' samples = calculate_consistency self samples.
Proof. intros H. unfold calculate_consistency. rewrite H. reflexivity. Qed.

(** The loop of [score_ensemble] over models with distinct names. *)
Lemma score_ensemble_loop self (model_samples : list (string * list Q)) :
  NoDup (map fst model_samples) ->
  forall mm scores s0,
    (forall n, In n (map fst model_samples) -> dict_get mm n = None) ->
    scorer_method s0 = scorer_method self ->
    exists s',
      fold_left
        (fun '(mm, scores, s) '(model_name, samples) =>
           let '(metrics, s') := score_model_samples s model_name samples in
           (dict_set mm model_name metrics,
            scores ++ [consistency_score metrics], s'))
        model_samples (mm, scores, s0)
      = (mm ++ map (fun ms => (ms.1, (score_model_samples self ms.1 ms.2).1))
                   model_samples,
         scores ++ map (fun ms => calculate_consistency self ms.2)
                       model_samples,
         s')
      /\ scorer_method s' = scorer_method self
      /\ (forall n samples, In (n, samples) model_samples ->
            consistency_scores s' !! n
            = Some (score_model_samples self n samples).1
            /\ model_consistencies s' !! n
               = Some (default [] (model_consistencies s0 !! n)
                       ++ [calculate_consistency self samples]))
      /\ (forall n, ~ In n (map fst model_samples) ->
            consistency_scores s' !! n = consistency_scores s0 !! n
            /\ model_consistencies s' !! n = model_consistencies s0 !! n).
Proof.
  induction model_samples as [|[name samples] rest IH];
    intros Hnd mm scores s0 Hfresh Hm.
  - exists s0. cbn [fold_left map]. rewrite !app_nil_r.
    split; [reflexivity|]. split; [exact Hm|].
    split; [intros n s []|intros n _; split; reflexivity].
  - cbn [map fst] in Hnd. apply NoDup_cons in Hnd.
    destruct Hnd as [Hname Hnd].
    assert (Hname' : ~ In name (map fst rest)).
    { intros H. apply Hname, list_elem_of_In, H. }
    cbn [fold_left].
    destruct (score_model_samples s0 name samples) as [metrics s1] eqn:Es.
    assert (Emetrics : metrics = (score_model_samples self name samples).1).
    { unfold score_model_samples in *. injection Es as <- _.
      cbn [fst]. rewrite (calculate_consistency_method self s0 samples Hm).
      reflexivity. }
    assert (Es1 : s1 = (score_model_samples s0 name samples).2)
      by (rewrite Es; reflexivity).
    assert (Ecs : consistency_score metrics
                  = calculate_consistency self samples).
    { rewrite Emetrics. reflexivity. }
    rewrite dict_set_fresh by (apply Hfresh; left; reflexivity).
    destruct (IH Hnd (mm ++ [(name, metrics)])
                 (scores ++ [consistency_score metrics]) s1)
      as (s' & E & Hm' & Hin & Hout).
    + intros n Hn. apply dict_get_None. rewrite map_app. cbn [map fst].
      intros H. apply in_app_or in H. destruct H as [H|[H|[]]].
      * revert H. apply dict_get_None, Hfresh. right. exact Hn.
      * subst n. contradiction.
    + rewrite Es1. unfold score_model_samples. cbn [snd scorer_method].
      exact Hm.
    + exists s'. split.
      { rewrite E. cbn [map fst snd]. rewrite <- !app_assoc.
        rewrite Ecs, Emetrics. reflexivity. }
      split; [exact Hm'|]. split.
      * intros n s [H|H].
        -- injection H as <- <-.
           destruct (Hout name Hname') as [O1 O2].
           rewrite O1, O2, Es1. unfold score_model_samples at 1 3.
           cbn [snd consistency_scores model_consistencies].
           rewrite !lookup_insert_eq.
           rewrite (calculate_consistency_method self s0 samples Hm).
           unfold score_model_samples. cbn [fst].
           split; reflexivity.
        -- destruct (Hin n s H) as [I1 I2]. split; [exact I1|].
           rewrite I2, Es1. unfold score_model_samples.
           cbn [snd model_consistencies].
           assert (n <> name).
           { intros ->. apply Hname'. apply in_map_iff.
             exists (name, s). auto. }
           rewrite lookup_insert_ne by congruence. reflexivity.
      * intros n Hn. cbn [map fst In] in Hn.
        destruct (Hout n) as [O1 O2]; [tauto|].
        rewrite O1, O2, Es1. unfold score_model_samples.
        cbn [snd consistency_scores model_consistencies].
        rewrite !lookup_insert_ne by tauto. split; reflexivity.
Qed.

(** X8.  For models with distinct names [score_ensemble] scores every
    model once, in order; ["most_consistent_model"] names a model whose
    consistency no other model exceeds and ["least_consistent_model"]
    one that no other model falls below; both are [None] exactly for an
    empty ensemble. *)
Theorem X8_most_and_least_consistent_model :
  forall (self : ConsistencyScorer) (model_samples : list (string * list Q)),
    NoDup (map fst model_samples) ->
    let result := (score_ensemble self model_samples).1 in
    map fst (model_scores result) = map fst model_samples
    /\ map (fun nm => consistency_score nm.2) (model_scores result)
       = map (fun ms => calculate_consistency self ms.2) model_samples
    /\ (model_samples = [] ->
        most_consistent_model result = None
        /\ least_consistent_model result = None)
    /\ (model_samples <> [] ->
        exists best worst best_samples worst_samples,
          most_consistent_model result = Some best
          /\ least_consistent_model result = Some worst
          /\ In (best, best_samples) model_samples
          /\ In (worst, worst_samples) model_samples
          /\ forall n samples, In (n, samples) model_samples ->
               calculate_consistency self worst_samples
               <= calculate_consistency self samples
               <= calculate_consistency self best_samples).
Proof.
  intros self ms Hnd result. subst result. unfold score_ensemble.
  destruct (score_ensemble_loop self ms Hnd [] [] self)
    as (s' & E & _); [reflexivity..|].
  rewrite E. cbn [app fst model_scores most_consistent_model
                  least_consistent_model].
  set (mm := map (fun ms => (ms.1, (score_model_samples self ms.1 ms.2).1))
                 ms).
  assert (Hkeys : map fst mm = map fst ms).
  { unfold mm. rewrite map_map. reflexivity. }
  assert (Hscore : forall n m, In (n, m) mm ->
            exists samples, In (n, samples) ms
                            /\ consistency_score m
                               = calculate_consistency self samples).
  { intros n m H. unfold mm in H. apply in_map_iff in H.
    destruct H as ([n' s] & [= <- <-] & Hin). exists s. split; [exact Hin|].
    reflexivity. }
  assert (Hmem : forall n samples, In (n, samples) ms ->
            In (n, (score_model_samples self n samples).1) mm).
  { intros n s H. unfold mm. apply in_map_iff. exists (n, s). auto. }
  split; [exact Hkeys|]. split.
  { unfold mm. rewrite map_map. reflexivity. }
  split.
  { intros ->. split; reflexivity. }
  intros Hne.
  assert (Hnd' : NoDup (map fst mm)) by (rewrite Hkeys; exact Hnd).
  pose proof (arg_best_spec (fun a b => Qltb b a)) as Hmax.
  pose proof (arg_best_spec Qltb) as Hmin.
  assert (Hasym : forall a b, Qltb a b = true -> Qltb b a = false).
  { intros a b H. apply Qltb_lt in H.
    destruct (Qltb b a) eqn:E'; [|reflexivity]. apply Qltb_lt in E'. lra. }
  assert (Hle : forall a b, Qltb a b = false <-> b <= a).
  { intros a b. split; intros H.
    - destruct (Qlt_le_dec a b) as [H1|H1]; [|exact H1].
      apply Qltb_lt in H1. congruence.
    - destruct (Qltb a b) eqn:E'; [|reflexivity]. apply Qltb_lt in E'. lra. }
  specialize (Hmax (fun a b H => Hasym b a H)).
  specialize (Hmin Hasym).
  assert (Hmax' := Hmax ltac:(intros a b c H1 H2; apply Hle in H1, H2;
                              apply Hle; lra) mm Hnd').
  assert (Hmin' := Hmin ltac:(intros a b c H1 H2; apply Hle in H1, H2;
                              apply Hle; lra) mm Hnd').
  clear Hmax Hmin.
  destruct (arg_best (fun a b => Qltb b a) mm) as [best|].
  2: { unfold mm in Hmax'. apply map_eq_nil in Hmax'. congruence. }
  destruct (arg_best Qltb mm) as [worst|].
  2: { unfold mm in Hmin'. apply map_eq_nil in Hmin'. congruence. }
  destruct Hmax' as (mb & Hb & Hbest). destruct Hmin' as (mw & Hw & Hworst).
  destruct (Hscore best mb Hb) as (sb & Hsb & Eb).
  destruct (Hscore worst mw Hw) as (sw & Hsw & Ew).
  exists best, worst, sb, sw.
  split; [reflexivity|]. split; [reflexivity|].
  split; [exact Hsb|]. split; [exact Hsw|].
  intros n s Hin. specialize (Hmem n s Hin).
  pose proof (Hbest _ _ Hmem) as H1. pose proof (Hworst _ _ Hmem) as H2.
  cbv beta in H1. apply Hle in H1, H2.
  rewrite Eb in H1. rewrite Ew in H2.
  unfold score_model_samples in H1, H2. cbn [fst consistency_score] in H1, H2.
  split; assumption.
Qed.

(** X10.  [score_ensemble] keeps the scorer's records in step with the
    batch: afterwards [consistency_scores] holds, for every model of
    the batch, the metrics just computed (score, sample count and
    confidence level), the model's list in [model_consistencies] has
    grown by exactly that score, and the records of models outside the
    batch are as before. *)
Theorem X10_score_ensemble_records :
  forall (self : ConsistencyScorer) (model_samples : list (string * list Q)),
    NoDup (map fst model_samples) ->
    let self' := (score_ensemble self model_samples).2 in
    scorer_method self' = scorer_method self
    /\ (forall n samples, In (n, samples) model_samples ->
          exists metrics,
            consistency_scores self' !! n = Some metrics
            /\ consistency_score metrics = calculate_consistency self samples
            /\ sample_count metrics = length samples
            /\ confidence_level metrics
               = _classify_confidence (calculate_consistency self samples)
            /\ model_consistencies self' !! n
               = Some (default [] (model_consistencies self !! n)
                       ++ [calculate_consistency self samples]))
    /\ (forall n, ~ In n (map fst model_samples) ->
          consistency_scores self' !! n = consistency_scores self !! n
          /\ model_consistencies self' !! n = model_consistencies self !! n).
Proof.
  intros self ms Hnd self'. subst self'. unfold score_ensemble.
  destruct (score_ensemble_loop self ms Hnd [] [] self)
    as (s' & E & Hm & Hin & Hout); [reflexivity..|].
  rewrite E. cbn [snd]. split; [exact Hm|]. split; [|exact Hout].
  intros n s H. destruct (Hin n s H) as [I1 I2].
  eexists. split; [exact I1|].
  unfold score_model_samples.
  cbn [fst consistency_score sample_count confidence_level].
  split; [reflexivity|]. split; [reflexivity|]. split; [reflexivity|exact I2].
Qed.
End ScoreEnsembleFacts.

Lemma X8_most_and_least_consistent_model_witness :
  let result :=
    (score_ensemble (L := rational_lib) (ConsistencyScorer_init "ensemble")
       [("a"%string, [20; 30; 25]); ("b"%string, [80; 10])]).1 in
  most_consistent_model result = Some "a"%string
  /\ least_consistent_model result = Some "b"%string
  /\ map fst (model_scores result) = ["a"; "b"]%string.
Proof.
  intros result.
  destruct (@X8_most_and_least_consistent_model rational_lib
              (ConsistencyScorer_init "ensemble")
              [("a"%string, [20; 30; 25]); ("b"%string, [80; 10])])
    as (Hk & _).
  - cbn [map fst]. apply NoDup_cons. split; [|apply NoDup_singleton].
    intros H. apply list_elem_of_singleton in H. discriminate H.
  - split; [vm_compute; reflexivity|]. split; [vm_compute; reflexivity|].
    exact Hk.
Defined.

Lemma X10_score_ensemble_records_witness :
  let self' :=
    (score_ensemble (L := rational_lib) (ConsistencyScorer_init "ensemble")
       [("a"%string, [20; 30; 25]); ("b"%string, [80; 10])]).2 in
  exists metrics,
    consistency_scores self' !! "a"%string = Some metrics
    /\ sample_count metrics = 3%nat.
Proof.
  intros self'.
  destruct (@X10_score_ensemble_records rational_lib
              (ConsistencyScorer_init "ensemble")
              [("a"%string, [20; 30; 25]); ("b"%string, [80; 10])])
    as (_ & Hin & _).
  - cbn [map fst]. apply NoDup_cons. split; [|apply NoDup_singleton].
    intros H. apply list_elem_of_singleton in H. discriminate H.
  - destruct (Hin "a"%string [20; 30; 25]) as (m & H1 & _ & H3 & _);
      [left; reflexivity|].
    exists m. split; [exact H1|exact H3].
Defined.


(** ** BatchCalibrator: fitting, ranges and batches *)

Section CalibratorFacts.
Context {L : SciLib}.

Lemma calibrate_fitted_range self p :
  is_fitted self = true -> 0 <= calibrate self p <= 100.
Proof.
  intros H. unfold calibrate. rewrite H. cbn [negb].
  apply np_clip_range. discriminate.
Qed.

Lemma fit_fitted self probabilities labels self' :
  fit self probabilities labels = Ok self' ->
  is_fitted self' = true
  /\ calibrator_method self' = calibrator_method self.
Proof.
  unfold fit.
  assert (Hs : forall labs s, _fit_supervised self probabilities labs = Ok s ->
                calibrator_method s = calibrator_method self).
  { intros labs s. unfold _fit_supervised.
    repeat match goal with
           | |- context [if ?b then _ else _] => destruct b
           | |- context [rbind ?r _] => destruct r; cbn [rbind]
           end; intros [= <-] || discriminate; reflexivity. }
  assert (Hu : forall s, _fit_unsupervised self probabilities = Ok s ->
                calibrator_method s = calibrator_method self).
  { intros s. unfold _fit_unsupervised.
    repeat match goal with
           | |- context [if ?b then _ else _] => destruct b
           | |- context [match ?l with [] => _ | _ :: _ => _ end] =>
               destruct l
           | |- context [rbind ?r _] => destruct r; cbn [rbind]
           end; intros [= <-] || discriminate; reflexivity. }
  destruct labels as [labs|].
  - destruct (_ =? _)%nat.
    + destruct (_fit_supervised _ _ _) as [s|e] eqn:E; [|discriminate].
      cbn [rbind]. intros [= <-]. split; [reflexivity|].
      cbn [with_fitted calibrator_method]. eapply Hs, E.
    + destruct (_fit_unsupervised _ _) as [s|e] eqn:E; [|discriminate].
      cbn [rbind]. intros [= <-]. split; [reflexivity|].
      cbn [with_fitted calibrator_method]. apply Hu. reflexivity.
  - destruct (_fit_unsupervised _ _) as [s|e] eqn:E; [|discriminate].
    cbn [rbind]. intros [= <-]. split; [reflexivity|].
    cbn [with_fitted calibrator_method]. apply Hu. reflexivity.
Qed.

Lemma calibrate_batch_result self probabilities out self' :
  calibrate_batch self probabilities = Ok (out, self') ->
  length out = length probabilities
  /\ is_fitted self' = true
  /\ calibrator_method self' = calibrator_method self
  /\ Forall (fun p => 0 <= p <= 100) out
  /\ out = map (calibrate self') probabilities
  /\ (is_fitted self = true -> self' = self).
Proof.
  unfold calibrate_batch. destruct (is_fitted self) eqn:Ef; cbn [negb].
  - cbn [rbind]. intros [= <- <-]. rewrite length_map.
    split; [reflexivity|]. split; [exact Ef|]. split; [reflexivity|].
    split; [|split; reflexivity].
    rewrite Forall_map. apply Forall_true. intros p.
    apply calibrate_fitted_range, Ef.
  - destruct (fit self probabilities None) as [s|e] eqn:E; [|discriminate].
    cbn [rbind]. intros [= <- <-]. destruct (fit_fitted _ _ _ _ E) as [F M].
    rewrite length_map.
    split; [reflexivity|]. split; [exact F|]. split; [exact M|].
    split; [|split; [reflexivity|discriminate]].
    rewrite Forall_map. apply Forall_true. intros p.
    apply calibrate_fitted_range, F.
Qed.


(** X12.  Fitting a temperature calibrator without labels cannot
    fail, marks it fitted, and leaves a temperature between 0.5 and
    2.0; with fewer than two probabilities the temperature is 1.0. *)
Theorem X12_unsupervised_temperature_clamped :
  forall (self : BatchCalibrator) (probabilities : list Q),
    calibrator_method self = "temperature"%string ->
    exists self',
      fit self probabilities None = Ok self'
      /\ is_fitted self' = true
      /\ calibrator_method self' = "temperature"%string
      /\ 0.5 <= temperature self' <= 2.0
      /\ ((length probabilities < 2)%nat -> temperature self' = 1.0).
Proof.
  intros self probs Hm. unfold fit, _fit_unsupervised. rewrite Hm.
  change (String.eqb "temperature" "temperature") with true. cbv iota.
  destruct (map np_var _) as [|v vs] eqn:Ev; cbn [rbind].
  - eexists. split; [reflexivity|]. split; [reflexivity|].
    split; [exact Hm|]. split; [split; discriminate|reflexivity].
  - eexists. split; [reflexivity|]. split; [reflexivity|].
    split; [exact Hm|]. cbn [with_fitted with_temperature temperature].
    split.
    + split; [apply Q.le_max_l|].
      apply Q.max_lub; [discriminate|apply Q.le_min_l].
    + intros Hlen. exfalso.
      assert (Hb : Forall (fun b : list Q => (length b < 2)%nat)
                          (_create_batches probs 10)).
      { unfold _create_batches.
        assert (Hs : (length (np_sort probs) < 2)%nat).
        { clear -Hlen. destruct probs as [|a [|b t]]; cbn in *; lia. }
        revert Hs. generalize (np_sort probs) as s. intros s Hs.
        destruct s as [|a [|b t]]; cbn in *; [constructor| |lia].
        repeat constructor. }
      revert Ev. generalize (_create_batches probs 10) Hb.
      intros bs Hbs. induction Hbs as [|b bs Hb' _ IH]; [discriminate|].
      cbn [List.filter]. apply Nat.ltb_ge in Hb' as Hb''.
      assert (E : (1 <? length b)%nat = false)
        by (apply Nat.ltb_ge; lia).
      rewrite E. exact IH.
Qed.
End CalibratorFacts.

Lemma X12_unsupervised_temperature_clamped_witness :
  exists self',
    fit (L := rational_lib) (BatchCalibrator_init "temperature")
        [30; 35; 90] None = Ok self'
    /\ is_fitted self' = true
    /\ 0.5 <= temperature self' <= 2.0.
Proof.
  destruct (@X12_unsupervised_temperature_clamped rational_lib
              (BatchCalibrator_init "temperature") [30; 35; 90] eq_refl)
    as (s & E & F & _ & T & _).
  exists s. auto.
Defined.


Lemma insert_sorted_perm x (l : list Q) :
  Permutation (insert_sorted x l) (x :: l).
Proof.
  induction l as [|y l IH]; cbn [insert_sorted]; [reflexivity|].
  destruct (Qle_bool x y); [reflexivity|].
  rewrite IH. apply perm_swap.
Qed.

Lemma np_sort_perm (l : list Q) : Permutation (np_sort l) l.
Proof.
  induction l as [|x l IH]; cbn [np_sort fold_right]; [reflexivity|].
  fold (np_sort l). rewrite insert_sorted_perm, IH. reflexivity.
Qed.

Lemma insert_sorted_sorted x (l : list Q) :
  StronglySorted Qle l -> StronglySorted Qle (insert_sorted x l).
Proof.
  induction 1 as [|y l Hl IH Hy]; cbn [insert_sorted].
  - repeat constructor.
  - destruct (Qle_bool x y) eqn:E.
    + apply Qle_bool_iff in E. constructor; [constructor; assumption|].
      constructor; [exact E|].
      eapply Forall_impl; [exact Hy|]. intros z Hz. cbv beta in *. lra.
    + apply Qle_bool_false in E. constructor; [exact IH|].
      eapply Permutation_Forall; [symmetry; apply insert_sorted_perm|].
      constructor; [lra|exact Hy].
Qed.

Lemma np_sort_sorted (l : list Q) : StronglySorted Qle (np_sort l).
Proof.
  induction l as [|x l IH]; cbn [np_sort fold_right]; [constructor|].
  apply insert_sorted_sorted, IH.
Qed.

Lemma chunks_spec {A} (n : nat) :
  (0 < n)%nat ->
  forall fuel (l : list A),
    (length l <= fuel)%nat ->
    concat (chunks fuel n l) = l
    /\ Forall (fun b => (0 < length b <= n)%nat) (chunks fuel n l).
Proof.
  intros Hn. induction fuel as [|fuel IH]; intros l Hl.
  - destruct l; [|cbn in Hl; lia]. split; [reflexivity|constructor].
  - destruct l as [|x l]; [split; [reflexivity|constructor]|].
    cbn [chunks].
    destruct (IH (drop n (x :: l))) as [I1 I2].
    { rewrite length_drop. cbn [length] in *. lia. }
    split.
    + cbn [concat]. rewrite I1. apply take_drop.
    + constructor; [|exact I2]. rewrite length_take. cbn [length]. lia.
Qed.

(** X13.  For a positive batch size [_create_batches] loses and
    invents nothing: the batches are not empty, none is longer than the
    batch size, and read in order they are the input sorted in
    ascending order. *)
Theorem X13_create_batches_partition :
  forall (probabilities : list Q) (batch_size : nat),
    (0 < batch_size)%nat ->
    let batches := _create_batches probabilities batch_size in
    concat batches = np_sort probabilities
    /\ Permutation (concat batches) probabilities
    /\ StronglySorted Qle (concat batches)
    /\ Forall (fun b => (0 < length b <= batch_size)%nat) batches.
Proof.
  intros probs n Hn batches. subst batches. unfold _create_batches.
  destruct (chunks_spec n Hn (length (np_sort probs)) (np_sort probs))
    as [H1 H2]; [lia|].
  rewrite H1. split; [reflexivity|]. split; [apply np_sort_perm|].
  split; [apply np_sort_sorted|exact H2].
Qed.

Lemma X13_create_batches_partition_witness :
  _create_batches [30; 10; 20] 2 = [[10; 20]; [30]]
  /\ Permutation (concat (_create_batches [30; 10; 20] 2)) [30; 10; 20].
Proof.
  split; [reflexivity|].
  apply (X13_create_batches_partition [30; 10; 20] 2). lia.
Defined.

(** ** MultiModelCalibrator *)

Section MultiCalibratorFacts.
Context {L : SciLib}.

Lemma dict_set_keys_fresh {V} (d : list (string * V)) k v :
  ~ In k (map fst d) -> map fst (dict_set d k v) = map fst d ++ [k].
Proof.
  intros H. rewrite dict_set_fresh by (apply dict_get_None, H).
  rewrite map_app. reflexivity.
Qed.

Lemma dict_get_set_eq {V} (d : list (string * V)) k v :
  dict_get (dict_set d k v) k = Some v.
Proof.
  induction d as [|[k' v'] d IH]; cbn [dict_set dict_get].
  - rewrite String.eqb_refl. reflexivity.
  - destruct (String.eqb k' k) eqn:E; cbn [dict_get]; rewrite E;
      [reflexivity|exact IH].
Qed.

Lemma dict_get_set_ne {V} (d : list (string * V)) k k' v :
  k <> k' -> dict_get (dict_set d k v) k' = dict_get d k'.
Proof.
  intros Hne. induction d as [|[k0 v0] d IH]; cbn [dict_set dict_get].
  - apply String.eqb_neq in Hne. rewrite Hne. reflexivity.
  - destruct (String.eqb k0 k) eqn:E; cbn [dict_get].
    + apply String.eqb_eq in E. subst k0.
      apply String.eqb_neq in Hne. rewrite Hne. reflexivity.
    + rewrite IH. reflexivity.
Qed.

Lemma calibrate_ensemble_loop_spec (items : list (string * list Q)) :
  NoDup (map fst items) ->
  forall calibrators acc,
    (forall name c, calibrators !! name = Some c ->
                    calibrator_method c = "temperature"%string) ->
    (forall name, In name (map fst items) -> ~ In name (map fst acc)) ->
    exists out calibrators',
      calibrate_ensemble_loop calibrators items acc = Ok (out, calibrators')
      /\ map fst out = map fst acc ++ map fst items
      /\ (forall name c, calibrators' !! name = Some c ->
                         calibrator_method c = "temperature"%string)
      /\ (forall name predictions, In (name, predictions) items ->
            exists c calibrated,
              calibrators' !! name = Some c /\ is_fitted c = true
              /\ dict_get out name = Some calibrated
              /\ calibrated = map (calibrate c) predictions)
      /\ (forall name v, ~ In name (map fst items) ->
            dict_get acc name = Some v -> dict_get out name = Some v)
      /\ (forall name, ~ In name (map fst items) ->
            calibrators' !! name = calibrators !! name).
Proof.
  induction items as [|[name predictions] rest IH];
    intros Hnd calibrators acc Hok Hfresh.
  - exists acc, calibrators. cbn [calibrate_ensemble_loop map].
    rewrite app_nil_r. split; [reflexivity|]. split; [reflexivity|].
    split; [exact Hok|]. split; [intros n p []|]. split; auto.
  - cbn [map fst] in Hnd. apply NoDup_cons in Hnd.
    destruct Hnd as [Hname Hnd].
    assert (Hname' : ~ In name (map fst rest)).
    { intros H. apply Hname, list_elem_of_In, H. }
    cbn [calibrate_ensemble_loop].
    set (calibrator := match calibrators !! name with
                       | Some c => c
                       | None => BatchCalibrator_init "temperature"
                       end).
    assert (Hmc : calibrator_method calibrator = "temperature"%string).
    { unfold calibrator. destruct (calibrators !! name) as [c|] eqn:E;
        [apply (Hok name c E)|reflexivity]. }
    destruct (calibrate_batch_temperature_ok calibrator predictions Hmc)
      as (calibrated & c' & Ecal).
    rewrite Ecal. cbn [rbind].
    destruct (calibrate_batch_result _ _ _ _ Ecal)
      as (_ & Hfit & Hm' & _ & Eout & _).
    assert (Hkeys : map fst (dict_set acc name calibrated)
                    = map fst acc ++ [name]).
    { apply dict_set_keys_fresh, Hfresh. left. reflexivity. }
    destruct (IH Hnd (<[name := c']> calibrators)
                 (dict_set acc name calibrated))
      as (out & cs' & E & K & Ok' & Hin & Hacc & Hout).
    + intros n c. destruct (decide (name = n)) as [->|Hne].
      * rewrite lookup_insert_eq. intros [= <-]. congruence.
      * rewrite lookup_insert_ne by exact Hne. apply Hok.
    + intros n Hn. rewrite Hkeys. intros H. apply in_app_or in H.
      destruct H as [H|[H|[]]].
      * revert H. apply Hfresh. right. exact Hn.
      * subst n. contradiction.
    + exists out, cs'. split; [exact E|]. split.
      { rewrite K, Hkeys. cbn [map fst]. rewrite <- app_assoc. reflexivity. }
      split; [exact Ok'|]. split; [|split].
      * intros n p [H|H].
        -- injection H as <- <-. exists c', calibrated.
           rewrite (Hout name Hname'), lookup_insert_eq.
           split; [reflexivity|]. split; [exact Hfit|].
           split; [|exact Eout].
           apply (Hacc name calibrated Hname'), dict_get_set_eq.
        -- apply Hin, H.
      * intros n v Hn Hv. cbn [map fst In] in Hn.
        apply Hacc; [tauto|].
        rewrite dict_get_set_ne by tauto. exact Hv.
      * intros n Hn. cbn [map fst In] in Hn.
        rewrite Hout by tauto. apply lookup_insert_ne. tauto.
Qed.
End MultiCalibratorFacts.

Section MultiCalibratorContract.
Context {L : SciLib}.

(** X14.  For models with distinct names and stored calibrators that
    scale by temperature (as [fit_model] and [calibrate_ensemble] store
    them), [calibrate_ensemble] cannot fail: it returns the models in
    their order, one calibrated value in [0,100] per prediction, and
    afterwards every model of the batch has a fitted calibrator that
    reproduces its calibrated values; calibrators of other models are
    not touched. *)
Theorem X14_calibrate_ensemble_contract :
  forall (self : MultiModelCalibrator)
         (model_predictions : list (string * list Q)),
    calibrators_ok self ->
    NoDup (map fst model_predictions) ->
    exists out self',
      calibrate_ensemble self model_predictions = Ok (out, self')
      /\ calibrators_ok self'
      /\ map fst out = map fst model_predictions
      /\ (forall name predictions, In (name, predictions) model_predictions ->
            exists c calibrated,
              model_calibrators self' !! name = Some c
              /\ is_fitted c = true
              /\ dict_get out name = Some calibrated
              /\ calibrated = map (calibrate c) predictions
              /\ length calibrated = length predictions
              /\ Forall (fun p => 0 <= p <= 100) calibrated)
      /\ (forall name, ~ In name (map fst model_predictions) ->
            model_calibrators self' !! name = model_calibrators self !! name).
Proof.
  intros self mps Hok Hnd. unfold calibrate_ensemble.
  destruct (calibrate_ensemble_loop_spec mps Hnd (model_calibrators self) [])
    as (out & cs' & E & K & Ok' & Hin & _ & Hout).
  - exact Hok.
  - intros name _ [].
  - rewrite E. cbn [rbind fst snd]. exists out. eexists.
    split; [reflexivity|]. split; [exact Ok'|]. split; [exact K|].
    split; [|exact Hout].
    intros name predictions H.
    destruct (Hin name predictions H) as (c & cal & H1 & H2 & H3 & H4).
    exists c, cal. cbn [model_calibrators].
    split; [exact H1|]. split; [exact H2|]. split; [exact H3|].
    split; [exact H4|]. subst cal. rewrite length_map.
    split; [reflexivity|].
    rewrite Forall_map. apply Forall_true. intros p.
    apply calibrate_fitted_range, H2.
Qed.
End MultiCalibratorContract.

Lemma X14_calibrate_ensemble_contract_witness :
  exists out self',
    calibrate_ensemble (L := rational_lib) MultiModelCalibrator_init
      [("a"%string, [30; 35]); ("b"%string, [150])] = Ok (out, self')
    /\ map fst out = ["a"; "b"]%string.
Proof.
  destruct (@X14_calibrate_ensemble_contract rational_lib
              MultiModelCalibrator_init
              [("a"%string, [30; 35]); ("b"%string, [150])])
    as (out & self' & E & _ & K & _).
  - intros name c H. cbn [MultiModelCalibrator_init model_calibrators] in H.
    rewrite lookup_empty in H. discriminate H.
  - cbn [map fst]. apply NoDup_cons. split; [|apply NoDup_singleton].
    intros H. apply list_elem_of_singleton in H. discriminate H.
  - exists out, self'. split; [exact E|exact K].
Defined.


(** ** OpenRouterClient: the cache and the requests *)

Lemma string_app_assoc (a b c : string) :
  String.append (String.append a b) c = String.append a (String.append b c).
Proof.
  induction a as [|x a IH]; [reflexivity|].
  change (String x (String.append (String.append a b) c)
          = String x (String.append a (String.append b c))).
  rewrite IH. reflexivity.
Qed.



(** X20.  The model-specific floors never lower a requested
    [max_tokens], never raise it above 10000 unless more was asked for,
    and applying them twice changes nothing. *)
Theorem X20_max_tokens_floor :
  forall (model : string) (max_tokens : Z),
    (max_tokens <= adjust_max_tokens model max_tokens)%Z
    /\ (adjust_max_tokens model max_tokens <= Z.max max_tokens 10000)%Z
    /\ adjust_max_tokens model (adjust_max_tokens model max_tokens)
       = adjust_max_tokens model max_tokens
    /\ ((10000 <= max_tokens)%Z ->
        adjust_max_tokens model max_tokens = max_tokens).
Proof.
  intros model max_tokens. unfold adjust_max_tokens.
  repeat match goal with
         | |- context [if ?b then _ else _] => destruct b
         end; lia.
Qed.

Section ClientFacts.
Variable transport : nat -> Request -> Outcome.

(** What a call of [query_model] does to the client. *)
Lemma query_model_effect :
  forall (self : OpenRouterClient) (model prompt : string)
         (temperature : Q) (max_tokens : Z)
         (enable_web_search force_refresh : bool),
    let '(reply, self') :=
      query_model transport self model prompt temperature max_tokens
                  enable_web_search force_refresh in
    (reply_source reply = Some "cache"%string ->
     self' = self /\ force_refresh = false)
    /\ (reply_source reply <> Some "cache"%string ->
        requests_sent self' = S (requests_sent self)
        /\ cache_ttl self' = cache_ttl self
        /\ (reply_status reply <> success -> cache self' = cache self)
        /\ (reply_status reply = success ->
            forall c, cache self = Some c ->
              cache self'
              = Some (cache_set c (now self') (cache_ttl self) model prompt
                                reply)))
    /\ (force_refresh = true -> reply_source reply <> Some "cache"%string).
Proof.
  intros self model prompt temperature max_tokens web force.
  unfold query_model.
  destruct (match cache self with
            | Some c => if negb force
                        then cache_get c (now self) model prompt else None
            | None => None
            end) as [cached|] eqn:Ecached.
  - assert (Hf : force = false).
    { destruct (cache self); [|discriminate].
      destruct force; [discriminate|reflexivity]. }
    split; [intros _; split; [reflexivity|exact Hf]|].
    split; [cbn [with_source reply_source]; congruence|].
    rewrite Hf. discriminate.
  - cbv zeta.
    destruct (transport (requests_sent self) _) as [resp el|el|msg el].
    + destruct (match choices resp with
                | Some c => c | None => Some EmptyString end)
        as [text|] eqn:Econtent.
      * destruct (String.length text <? 10)%nat eqn:Elen.
        -- split; [cbn [reply_source]; discriminate|].
           split; [|cbn [reply_source]; discriminate].
           intros _. cbn [tick requests_sent cache cache_ttl reply_status].
           split; [reflexivity|]. split; [reflexivity|].
           split; [reflexivity|discriminate].
        -- split; [cbn [reply_source]; discriminate|].
           split; [|cbn [reply_source]; discriminate].
           intros _. cbn [tick requests_sent cache cache_ttl reply_status now].
           split; [reflexivity|]. split; [reflexivity|].
           destruct (existsb _ rejection_patterns).
           ++ split; [|discriminate]. intros _.
              destruct (cache self); reflexivity.
           ++ split; [congruence|]. intros _ c Ec. rewrite Ec. reflexivity.
      * split; [cbn [reply_source]; discriminate|].
        split; [|cbn [reply_source]; discriminate].
        intros _. cbn [tick requests_sent cache cache_ttl reply_status].
        split; [reflexivity|]. split; [reflexivity|].
        split; [reflexivity|discriminate].
    + split; [cbn [error_reply reply_source]; discriminate|].
      split; [|cbn [error_reply reply_source]; discriminate].
      intros _.
      cbn [tick requests_sent cache cache_ttl error_reply reply_status].
      split; [reflexivity|]. split; [reflexivity|].
      split; [reflexivity|discriminate].
    + split; [cbn [error_reply reply_source]; discriminate|].
      split; [|cbn [error_reply reply_source]; discriminate].
      intros _.
      cbn [tick requests_sent cache cache_ttl error_reply reply_status].
      split; [reflexivity|]. split; [reflexivity|].
      split; [reflexivity|]. intros H. exfalso.
      exact (classify_error_not_success _ H).
Qed.

(** X19.  [query_model] stores nothing but successes.  A reply comes
    either from the cache, and then the client is left as it was and no
    request is sent, or from exactly one request; only a reply with
    status success changes the cache, by storing that reply under the
    key of its model and prompt, and a forced refresh is never answered
    by the cache. *)
Theorem X19_only_successes_are_cached :
  forall (self : OpenRouterClient) (model prompt : string)
         (temperature : Q) (max_tokens : Z)
         (enable_web_search force_refresh : bool),
    let '(reply, self') :=
      query_model transport self model prompt temperature max_tokens
                  enable_web_search force_refresh in
    (reply_source reply = Some "cache"%string ->
     self' = self /\ force_refresh = false)
    /\ (reply_source reply <> Some "cache"%string ->
        requests_sent self' = S (requests_sent self)
        /\ cache_ttl self' = cache_ttl self
        /\ (reply_status reply <> success -> cache self' = cache self)
        /\ (reply_status reply = success ->
            forall c, cache self = Some c ->
              cache self'
              = Some (cache_set c (now self') (cache_ttl self) model prompt
                                reply)))
    /\ (force_refresh = true -> reply_source reply <> Some "cache"%string).
Proof. exact query_model_effect. Qed.

(** A reply with status success comes from the cache or from the
    service. *)
Lemma query_model_success_source (self : OpenRouterClient)
    (model prompt : string) (temperature : Q) (max_tokens : Z)
    (web force : bool) :
  let reply :=
    (query_model transport self model prompt temperature max_tokens web
                 force).1 in
  reply_status reply = success ->
  reply_source reply = Some "cache"%string
  \/ reply_source reply = Some "api"%string.
Proof.
  unfold query_model.
  destruct (match cache self with
            | Some c => if negb force
                        then cache_get c (now self) model prompt else None
            | None => None
            end) as [cached|]; [left; reflexivity|].
  cbv zeta.
  destruct (transport (requests_sent self) _) as [resp el|el|msg el].
  - destruct (match choices resp with
              | Some c => c | None => Some EmptyString end) as [text|].
    + destruct (String.length text <? 10)%nat; right; reflexivity.
    + right; reflexivity.
  - cbn [fst error_reply reply_status]. discriminate.
  - cbn [fst error_reply reply_status]. intros H. exfalso.
    exact (classify_error_not_success _ H).
Qed.

(** A query that finds an unexpired response under its key returns it. *)
Lemma query_model_hit (self : OpenRouterClient) (model prompt : string)
    (temperature : Q) (max_tokens : Z) (web : bool) c e :
  cache self = Some c ->
  c !! cache_key model prompt = Some e ->
  now self < entry_expires_at e ->
  query_model transport self model prompt temperature max_tokens web false
  = (with_source (entry_response e) "cache", self).
Proof.
  intros Ec Ee Ht. unfold query_model. rewrite Ec. cbn [negb].
  unfold cache_get. rewrite Ee, (proj2 (Qltb_lt _ _) Ht). reflexivity.
Qed.
End ClientFacts.

(** A stored success answers the next query for its model and prompt. *)
Lemma repeated_query_hit :
  forall (transport transport' : nat -> Request -> Outcome)
         (self : OpenRouterClient) (model prompt : string)
         (temperature temperature' : Q) (max_tokens max_tokens' : Z)
         (enable_web_search enable_web_search' force_refresh : bool),
    is_Some (cache self) ->
    0 < cache_ttl self ->
    let '(reply, self') :=
      query_model transport self model prompt temperature max_tokens
                  enable_web_search force_refresh in
    reply_source reply = Some "api"%string ->
    reply_status reply = success ->
    query_model transport' self' model prompt temperature' max_tokens'
                enable_web_search' false
    = (with_source reply "cache", self').
Proof.
  intros transport transport' self model prompt t t' mt mt' web web' force
         [c Ec] Httl.
  pose proof (query_model_effect transport self model prompt
                t mt web force) as H.
  destruct (query_model transport self model prompt t mt web force)
    as [reply self'].
  destruct H as (_ & H & _). intros Hsrc Hst.
  destruct H as (_ & Ettl & _ & Hc); [congruence|].
  specialize (Hc Hst c Ec).
  apply (query_model_hit transport' self' model prompt t' mt' web' _
           {| entry_response := reply; entry_created_at := now self';
              entry_expires_at := now self' + cache_ttl self |} Hc).
  - unfold cache_set. apply lookup_insert_eq.
  - cbn [entry_expires_at]. lra.
Qed.

(** X18.  With the cache on and a positive time to live, a reply with
    status success that came from the service is served again to the
    next query for the same model and prompt: that query gets the same
    reply marked as from the cache, sends no request and leaves the
    client as it is, whatever the service would answer and whatever
    its temperature, [max_tokens] and web-search arguments are. *)
Theorem X18_repeated_query_served_from_cache :
  forall (transport transport' : nat -> Request -> Outcome)
         (self : OpenRouterClient) (model prompt : string)
         (temperature temperature' : Q) (max_tokens max_tokens' : Z)
         (enable_web_search enable_web_search' force_refresh : bool),
    is_Some (cache self) ->
    0 < cache_ttl self ->
    let '(reply, self') :=
      query_model transport self model prompt temperature max_tokens
                  enable_web_search force_refresh in
    reply_source reply = Some "api"%string ->
    reply_status reply = success ->
    query_model transport' self' model prompt temperature' max_tokens'
                enable_web_search' false
    = (with_source reply "cache", self').
Proof. exact repeated_query_hit. Qed.

Ltac not_cached :=
  let H := fresh in let Hs := fresh in
  intros H Hs; apply (f_equal fst) in H; cbn [fst] in H;
  rewrite <- H in Hs; discriminate Hs.

(** A reply from the cache does not depend on the service. *)
Lemma query_model_cached_again
    (transport transport' : nat -> Request -> Outcome)
    (self s1 : OpenRouterClient) (model prompt : string)
    (t t' : Q) (mt mt' : Z) (web web' force : bool) reply :
  query_model transport self model prompt t mt web force = (reply, s1) ->
  reply_source reply = Some "cache"%string ->
  query_model transport' self model prompt t' mt' web' false = (reply, self).
Proof.
  unfold query_model.
  destruct (cache self) as [c|].
  - destruct force; cbn [negb].
    + cbv zeta. destruct (transport _ _) as [resp el|el|msg el].
      * destruct (match choices resp with
                  | Some c0 => c0 | None => Some EmptyString end)
          as [text|].
        -- destruct (_ <? _)%nat; not_cached.
        -- not_cached.
      * not_cached.
      * not_cached.
    + destruct (cache_get c (now self) model prompt) as [cached|].
      * intros [= <- _] _. reflexivity.
      * cbv zeta. destruct (transport _ _) as [resp el|el|msg el].
        -- destruct (match choices resp with
                  | Some c0 => c0 | None => Some EmptyString end)
          as [text|].
           ++ destruct (_ <? _)%nat; not_cached.
           ++ not_cached.
        -- not_cached.
        -- not_cached.
  - cbv zeta. destruct (transport _ _) as [resp el|el|msg el].
    + destruct (match choices resp with
                  | Some c0 => c0 | None => Some EmptyString end)
          as [text|].
      * destruct (_ <? _)%nat; not_cached.
      * not_cached.
    + not_cached.
    + not_cached.
Qed.


Lemma X18_repeated_query_served_from_cache_witness :
  let first :=
    query_model friendly_service (OpenRouterClient_init true 0)
                "openai/gpt-4" "Will it rain?" 0.7 1000 true false in
  query_model unavailable_service first.2 "openai/gpt-4" "Will it rain?"
              0.2 50 false false
  = (with_source first.1 "cache", first.2).
Proof.
  intros first.
  pose proof (X18_repeated_query_served_from_cache friendly_service
                unavailable_service (OpenRouterClient_init true 0)
                "openai/gpt-4" "Will it rain?" 0.7 0.2 1000 50 true false
                false) as H.
  assert (Hs : reply_source first.1 = Some "api"%string)
    by (vm_compute; reflexivity).
  assert (Ht : reply_status first.1 = success) by (vm_compute; reflexivity).
  subst first.
  destruct (query_model friendly_service _ _ _ _ _ _ _) as [reply s'].
  cbn [fst snd] in *. apply H; [eexists; reflexivity|reflexivity| |];
    assumption.
Defined.

Lemma X19_only_successes_are_cached_witness :
  let '(reply, self') :=
    query_model unavailable_service (OpenRouterClient_init true 0)
                "openai/gpt-4" "Will it rain?" 0.7 1000 true false in
  requests_sent self' = 1%nat
  /\ cache self' = cache (OpenRouterClient_init true 0).
Proof.
  pose proof (X19_only_successes_are_cached unavailable_service
                (OpenRouterClient_init true 0) "openai/gpt-4"
                "Will it rain?" 0.7 1000 true false) as H.
  assert (Hs : reply_source
                 (query_model unavailable_service
                    (OpenRouterClient_init true 0) "openai/gpt-4"
                    "Will it rain?" 0.7 1000 true false).1
               <> Some "cache"%string) by (vm_compute; discriminate).
  assert (Ht : reply_status
                 (query_model unavailable_service
                    (OpenRouterClient_init true 0) "openai/gpt-4"
                    "Will it rain?" 0.7 1000 true false).1
               <> success) by (vm_compute; discriminate).
  destruct (query_model unavailable_service _ _ _ _ _ _ _) as [reply s'].
  cbn [fst] in *. destruct H as (_ & H & _).
  destruct (H Hs) as (H1 & _ & H3 & _). split; [exact H1|exact (H3 Ht)].
Defined.

Lemma X20_max_tokens_floor_witness :
  adjust_max_tokens "google/gemma-2-9b-it:free" 12000 = 12000%Z
  /\ adjust_max_tokens "google/gemma-2-9b-it:free" 4000 = 8000%Z.
Proof.
  split; [|vm_compute; reflexivity].
  apply (X20_max_tokens_floor "google/gemma-2-9b-it:free" 12000). lia.
Defined.



(** ** EnsembleManager: the batch under any client *)

Lemma map_as_fmap {A B} (f : A -> B) (l : list A) : map f l = f <$> l.
Proof. induction l as [|x l IH]; [reflexivity|]. cbn. rewrite IH. reflexivity. Qed.

Section BatchFacts.
Context {L : SciLib}.
Variable ClientState : Type.
Variable client_query :
  ClientState -> string -> string -> bool -> option Z ->
  result Reply * ClientState.
Variable clock : ClientState -> Q.
Variable make_prompt :
  bool -> string -> string -> option string -> option string -> string.
Variable mock_sample : nat -> Q * Q.

Lemma limited_query_numbered model prompt task_id i st progress :
  let '(r, _, progress') :=
    limited_query ClientState client_query model prompt task_id i st progress
  in
  (forall reply, r = Ok reply -> reply_iteration reply = Some (i + 1)%nat)
  /\ length progress' = length progress
  /\ forall id, id <> task_id -> completed progress' id = completed progress id.
Proof.
  unfold limited_query.
  destruct (client_query st model prompt true None) as [[r1|e1] st1].
  - destruct (bool_decide (reply_status r1 = empty_response)
              && contains ":free" model).
    + destruct (client_query st1 model prompt true (Some 10000%Z))
        as [[r2|e2] st2].
      * split; [intros reply [= <-]; reflexivity|].
        split; [apply length_progress_update|].
        intros id Hid. apply completed_update_other. congruence.
      * split; [discriminate|]. split; reflexivity.
    + split; [intros reply [= <-]; reflexivity|].
      split; [apply length_progress_update|].
      intros id Hid. apply completed_update_other. congruence.
  - split; [discriminate|]. split; reflexivity.
Qed.

Lemma run_iterations_numbered model prompt task_id iterations st progress :
  let '(results, _, progress') :=
    run_iterations ClientState client_query model prompt task_id iterations
                   st progress in
  length results = iterations
  /\ (forall i reply, results !! i = Some (Ok reply) ->
                      reply_iteration reply = Some (i + 1)%nat)
  /\ length progress' = length progress
  /\ forall id, id <> task_id -> completed progress' id = completed progress id.
Proof.
  unfold run_iterations.
  assert (G : forall k a acc st0 p0,
             length acc = a ->
             (forall i reply, acc !! i = Some (Ok reply) ->
                              reply_iteration reply = Some (i + 1)%nat) ->
             let '(results, _, progress') :=
               fold_left
                 (fun '(results, st, progress) i =>
                    let '(result, st', progress') :=
                      limited_query ClientState client_query model prompt
                                    task_id i st progress in
                    (results ++ [result], st', progress'))
                 (seq a k) (acc, st0, p0) in
             length results = (a + k)%nat
             /\ (forall i reply, results !! i = Some (Ok reply) ->
                                 reply_iteration reply = Some (i + 1)%nat)
             /\ length progress' = length p0
             /\ forall id, id <> task_id ->
                           completed progress' id = completed p0 id).
  { induction k as [|k IH]; intros a acc st0 p0 Hlen Hacc;
      cbn [seq fold_left].
    - split; [lia|]. split; [exact Hacc|]. split; reflexivity.
    - pose proof (limited_query_numbered model prompt task_id a st0 p0) as Hq.
      destruct (limited_query ClientState client_query model prompt task_id
                              a st0 p0) as [[r st1] p1].
      destruct Hq as (Hr & Hl & Hc).
      specialize (IH (S a) (acc ++ [r]) st1 p1).
      destruct (fold_left _ (seq (S a) k) (acc ++ [r], st1, p1))
        as [[results st2] p2].
      destruct IH as (I1 & I2 & I3 & I4).
      + rewrite length_app. cbn [length]. lia.
      + intros i reply Hi.
        destruct (decide (i < length acc)%nat) as [Hlt|Hge].
        * rewrite lookup_app_l in Hi by exact Hlt. apply Hacc, Hi.
        * rewrite lookup_app_r in Hi by lia.
          destruct (i - length acc)%nat as [|j] eqn:Ej; [|discriminate].
          cbn in Hi. injection Hi as Hi.
          assert (i = a) by lia. subst i. apply Hr, Hi.
      + split; [lia|]. split; [exact I2|]. split; [congruence|].
        intros id Hid. rewrite I4, Hc by exact Hid. reflexivity. }
  specialize (G iterations 0%nat [] st progress eq_refl).
  destruct (fold_left _ (seq 0 iterations) ([], st, progress))
    as [[results st'] progress'].
  destruct G as (G1 & G2 & G3 & G4); [intros i reply H; discriminate H|].
  auto.
Qed.

Lemma to_valid_results_numbered model t (results : list (result Reply)) :
  (forall i reply, results !! i = Some (Ok reply) ->
                   reply_iteration reply = Some (i + 1)%nat) ->
  map reply_iteration (to_valid_results model t results)
  = map (fun i => Some (i + 1)%nat) (seq 0 (length results)).
Proof.
  intros H. unfold to_valid_results. rewrite !map_as_fmap.
  apply list_eq. intros i.
  rewrite !list_lookup_fmap, list_lookup_imap.
  destruct (results !! i) as [r|] eqn:E.
  - rewrite lookup_seq_lt by (eapply lookup_lt_Some; exact E).
    cbn. destruct r as [reply|e]; [|reflexivity].
    rewrite (H i reply E). reflexivity.
  - rewrite lookup_seq_ge by (apply lookup_ge_None; exact E). reflexivity.
Qed.

Lemma mock_reply_fields model t i :
  let r := mock_reply mock_sample model t i in
  reply_iteration r = Some (i + 1)%nat
  /\ reply_status r = success
  /\ reply_source r = Some "dry_run"%string
  /\ exists p, reply_probability r = Some p /\ 5 <= p <= 95.
Proof.
  unfold mock_reply. destruct (mock_sample i) as [base rt].
  cbn [reply_iteration reply_status reply_source reply_probability].
  split; [reflexivity|]. split; [reflexivity|]. split; [reflexivity|].
  eexists. split; [reflexivity|]. split; [apply Q.le_max_l|].
  apply Q.max_lub; [discriminate|apply Q.le_min_l].
Qed.

(** One model: exactly [iterations] replies, numbered from 1. *)
Lemma run_model_batch_numbered self model prompt iterations task_id st
    progress :
  let '(replies, _, progress') :=
    _run_model_batch ClientState client_query clock mock_sample self model
                     prompt iterations task_id st progress in
  map reply_iteration replies
  = map (fun i => Some (i + 1)%nat) (seq 0 iterations)
  /\ length progress' = length progress
  /\ forall id, id <> task_id -> completed progress' id = completed progress id.
Proof.
  unfold _run_model_batch. destruct (dry_run self).
  - split; [|split].
    + rewrite map_map. apply map_ext. intros i.
      apply (mock_reply_fields model (clock st) i).
    + apply length_progress_update.
    + intros id Hid. apply completed_update_other. congruence.
  - pose proof (run_iterations_numbered model prompt task_id iterations st
                  progress) as H.
    destruct (run_iterations ClientState client_query model prompt task_id
                             iterations st progress) as [[results st'] p'].
    destruct H as (H1 & H2 & H3 & H4).
    split; [|split; assumption].
    rewrite (to_valid_results_numbered model (clock st') results H2), H1.
    reflexivity.
Qed.

Lemma run_models_numbered self prompt (models : list string) iterations st
    progress :
  (0 < length progress)%nat ->
  let '(replies, _, progress') :=
    run_models ClientState client_query clock mock_sample self prompt models
               iterations 0 st progress in
  map reply_iteration replies
  = flat_map (fun _ : string =>
                map (fun i => Some (i + 1)%nat) (seq 0 iterations)) models
  /\ map reply_ensemble_id replies
     = flat_map (fun model =>
                   map (fun i => Some (ensemble_id_of model (i + 1)))
                       (seq 0 iterations)) models
  /\ completed progress' 0
     = (completed progress 0 + length models * iterations)%nat.
Proof.
  unfold run_models.
  assert (G : forall (ms : list string) acc st0 p0,
             (0 < length p0)%nat ->
             let '(replies, _, progress') :=
               fold_left
                 (fun '(all_results, st, progress) model =>
                    let '(model_task, progress) :=
                      add_task progress model iterations in
                    let '(model_results, st, progress) :=
                      _run_model_batch ClientState client_query clock
                        mock_sample self model prompt iterations model_task
                        st progress in
                    let progress := progress_update progress 0 iterations in
                    let model_results :=
                      map (fun r =>
                             with_ensemble_id r
                               (ensemble_id_of model
                                  (default 0%nat (reply_iteration r))))
                          model_results in
                    (all_results ++ model_results, st, progress))
                 ms (acc, st0, p0) in
             map reply_iteration replies
             = map reply_iteration acc
               ++ flat_map (fun _ : string =>
                              map (fun i => Some (i + 1)%nat)
                                  (seq 0 iterations)) ms
             /\ map reply_ensemble_id replies
                = map reply_ensemble_id acc
                  ++ flat_map (fun model =>
                       map (fun i => Some (ensemble_id_of model (i + 1)))
                           (seq 0 iterations)) ms
             /\ completed progress' 0
                = (completed p0 0 + length ms * iterations)%nat).
  { induction ms as [|m ms IH]; intros acc st0 p0 Hp0; cbn [fold_left].
    - cbn [flat_map]. rewrite !app_nil_r. split; [reflexivity|].
      split; [reflexivity|]. cbn. lia.
    - pose proof (completed_add_task p0 m iterations 0 Hp0) as Hadd.
      unfold add_task in *. cbn [snd] in Hadd.
      set (p1 := p0 ++ [_]) in *.
      pose proof (run_model_batch_numbered self m prompt iterations
                    (length p0) st0 p1) as Hb.
      destruct (_run_model_batch ClientState client_query clock mock_sample
                  self m prompt iterations (length p0) st0 p1)
        as [[rs st1] p2].
      destruct Hb as (B1 & B3 & B4).
      assert (Hp1 : (0 < length p1)%nat).
      { unfold p1. rewrite length_app. lia. }
      set (p3 := progress_update p2 0 iterations).
      assert (Hp3 : (0 < length p3)%nat).
      { unfold p3. rewrite length_progress_update. lia. }
      specialize (IH (acc ++ map (fun r =>
                             with_ensemble_id r
                               (ensemble_id_of m
                                  (default 0%nat (reply_iteration r)))) rs)
                     st1 p3 Hp3).
      destruct (fold_left _ ms _) as [[replies st2] p4].
      destruct IH as (I1 & I2 & I3).
      assert (E1 : map reply_iteration
                     (map (fun r =>
                             with_ensemble_id r
                               (ensemble_id_of m
                                  (default 0%nat (reply_iteration r)))) rs)
                   = map (fun i => Some (i + 1)%nat) (seq 0 iterations)).
      { rewrite map_map. cbn [with_ensemble_id reply_iteration]. exact B1. }
      assert (E2 : map reply_ensemble_id
                     (map (fun r =>
                             with_ensemble_id r
                               (ensemble_id_of m
                                  (default 0%nat (reply_iteration r)))) rs)
                   = map (fun i => Some (ensemble_id_of m (i + 1)))
                         (seq 0 iterations)).
      { rewrite map_map. cbn [with_ensemble_id reply_ensemble_id].
        transitivity (map (fun o : option nat =>
                             Some (ensemble_id_of m (default 0%nat o)))
                          (map reply_iteration rs));
          [rewrite map_map; reflexivity|].
        rewrite B1, map_map. reflexivity. }
      split; [|split].
      + rewrite I1, map_app, E1. cbn [flat_map].
        rewrite <- app_assoc. reflexivity.
      + rewrite I2, map_app, E2. cbn [flat_map].
        rewrite <- app_assoc. reflexivity.
      + rewrite I3. unfold p3.
        rewrite completed_update_same by lia.
        rewrite B4 by lia. rewrite Hadd. cbn [length]. lia. }
  intros Hp. specialize (G models [] st progress Hp).
  destruct (fold_left _ models _) as [[replies st'] progress'].
  exact G.
Qed.

Lemma length_flat_map_const {A B} (l : list A) (f : A -> list B) n :
  (forall x, length (f x) = n) ->
  length (flat_map f l) = (length l * n)%nat.
Proof.
  intros H. induction l as [|x l IH]; [reflexivity|].
  cbn [flat_map length]. rewrite length_app, H, IH. lia.
Qed.

(** X22.  Whatever the client does (answer, fail or raise), a run of
    [run_ensemble_forecast] that passes the connection gate (dry-run
    mode, only free-tier models, or a successful connection test)
    returns exactly S*I replies, in the order of the models and, for
    each model, of the iterations: the replies of a model are numbered
    1 to I and carry the ensemble ids [model_01], [model_02], ...; the
    overall progress counter ends at S*I and the summary counts S*I
    queries.  Without dry-run, with a model that is not free-tier and a
    failed connection test, it raises ConnectionError. *)
Theorem X22_batch_shape_for_any_client :
  forall (self : EnsembleManager) (question definition : string)
         (models : list string) (iterations : nat)
         (timeframe context : option string) (st : ClientState),
    let ms := effective_models self models in
    let n := effective_iterations self iterations in
    let run :=
      run_ensemble_forecast ClientState client_query clock make_prompt
        mock_sample self question definition models iterations timeframe
        context st in
    (dry_run self = true
     \/ forallb (contains ":free") ms = true
     \/ (connection_ok ClientState client_query st).1 = true ->
     exists result progress,
       run.1 = Ok (result, progress)
       /\ length (forecast_responses result) = (length ms * n)%nat
       /\ map reply_iteration (forecast_responses result)
          = flat_map (fun _ : string =>
                        map (fun i => Some (i + 1)%nat) (seq 0 n)) ms
       /\ map reply_ensemble_id (forecast_responses result)
          = flat_map (fun model =>
                        map (fun i => Some (ensemble_id_of model (i + 1)))
                            (seq 0 n)) ms
       /\ completed progress 0 = (length ms * n)%nat
       /\ total_queries (forecast_summary result) = (length ms * n)%nat)
    /\ (dry_run self = false ->
        forallb (contains ":free") ms = false ->
        (connection_ok ClientState client_query st).1 = false ->
        run = (Raise "ConnectionError: Could not connect to OpenRouter API",
               (connection_ok ClientState client_query st).2)).
Proof.
  intros self question definition models iterations timeframe context st
         ms n run.
  subst run. unfold run_ensemble_forecast. fold ms n.
  set (prompt := make_prompt _ _ _ _ _).
  split.
  - intros Hgate.
    set (gate := if dry_run self then (true, st)
                 else if forallb (contains ":free") ms then (true, st)
                      else connection_ok ClientState client_query st).
    assert (Hg : gate.1 = true).
    { unfold gate. destruct (dry_run self); [reflexivity|].
      destruct (forallb (contains ":free") ms); [reflexivity|].
      destruct Hgate as [H|[H|H]]; [discriminate|discriminate|exact H]. }
    destruct gate as [connected st0]. cbn [fst] in Hg. subst connected.
    cbn [negb]. unfold add_task. cbn [length app].
    set (p0 := [_]).
    pose proof (run_models_numbered self prompt ms n st0 p0) as H.
    destruct (run_models ClientState client_query clock mock_sample self
                         prompt ms n 0 st0 p0) as [[replies st'] progress'].
    destruct H as (H1 & H2 & H3); [cbn; lia|].
    assert (Hlen : length replies = (length ms * n)%nat).
    { rewrite <- (length_map reply_iteration), H1.
      apply length_flat_map_const. intros _.
      rewrite length_map, length_seq. reflexivity. }
    do 2 eexists. cbn [fst]. split; [reflexivity|].
    cbn [forecast_responses forecast_summary _generate_summary
         total_queries].
    split; [exact Hlen|]. split; [exact H1|]. split; [exact H2|].
    split; [rewrite H3; reflexivity|exact Hlen].
  - intros Hdry Hfree Hconn. rewrite Hdry, Hfree.
    destruct (connection_ok ClientState client_query st) as [b st0].
    cbn [fst snd] in *. subst b. reflexivity.
Qed.

(** X23.  In dry-run mode [_run_model_batch] does not touch the
    client: it returns [iterations] mock replies with status success,
    source ["dry_run"] and a probability clamped to [5,95], and the
    client state is the one it was given.  (The text of a mock reply is
    not part of the statement.) *)
Theorem X23_dry_run_leaves_client_alone :
  forall (self : EnsembleManager) (model prompt : string)
         (iterations task_id : nat) (st : ClientState)
         (progress : list Task),
    dry_run self = true ->
    let '(replies, st', _) :=
      _run_model_batch ClientState client_query clock mock_sample self model
                       prompt iterations task_id st progress in
    st' = st
    /\ length replies = iterations
    /\ Forall (fun r => reply_status r = success
                        /\ reply_source r = Some "dry_run"%string
                        /\ exists p, reply_probability r = Some p
                                     /\ 5 <= p <= 95)
              replies.
Proof.
  intros self model prompt iterations task_id st progress Hdry.
  unfold _run_model_batch. rewrite Hdry.
  split; [reflexivity|]. split; [rewrite length_map, length_seq; reflexivity|].
  rewrite Forall_map. apply Forall_true. intros i.
  destruct (mock_reply_fields model (clock st) i) as (_ & H1 & H2 & H3).
  auto.
Qed.
End BatchFacts.

Lemma X22_batch_shape_for_any_client_witness :
  exists result progress,
    (run_ensemble_forecast OpenRouterClient
       (openrouter_query friendly_service) now plain_prompt
       (fun _ => (35, 1)) EnsembleManager_init "Q" "D"
       ["x-ai/grok-4-fast:free"; "google/gemma-2b-it:free"]%string 2
       None None (OpenRouterClient_init true 0)).1
    = Ok (result, progress)
    /\ length (forecast_responses result) = 4%nat
    /\ completed progress 0 = 4%nat.
Proof.
  destruct (@X22_batch_shape_for_any_client rational_lib OpenRouterClient
              (openrouter_query friendly_service) now plain_prompt
              (fun _ => (35, 1)) EnsembleManager_init "Q" "D"
              ["x-ai/grok-4-fast:free"; "google/gemma-2b-it:free"]%string 2
              None None (OpenRouterClient_init true 0)) as [H _].
  destruct H as (result & progress & E & Hlen & _ & _ & Hc & _).
  - right. left. vm_compute. reflexivity.
  - exists result, progress. split; [exact E|]. split; [exact Hlen|exact Hc].
Defined.

Lemma X23_dry_run_leaves_client_alone_witness :
  let '(replies, st', _) :=
    _run_model_batch OpenRouterClient (openrouter_query unavailable_service)
      now (fun _ => (120, 1))
      {| manager_settings := default_settings; dry_run := true;
         enhanced_prompts := false |}
      "openai/gpt-4" "Will it rain?" 3 0 (OpenRouterClient_init true 0)
      [{| task_description := "openai/gpt-4"; task_total := 3;
          task_completed := 0 |}] in
  st' = OpenRouterClient_init true 0
  /\ length replies = 3%nat
  /\ Forall (fun r => reply_status r = success
                      /\ reply_source r = Some "dry_run"%string
                      /\ exists p, reply_probability r = Some p
                                   /\ 5 <= p <= 95)
            replies.
Proof.
  apply (X23_dry_run_leaves_client_alone OpenRouterClient
           (openrouter_query unavailable_service) now (fun _ => (120, 1))
           {| manager_settings := default_settings; dry_run := true;
              enhanced_prompts := false |}
           "openai/gpt-4" "Will it rain?" 3 0 (OpenRouterClient_init true 0)
           [{| task_description := "openai/gpt-4"; task_total := 3;
               task_completed := 0 |}]).
  reflexivity.
Defined.


(** ** EnsembleManager: grouping and the summary *)

Lemma dict_set_NoDup {V} (d : list (string * V)) k v :
  NoDup (map fst d) -> NoDup (map fst (dict_set d k v)).
Proof.
  induction d as [|[k' v'] d IH]; cbn [dict_set map fst]; intros Hnd.
  - apply NoDup_singleton.
  - destruct (String.eqb k' k) eqn:E; [exact Hnd|].
    apply String.eqb_neq in E. cbn [map fst].
    apply NoDup_cons in Hnd. destruct Hnd as [Hk Hnd].
    apply NoDup_cons. split; [|apply IH, Hnd].
    intros Hin. apply list_elem_of_In in Hin.
    destruct (dict_get d k) as [w|] eqn:Eg.
    + apply Hk, list_elem_of_In.
      clear -Hin Eg. revert Hin. induction d as [|[k0 v0] d IH];
        [discriminate|].
      cbn [dict_set dict_get map fst] in *.
      destruct (String.eqb k0 k) eqn:E0; [tauto|].
      cbn [map fst]. intros [H|H]; [left; exact H|right; apply IH; assumption].
    + rewrite dict_set_fresh in Hin by exact Eg. rewrite map_app in Hin.
      apply in_app_or in Hin. destruct Hin as [Hin|[Hin|[]]].
      * apply Hk, list_elem_of_In, Hin.
      * cbn [fst] in Hin. congruence.
Qed.

(** The replies of one model, in their order. *)
Lemma group_replies_fold (results : list Reply) :
  forall d m,
    dict_get
      (fold_left
         (fun d r =>
            dict_set d (reply_model r)
                     (default [] (dict_get d (reply_model r)) ++ [r]))
         results d) m
    = match List.filter (fun r => String.eqb (reply_model r) m) results with
      | [] => dict_get d m
      | rs => Some (default [] (dict_get d m) ++ rs)
      end.
Proof.
  induction results as [|r results IH]; intros d m; cbn [fold_left List.filter].
  - reflexivity.
  - rewrite IH. destruct (String.eqb (reply_model r) m) eqn:E.
    + apply String.eqb_eq in E. rewrite E. rewrite dict_get_set_eq.
      cbn [default from_option id].
      destruct (List.filter _ results) as [|r' rs'].
      * reflexivity.
      * rewrite <- app_assoc. reflexivity.
    + apply String.eqb_neq in E. rewrite dict_get_set_ne by exact E.
      reflexivity.
Qed.

Lemma group_replies_NoDup (results : list Reply) :
  NoDup (map fst (group_replies results)).
Proof.
  unfold group_replies.
  assert (G : forall d, NoDup (map fst d) ->
             NoDup (map fst (fold_left
                     (fun d r =>
                        dict_set d (reply_model r)
                          (default [] (dict_get d (reply_model r)) ++ [r]))
                     results d))).
  { induction results as [|r results IH]; intros d Hd; cbn [fold_left];
      [exact Hd|].
    apply IH, dict_set_NoDup, Hd. }
  apply G. constructor.
Qed.

(** The groups of [group_replies], key by key. *)
Lemma group_replies_partition :
  forall (results : list Reply),
    NoDup (map fst (group_replies results))
    /\ (forall model,
          dict_get (group_replies results) model
          = match List.filter (fun r => String.eqb (reply_model r) model)
                              results with
            | [] => None
            | rs => Some rs
            end)
    /\ (forall model rs,
          In (model, rs) (group_replies results) ->
          rs <> []
          /\ rs = List.filter (fun r => String.eqb (reply_model r) model)
                              results)
    /\ (forall r, In r results ->
                  In (reply_model r) (map fst (group_replies results))).
Proof.
  intros results.
  pose proof (group_replies_NoDup results) as Hnd.
  assert (Hget : forall model,
            dict_get (group_replies results) model
            = match List.filter (fun r => String.eqb (reply_model r) model)
                                results with
              | [] => None
              | rs => Some rs
              end).
  { intros model. unfold group_replies. rewrite group_replies_fold.
    reflexivity. }
  split; [exact Hnd|]. split; [exact Hget|]. split.
  - intros model rs Hin.
    pose proof (dict_get_NoDup _ _ _ Hnd Hin) as E. rewrite Hget in E.
    destruct (List.filter _ results) as [|r0 rs0]; [discriminate|].
    injection E as <-. split; [discriminate|reflexivity].
  - intros r Hin.
    destruct (dict_get (group_replies results) (reply_model r)) as [rs|] eqn:E.
    + apply dict_get_In in E. apply in_map_iff.
      exists (reply_model r, rs). auto.
    + rewrite Hget in E.
      assert (Hf : In r (List.filter
                           (fun r' => String.eqb (reply_model r')
                                                 (reply_model r)) results)).
      { apply filter_In. split; [exact Hin|apply String.eqb_refl]. }
      destruct (List.filter _ results); [destruct Hf|discriminate].
Qed.

(** X16.  [model_groups] is the partition of the replies by model: the
    keys are distinct, and the group of a model is the list of exactly
    its replies, in the order in which they were returned; a model
    without a reply has no group. *)
Theorem X16_model_groups_partition :
  forall (results : list Reply),
    NoDup (map fst (group_replies results))
    /\ (forall model,
          dict_get (group_replies results) model
          = match List.filter (fun r => String.eqb (reply_model r) model)
                              results with
            | [] => None
            | rs => Some rs
            end)
    /\ (forall model rs,
          In (model, rs) (group_replies results) ->
          rs <> []
          /\ rs = List.filter (fun r => String.eqb (reply_model r) model)
                              results)
    /\ (forall r, In r results ->
                  In (reply_model r) (map fst (group_replies results))).
Proof. exact group_replies_partition. Qed.

Lemma length_filter_split {A} (f : A -> bool) (l : list A) :
  (length (List.filter f l) + length (List.filter (fun x => negb (f x)) l)
   = length l)%nat.
Proof.
  induction l as [|x l IH]; [reflexivity|]. cbn [List.filter].
  destruct (f x); cbn [negb length]; lia.
Qed.

Lemma length_omap_le {A B} (f : A -> option B) (l : list A) :
  (length (omap f l) <= length l)%nat.
Proof.
  induction l as [|x l IH]; [reflexivity|].
  change (omap f (x :: l))
    with (match f x with Some y => y :: omap f l | None => omap f l end).
  destruct (f x); cbn [length]; lia.
Qed.

Section SummaryFacts.
Context {L : SciLib}.

(** X15.  The counts of [_generate_summary] add up: every query is
    either successful or failed, no more probabilities are counted than
    there are replies, the models are listed once each, and a model has
    statistics exactly when it has a probability; its statistics count
    its probabilities and its success rate is a proportion between 0
    and 1. *)
Theorem X15_summary_counts :
  forall (results : list Reply),
    let summary := _generate_summary results in
    (successful_queries summary + failed_queries summary
     = total_queries summary)%nat
    /\ total_queries summary = length results
    /\ (valid_probabilities_count summary <= total_queries summary)%nat
    /\ NoDup (models_used summary)
    /\ (forall r, In r results -> In (reply_model r) (models_used summary))
    /\ (results = [] ->
        overall_mean summary = None /\ advanced_analysis summary = None
        /\ model_stats summary = [])
    /\ (forall model stats,
          In (model, stats) (model_stats summary) ->
          let model_results :=
            List.filter (fun r => String.eqb (reply_model r) model) results in
          stats_count stats = length (probabilities_of model_results)
          /\ (0 < stats_count stats)%nat
          /\ 0 <= stats_success_rate stats <= 1).
Proof.
  intros results summary. subst summary. unfold _generate_summary.
  cbn [successful_queries failed_queries total_queries
       valid_probabilities_count models_used overall_mean advanced_analysis
       model_stats].
  destruct (group_replies_partition results) as (Hnd & _ & Hgrp & Hmem).
  split; [apply length_filter_split|]. split; [reflexivity|].
  split; [apply length_omap_le|]. split; [exact Hnd|].
  split; [exact Hmem|]. split.
  { intros ->. split; [reflexivity|]. split; reflexivity. }
  intros model stats Hin.
  apply list_elem_of_In, list_elem_of_omap in Hin.
  destruct Hin as ([m rs] & Hin & Hst).
  apply list_elem_of_In in Hin. destruct (Hgrp m rs Hin) as [Hne Hrs].
  destruct (probabilities_of rs) as [|p ps] eqn:Ep; [discriminate|].
  injection Hst as <- <-. cbn [stats_count stats_success_rate].
  cbv zeta. rewrite <- Hrs, Ep.
  split; [reflexivity|]. split; [cbn [length]; lia|].
  assert (Hn : 0 < Qlen rs).
  { unfold Qlen. destruct rs; [congruence|].
    change 0 with (inject_Z 0). rewrite <- Zlt_Qlt. cbn [length]. lia. }
  assert (Hs : 0 <= Qlen (List.filter is_successful rs) <= Qlen rs).
  { unfold Qlen. split.
    - change 0 with (inject_Z 0). rewrite <- Zle_Qle. lia.
    - rewrite <- Zle_Qle. pose proof (length_filter_split is_successful rs).
      lia. }
  split; [apply Qle_shift_div_l|apply Qle_shift_div_r]; lra.
Qed.
End SummaryFacts.

Lemma X16_model_groups_partition_witness :
  dict_get (group_replies [answered "a" 20; answered "b" 60; answered "a" 40])
           "a"
  = Some [answered "a" 20; answered "a" 40].
Proof.
  rewrite (proj1 (proj2 (X16_model_groups_partition
                           [answered "a" 20; answered "b" 60;
                            answered "a" 40])) "a"%string).
  reflexivity.
Defined.

Lemma X15_summary_counts_witness :
  let summary :=
    _generate_summary (L := rational_lib)
      [answered "a" 20; answered "b" 60; answered "a" 40] in
  (successful_queries summary + failed_queries summary = 3)%nat
  /\ In "a"%string (models_used summary).
Proof.
  intros summary.
  destruct (@X15_summary_counts rational_lib
              [answered "a" 20; answered "b" 60; answered "a" 40])
    as (H1 & H2 & _ & _ & H5 & _).
  split.
  - fold summary in H1, H2. rewrite H1, H2. reflexivity.
  - apply (H5 (answered "a" 20)). left. reflexivity.
Defined.


(** ** ForecastAggregator: the further methods *)

Lemma valid_probabilities_in_range (responses : list ModelResponse) :
  responses_ok responses ->
  Forall (fun p => 0 <= p <= 100) (omap valid_probability responses).
Proof.
  intros H. apply Forall_forall. intros p Hp.
  apply list_elem_of_omap in Hp. destruct Hp as (r & Hr & E).
  unfold valid_probability in E.
  destruct (is_success (response_status r)); [|discriminate].
  unfold responses_ok in H. rewrite Forall_forall in H.
  exact (H r Hr p E).
Qed.

Lemma dict_set_values {V} (P : V -> Prop) (d : list (string * V)) k v :
  Forall (fun kv => P kv.2) d -> P v ->
  Forall (fun kv => P kv.2) (dict_set d k v).
Proof.
  intros Hd Hv. induction d as [|[k' v'] d IH]; cbn [dict_set].
  - constructor; [exact Hv|constructor].
  - inversion Hd as [|? ? Hk Hd']; subst.
    destruct (String.eqb k' k); constructor; auto.
Qed.

Lemma dict_get_values {V} (P : V -> Prop) (d : list (string * V)) k v :
  Forall (fun kv => P kv.2) d -> dict_get d k = Some v -> P v.
Proof.
  intros Hd Hg. apply dict_get_In in Hg. rewrite Forall_forall in Hd.
  apply (Hd (k, v)). apply list_elem_of_In, Hg.
Qed.

(** Every group of [group_by_model] is a non-empty list of valid
    probabilities. *)
Lemma group_by_model_values (P : Q -> Prop) (responses : list ModelResponse) :
  Forall P (omap valid_probability responses) ->
  Forall (fun g => Forall P g.2 /\ g.2 <> []) (group_by_model responses).
Proof.
  unfold group_by_model.
  assert (G : forall d,
             Forall (fun g : string * list Q => Forall P g.2 /\ g.2 <> []) d ->
             Forall P (omap valid_probability responses) ->
             Forall (fun g => Forall P g.2 /\ g.2 <> [])
               (fold_left
                  (fun d r =>
                     match valid_probability r with
                     | Some p =>
                         dict_set d (response_model r)
                           (default [] (dict_get d (response_model r)) ++ [p])
                     | None => d
                     end)
                  responses d)).
  { induction responses as [|r rs IH]; intros d Hd Hv; cbn [fold_left];
      [exact Hd|].
    change (omap valid_probability (r :: rs))
      with (match valid_probability r with
            | Some y => y :: omap valid_probability rs
            | None => omap valid_probability rs
            end) in Hv.
    destruct (valid_probability r) as [p|]; [|apply IH; assumption].
    inversion Hv as [|? ? Hp Hv']; subst.
    apply IH; [|exact Hv'].
    apply (dict_set_values (fun l => Forall P l /\ l <> [])); [exact Hd|].
    split.
    - apply Forall_app. split; [|constructor; [exact Hp|constructor]].
      destruct (dict_get d (response_model r)) as [l|] eqn:E; [|constructor].
      apply (dict_get_values (fun l => Forall P l /\ l <> []) d _ l Hd E).
    - intros E. apply app_eq_nil in E. destruct E as [_ E]. discriminate. }
  intros H. apply G; [constructor|exact H].
Qed.

Lemma get_float_lookup (d : gmap string value) k m :
  d !! k = Some (VFloat m) -> get_float d k = Some m.
Proof. intros H. unfold get_float. rewrite H. reflexivity. Qed.

Section EnsembleProbabilityFacts.
Context {L : SciLib}.

(** X24.  [calculate_ensemble_probability] answers [None] exactly when
    no response is valid.  Otherwise, with the temperature calibrator
    that the aggregator is built with, a positive prior and a sound
    history, it returns for every method a probability in [0,100]: each
    of the simple, calibrated, consistency-weighted and Bayesian
    estimates is in that range, and so is their mean. *)
Theorem X24_ensemble_probability_in_range :
  forall (self : ForecastAggregator) (responses : list ModelResponse),
    responses_ok responses ->
    calibrator_method (calibrator self) = "temperature"%string ->
    hist_ok (bayesian_aggregator self) ->
    0 < prior_strength (bayesian_aggregator self) ->
    exists v self',
      calculate_ensemble_probability self responses = Ok (v, self')
      /\ (omap valid_probability responses = [] -> v = None /\ self' = self)
      /\ (omap valid_probability responses <> [] ->
          exists p, v = Some p /\ 0 <= p <= 100).
Proof.
  intros self responses Hok Hm Hh Hps.
  pose proof (valid_probabilities_in_range responses Hok) as Hv.
  unfold calculate_ensemble_probability.
  destruct (omap valid_probability responses) as [|p0 ps] eqn:Ev.
  { exists None, self. split; [reflexivity|]. split; [auto|congruence]. }
  rewrite <- Ev in *.
  set (valid := omap valid_probability responses) in *.
  assert (Hne : valid <> []) by (rewrite Ev; discriminate).
  assert (Hmean : 0 <= np_mean valid <= 100)
    by (apply np_mean_bounds; assumption).
  assert (Hweighted :
            0 <= calculate_weighted_aggregate (consistency_scorer self)
                   (group_by_model responses) <= 100).
  { apply weighted_aggregate_within_range; [|split; discriminate].
    eapply Forall_impl;
      [apply (group_by_model_values (fun p => 0 <= p <= 100)); exact Hv|].
    intros g [Hg _]. exact Hg. }
  destruct (calibrate_batch_temperature_ok (calibrator self) valid Hm)
    as (out & cal' & Ecal).
  destruct (calibrate_batch_result _ _ _ _ Ecal)
    as (Lout & _ & _ & Hout & _ & _).
  assert (Hcal : 0 <= np_mean out <= 100).
  { apply np_mean_bounds; [|exact Hout].
    intros E. rewrite E in Lout. destruct valid; [congruence|discriminate]. }
  destruct (aggregate_forecasts_band (bayesian_aggregator self) valid
              (Some (map response_model (valid_responses_of responses))) None)
    as (d & b' & m & Ebay & Hd & _ & _ & Hmb); auto.
  { cbn [ids_ok]. rewrite length_map, length_valid_responses_of.
    reflexivity. }
  { exact I. }
  destruct (String.eqb (aggregator_method self) "simple").
  { do 2 eexists. split; [reflexivity|]. split; [congruence|].
    intros _. eexists. split; [reflexivity|exact Hmean]. }
  destruct (String.eqb (aggregator_method self) "calibrated").
  { rewrite Ecal. cbn [rbind fst snd]. do 2 eexists.
    split; [reflexivity|]. split; [congruence|].
    intros _. eexists. split; [reflexivity|exact Hcal]. }
  destruct (String.eqb (aggregator_method self) "consistency").
  { do 2 eexists. split; [reflexivity|]. split; [congruence|].
    intros _. eexists. split; [reflexivity|exact Hweighted]. }
  destruct (String.eqb (aggregator_method self) "bayesian").
  { rewrite Ebay. cbn [rbind fst snd]. rewrite (get_float_lookup _ _ _ Hd).
    do 2 eexists. split; [reflexivity|]. split; [congruence|].
    intros _. exists m. split; [reflexivity|]. lra. }
  destruct (String.eqb (aggregator_method self) "ensemble").
  { rewrite Ecal. cbn [rbind fst snd]. rewrite Ebay. cbn [rbind fst snd].
    rewrite (get_float_lookup _ _ _ Hd).
    do 2 eexists. split; [reflexivity|]. split; [congruence|].
    intros _. eexists. split; [reflexivity|].
    destruct (group_by_model responses) as [|g gs];
      cbn [app omap list_omap id];
      (apply np_mean_bounds; [discriminate|]);
      repeat (constructor; [first [exact Hmean|exact Hcal|exact Hweighted
                                  |lra]|]);
      constructor. }
  do 2 eexists. split; [reflexivity|]. split; [congruence|].
  intros _. eexists. split; [reflexivity|exact Hmean].
Qed.
End EnsembleProbabilityFacts.


(** ** Percentiles, outliers and consensus *)

Lemma inject_Z_pred (z : Z) : inject_Z (z - 1) == inject_Z z - 1.
Proof.
  unfold Z.sub. rewrite inject_Z_plus. reflexivity.
Qed.

Lemma sorted_nth (s : list Q) :
  StronglySorted Qle s ->
  forall i j, (i <= j)%nat -> (j < length s)%nat -> nth i s 0 <= nth j s 0.
Proof.
  induction 1 as [|x s Hs IH Hx]; intros i j Hij Hj; [cbn in Hj; lia|].
  destruct j as [|j].
  - assert (i = 0%nat) by lia. subst. cbn. lra.
  - destruct i as [|i]; cbn [nth].
    + rewrite List.Forall_forall in Hx. apply Hx. apply nth_In.
      cbn in Hj. lia.
    + apply IH; [lia|cbn in Hj; lia].
Qed.

(** The linear interpolation of [np.percentile] at a virtual index. *)
Lemma interpolation_between (s : list Q) (idx : Q) :
  StronglySorted Qle s -> 0 <= idx -> idx <= Qlen s - 1 ->
  let lo := Z.to_nat (Qfloor idx) in
  let hi := Nat.min (S lo) (length s - 1) in
  let g := idx - inject_Z (Qfloor idx) in
  (lo < length s)%nat /\ (lo <= hi)%nat /\ (hi < length s)%nat
  /\ 0 <= g /\ g < 1
  /\ nth lo s 0 <= nth lo s 0 + (nth hi s 0 - nth lo s 0) * g <= nth hi s 0.
Proof.
  intros Hs H0 Hn lo hi g.
  assert (Hf0 : (0 <= Qfloor idx)%Z).
  { change 0%Z with (Qfloor 0). apply Qfloor_resp_le. exact H0. }
  pose proof (Qfloor_le idx) as Hfl. pose proof (Qlt_floor idx) as Hfu.
  assert (Hlen : (1 <= length s)%nat).
  { destruct s; [|cbn; lia]. change (Qlen (@nil Q)) with 0 in Hn. lra. }
  assert (Hlo : (lo < length s)%nat).
  { assert (inject_Z (Qfloor idx) <= Qlen s - 1) by lra.
    unfold Qlen in H.
    rewrite <- inject_Z_pred in H. rewrite <- Zle_Qle in H. unfold lo. lia. }
  assert (Hg0 : 0 <= g) by (unfold g; lra).
  assert (Hg1 : g < 1).
  { unfold g. rewrite inject_Z_plus in Hfu. change (inject_Z 1) with 1 in Hfu.
    lra. }
  assert (Hlh : (lo <= hi)%nat) by (unfold hi; lia).
  assert (Hhi : (hi < length s)%nat) by (unfold hi; lia).
  pose proof (sorted_nth s Hs lo hi Hlh Hhi) as Hd.
  repeat split; try assumption.
  - assert (0 <= (nth hi s 0 - nth lo s 0) * g)
      by (apply Qmult_le_0_compat; lra). lra.
  - assert ((nth hi s 0 - nth lo s 0) * g <= (nth hi s 0 - nth lo s 0) * 1).
    { rewrite !(Qmult_comm (nth hi s 0 - nth lo s 0)).
      apply Qmult_le_compat_r; lra. }
    lra.
Qed.

Lemma percentile_index (l : list Q) (q : Q) :
  l <> [] -> 0 <= q <= 100 ->
  0 <= q / 100 * inject_Z (Z.of_nat (length (np_sort l) - 1))
  /\ q / 100 * inject_Z (Z.of_nat (length (np_sort l) - 1))
     <= Qlen (np_sort l) - 1.
Proof.
  intros Hne [H0 H1].
  assert (Hlen : (1 <= length (np_sort l))%nat).
  { rewrite (Permutation_length (np_sort_perm l)).
    destruct l; [congruence|cbn; lia]. }
  assert (E : inject_Z (Z.of_nat (length (np_sort l) - 1))
              == Qlen (np_sort l) - 1).
  { unfold Qlen. rewrite Nat2Z.inj_sub by lia. apply inject_Z_pred. }
  rewrite E.
  assert (Hn : 0 <= Qlen (np_sort l) - 1).
  { unfold Qlen.
    assert (1 <= inject_Z (Z.of_nat (length (np_sort l)))).
    { change 1 with (inject_Z 1). rewrite <- Zle_Qle. lia. }
    lra. }
  set (n := Qlen (np_sort l) - 1) in *.
  assert (Hq : 0 <= q / 100 <= 1).
  { split.
    - apply Qle_shift_div_l; lra.
    - apply Qle_shift_div_r; lra. }
  split.
  - apply Qmult_le_0_compat; lra.
  - assert (q / 100 * n <= 1 * n) by (apply Qmult_le_compat_r; lra). lra.
Qed.

(** A percentile of a non-empty list lies between its extremes. *)
Lemma np_percentile_bounds (lo hi : Q) (l : list Q) (q : Q) :
  l <> [] -> 0 <= q <= 100 -> Forall (fun x => lo <= x <= hi) l ->
  lo <= np_percentile l q <= hi.
Proof.
  intros Hne Hq Hl.
  destruct (percentile_index l q Hne Hq) as [H0 Hn].
  destruct (interpolation_between (np_sort l) _ (np_sort_sorted l) H0 Hn)
    as (Hlo & _ & Hhi & _ & _ & Hb).
  assert (Hs : Forall (fun x => lo <= x <= hi) (np_sort l)).
  { eapply Permutation_Forall; [symmetry; apply np_sort_perm|exact Hl]. }
  rewrite List.Forall_forall in Hs.
  pose proof (Hs _ (nth_In (np_sort l) 0 Hlo)) as B1.
  pose proof (Hs _ (nth_In (np_sort l) 0 Hhi)) as B2.
  unfold np_percentile. cbv zeta in Hb |- *. lra.
Qed.

(** Percentiles grow with the rank. *)
Lemma np_percentile_monotone (l : list Q) (q1 q2 : Q) :
  0 <= q1 -> q1 <= q2 -> q2 <= 100 ->
  np_percentile l q1 <= np_percentile l q2.
Proof.
  intros H0 H12 H100.
  destruct l as [|x0 l0] eqn:El.
  { unfold np_percentile. cbn. destruct (Z.to_nat _), (Z.to_nat _); cbn; lra. }
  rewrite <- El. assert (Hne : l <> []) by (rewrite El; discriminate).
  clear El x0 l0.
  destruct (percentile_index l q1 Hne) as [Ha0 Han]; [lra|].
  destruct (percentile_index l q2 Hne) as [Hb0 Hbn]; [lra|].
  pose proof (np_sort_sorted l) as Hs.
  destruct (interpolation_between (np_sort l) _ Hs Ha0 Han)
    as (Hla & Hlha & Hha & Hga0 & Hga1 & Hva).
  destruct (interpolation_between (np_sort l) _ Hs Hb0 Hbn)
    as (Hlb & Hlhb & Hhb & Hgb0 & Hgb1 & Hvb).
  unfold np_percentile. cbv zeta in *.
  set (s := np_sort l) in *.
  set (n := inject_Z (Z.of_nat (length s - 1))) in *.
  assert (Hn0 : 0 <= n).
  { unfold n. change 0 with (inject_Z 0). rewrite <- Zle_Qle. lia. }
  assert (Hab : q1 / 100 * n <= q2 / 100 * n).
  { apply Qmult_le_compat_r; [|exact Hn0].
    apply Qmult_le_compat_r; [exact H12|]. vm_compute. discriminate. }
  set (a := q1 / 100 * n) in *. set (b := q2 / 100 * n) in *.
  pose proof (Qfloor_resp_le _ _ Hab) as Hfl.
  assert (Hfa : (0 <= Qfloor a)%Z).
  { change 0%Z with (Qfloor 0). apply Qfloor_resp_le. exact Ha0. }
  destruct (Z.eq_dec (Qfloor a) (Qfloor b)) as [E|NE].
  - rewrite <- E in *.
    set (lo := Z.to_nat (Qfloor a)) in *.
    set (hi := Nat.min (S lo) (length s - 1)) in *.
    pose proof (sorted_nth s Hs lo hi Hlha Hha) as Hd.
    assert ((nth hi s 0 - nth lo s 0) * (a - inject_Z (Qfloor a))
            <= (nth hi s 0 - nth lo s 0) * (b - inject_Z (Qfloor a))).
    { rewrite !(Qmult_comm (nth hi s 0 - nth lo s 0)).
      apply Qmult_le_compat_r; lra. }
    lra.
  - assert (Hlt : (Qfloor a < Qfloor b)%Z) by lia.
    set (loa := Z.to_nat (Qfloor a)) in *.
    set (lob := Z.to_nat (Qfloor b)) in *.
    assert (Hm : (Nat.min (S loa) (length s - 1) <= lob)%nat)
      by (unfold loa, lob; lia).
    pose proof (sorted_nth s Hs _ _ Hm Hlb) as Hmid.
    lra.
Qed.


Lemma omap_valid_responses_of (responses : list ModelResponse) :
  omap valid_probability (valid_responses_of responses)
  = omap valid_probability responses.
Proof.
  unfold valid_responses_of.
  induction responses as [|r rs IH]; [reflexivity|].
  cbn [List.filter].
  change (omap valid_probability (r :: rs))
    with (match valid_probability r with
          | Some y => y :: omap valid_probability rs
          | None => omap valid_probability rs
          end).
  destruct (valid_probability r) as [p|] eqn:E; [|exact IH].
  change (omap valid_probability (r :: List.filter _ rs))
    with (match valid_probability r with
          | Some y => y :: omap valid_probability (List.filter
              (fun r => match valid_probability r with
                        | Some _ => true | None => false end) rs)
          | None => omap valid_probability (List.filter
              (fun r => match valid_probability r with
                        | Some _ => true | None => false end) rs)
          end).
  rewrite E, IH. reflexivity.
Qed.

Lemma valid_responses_of_In (responses : list ModelResponse) r :
  In r (valid_responses_of responses) ->
  In r responses /\ exists p, valid_probability r = Some p
                              /\ response_probability r = Some p.
Proof.
  unfold valid_responses_of. intros H. apply filter_In in H.
  destruct H as [Hin Hv]. split; [exact Hin|].
  destruct (valid_probability r) as [p|] eqn:E; [|discriminate].
  exists p. split; [reflexivity|].
  unfold valid_probability in E.
  destruct (is_success (response_status r)); [exact E|discriminate].
Qed.

Section OutlierFacts.
Context {L : SciLib}.

(** X25.  [identify_outliers] reports nothing when fewer than four
    responses are valid, and nothing for a method other than ["iqr"] and
    ["zscore"].  Every id it reports is the ensemble id of a valid
    response of the batch, and under the ["iqr"] method the probability
    of such a response lies strictly below the first or strictly above
    the third quartile of the valid probabilities. *)
Theorem X25_identify_outliers_contract :
  forall (responses : list ModelResponse) (method : string),
    let probabilities := omap valid_probability responses in
    ((length probabilities < 4)%nat ->
     identify_outliers responses method = [])
    /\ (method <> "iqr"%string -> method <> "zscore"%string ->
        identify_outliers responses method = [])
    /\ (forall id, In id (identify_outliers responses method) ->
        exists r p,
          In r responses /\ valid_probability r = Some p
          /\ response_ensemble_id r = id
          /\ (method = "iqr"%string ->
              p < np_percentile probabilities 25
              \/ np_percentile probabilities 75 < p)).
Proof.
  intros responses method probabilities.
  unfold identify_outliers.
  rewrite omap_valid_responses_of, length_valid_responses_of.
  fold probabilities.
  split; [|split].
  - intros H. apply Nat.ltb_lt in H. rewrite H. reflexivity.
  - intros H1 H2. apply String.eqb_neq in H1, H2. rewrite H1, H2.
    destruct (_ <? _)%nat; reflexivity.
  - intros id Hid.
    destruct (length probabilities <? 4)%nat; [destruct Hid|].
    destruct (String.eqb method "iqr") eqn:Em.
    + apply in_map_iff in Hid. destruct Hid as (r & Er & Hr).
      apply filter_In in Hr. destruct Hr as [Hr Hf].
      apply valid_responses_of_In in Hr.
      destruct Hr as (Hin & p & Hv & Hp).
      exists r, p. repeat split; try assumption. intros _.
      rewrite Hp in Hf.
      assert (Hq : np_percentile probabilities 25
                   <= np_percentile probabilities 75).
      { apply np_percentile_monotone; lra. }
      apply orb_true_iff in Hf. destruct Hf as [Hf|Hf];
        apply Qltb_lt in Hf; [left|right]; lra.
    + destruct (String.eqb method "zscore"); [|destruct Hid].
      apply list_elem_of_In, list_elem_of_omap in Hid.
      destruct Hid as ([z r] & Hzr & E).
      destruct (Qltb 2.5 z); [|discriminate]. injection E as E.
      apply elem_of_zip_r, list_elem_of_In, valid_responses_of_In in Hzr.
      destruct Hzr as (Hin & p & Hv & Hp).
      exists r, p. repeat split; try assumption.
      intros ->. discriminate Em.
Qed.

(** X26.  [analyze_consensus] declines with fewer than two valid
    responses.  Otherwise it counts the valid responses, its quartiles
    are ordered and lie in [0,100], the inter-quartile range is
    non-negative and at most the range, and the consensus score, when
    there is one, lies in [0,1]; there is none exactly when the mean of
    the valid probabilities is not positive. *)
Theorem X26_analyze_consensus_contract :
  forall (responses : list ModelResponse),
    (forall x, 0 <= np_sqrt x) ->
    responses_ok responses ->
    let valid := omap valid_probability responses in
    ((length valid < 2)%nat ->
     analyze_consensus responses = ConsensusInsufficient)
    /\ ((2 <= length valid)%nat ->
        exists c,
          analyze_consensus responses = ConsensusOk c
          /\ consensus_count c = length valid
          /\ 0 <= consensus_p25 c
          /\ consensus_p25 c <= consensus_p75 c
          /\ consensus_p75 c <= 100
          /\ 0 <= consensus_iqr c
          /\ consensus_iqr c <= consensus_range c
          /\ (forall s, consensus_score c = Some s -> 0 <= s <= 1)
          /\ (consensus_score c = None <-> ~ 0 < np_mean valid)).
Proof.
  intros responses Hsqrt Hok valid.
  pose proof (valid_probabilities_in_range responses Hok) as Hv.
  fold valid in Hv. unfold analyze_consensus. fold valid.
  split.
  - intros H. apply Nat.ltb_lt in H. rewrite H. reflexivity.
  - intros H. assert (Hne : valid <> []).
    { intros E. rewrite E in H. cbn in H. lia. }
    apply Nat.ltb_ge in H. rewrite H.
    eexists. split; [reflexivity|]. cbn.
    assert (H25 : 0 <= np_percentile valid 25 <= 100)
      by (apply np_percentile_bounds; [exact Hne|lra|exact Hv]).
    assert (H75 : 0 <= np_percentile valid 75 <= 100)
      by (apply np_percentile_bounds; [exact Hne|lra|exact Hv]).
    assert (Hq : np_percentile valid 25 <= np_percentile valid 75)
      by (apply np_percentile_monotone; lra).
    assert (Hr25 : np_min valid <= np_percentile valid 25 <= np_max valid)
      by (apply np_percentile_bounds;
          [exact Hne|lra|apply np_min_max_bounds]).
    assert (Hr75 : np_min valid <= np_percentile valid 75 <= np_max valid)
      by (apply np_percentile_bounds;
          [exact Hne|lra|apply np_min_max_bounds]).
    split; [reflexivity|]. do 5 (split; [lra|]).
    split; [|split].
    + intros s Hs.
      destruct (Qltb 0 (np_mean valid)) eqn:Em; [|discriminate].
      apply Qltb_lt in Em. injection Hs as <-.
      split; [apply Q.le_max_l|].
      apply Q.max_lub; [lra|].
      destruct (Qeq_bool _ 0); [lra|].
      assert (0 <= np_std_ddof1 valid / np_mean valid).
      { apply Qle_shift_div_l; [exact Em|]. unfold np_std_ddof1.
        pose proof (Hsqrt (Qsum
          (map (fun x : Q => Qabs (x - np_mean valid)
                             * Qabs (x - np_mean valid)) valid)
          / (Qlen valid - 1))). lra. }
      lra.
    + destruct (Qltb 0 (np_mean valid)) eqn:Em; [discriminate|].
      intros _ Hm. apply Qltb_lt in Hm. congruence.
    + destruct (Qltb 0 (np_mean valid)) eqn:Em; [|reflexivity].
      intros Hm. apply Qltb_lt in Em. contradiction.
Qed.

End OutlierFacts.


(** ** Weighted ensemble and Brier scores *)

Lemma dict_set_nonempty {V} (d : list (string * V)) k v : dict_set d k v <> [].
Proof.
  destruct d as [|[k' v'] d]; cbn [dict_set]; [discriminate|].
  destruct (String.eqb k' k); discriminate.
Qed.

(** There is a group exactly when there is a valid response. *)
Lemma group_by_model_nil (responses : list ModelResponse) :
  group_by_model responses = [] <-> omap valid_probability responses = [].
Proof.
  unfold group_by_model.
  set (step := fun (d : list (string * list Q)) r =>
                 match valid_probability r with
                 | Some p =>
                     dict_set d (response_model r)
                       (default [] (dict_get d (response_model r)) ++ [p])
                 | None => d
                 end).
  assert (Hkeep : forall rs d, d <> [] -> fold_left step rs d <> []).
  { induction rs as [|r rs IH]; intros d Hd; cbn [fold_left]; [exact Hd|].
    apply IH. unfold step. destruct (valid_probability r); [|exact Hd].
    apply dict_set_nonempty. }
  induction responses as [|r rs IH]; [split; reflexivity|].
  cbn [fold_left].
  change (omap valid_probability (r :: rs))
    with (match valid_probability r with
          | Some y => y :: omap valid_probability rs
          | None => omap valid_probability rs
          end).
  unfold step at 2. destruct (valid_probability r) as [p|]; [|exact IH].
  split; [|discriminate].
  intros H. exfalso. revert H. apply Hkeep, dict_set_nonempty.
Qed.

Lemma py_dict_constant {V} (c : V) (keys : list string) (k : string) :
  In k keys -> py_dict (map (fun k => (k, c)) keys) !! k = Some c.
Proof.
  unfold py_dict.
  assert (G : forall (m : gmap string V),
             (In k keys \/ m !! k = Some c) ->
             fold_left (fun m kv => <[kv.1 := kv.2]> m)
                       (map (fun k => (k, c)) keys) m !! k = Some c).
  { induction keys as [|k0 keys IH]; intros m H; cbn [map fold_left].
    - destruct H as [[]|H]. exact H.
    - apply IH. cbn [fst snd]. destruct (decide (k0 = k)) as [->|Hne].
      + right. apply lookup_insert_eq.
      + destruct H as [[H|H]|H]; [contradiction|left; exact H|].
        right. rewrite lookup_insert_ne by exact Hne. exact H. }
  intros H. apply G. left. exact H.
Qed.

(** The two running sums of [calculate_weighted_ensemble_probability]. *)
Lemma weighted_ensemble_sums (w : gmap string Q) (lo hi : Q)
    (groups : list (string * list Q)) :
  Forall (fun g => Forall (fun p => lo <= p <= hi) g.2 /\ g.2 <> []) groups ->
  (forall k x, w !! k = Some x -> 0 <= x) ->
  forall s t, 0 <= t -> lo * t <= s <= hi * t ->
    let r := fold_left
               (fun '(weighted_sum, total_weight) '(model, probabilities) =>
                  match w !! model with
                  | Some weight =>
                      (weighted_sum + weight * np_mean probabilities,
                       total_weight + weight)
                  | None => (weighted_sum, total_weight)
                  end)
               groups (s, t) in
    0 <= r.2 /\ lo * r.2 <= r.1 <= hi * r.2.
Proof.
  intros Hg Hw. induction Hg as [|[model ps] groups [Hps Hne] _ IH];
    intros s t Ht Hs; cbn [fold_left]; [cbn [fst snd]; tauto|].
  cbn [snd] in Hps, Hne.
  destruct (w !! model) as [x|] eqn:E; [|apply IH; assumption].
  pose proof (Hw _ _ E) as Hx.
  pose proof (np_mean_bounds lo hi ps Hne Hps) as [Hm1 Hm2].
  apply IH; [lra|].
  assert (x * lo <= x * np_mean ps).
  { rewrite !(Qmult_comm x). apply Qmult_le_compat_r; assumption. }
  assert (x * np_mean ps <= x * hi).
  { rewrite !(Qmult_comm x). apply Qmult_le_compat_r; assumption. }
  lra.
Qed.

Lemma equal_weight_sums (w : gmap string Q) (groups : list (string * list Q)) :
  (forall g, In g groups -> w !! g.1 = Some 1.0) ->
  forall s t,
    let r := fold_left
               (fun '(weighted_sum, total_weight) '(model, probabilities) =>
                  match w !! model with
                  | Some weight =>
                      (weighted_sum + weight * np_mean probabilities,
                       total_weight + weight)
                  | None => (weighted_sum, total_weight)
                  end)
               groups (s, t) in
    r.1 == s + Qsum (map (fun g => np_mean g.2) groups)
    /\ r.2 == t + Qlen groups.
Proof.
  induction groups as [|[model ps] groups IH]; intros Hw s t;
    cbn [fold_left map].
  - cbn [fst snd]. change (Qsum []) with 0.
    change (Qlen (@nil (string * list Q))) with 0. split; ring.
  - pose proof (Hw (model, ps) (or_introl eq_refl)) as E.
    cbn [fst] in E. rewrite E.
    destruct (IH (fun g Hg => Hw g (or_intror Hg))
                 (s + 1.0 * np_mean ps) (t + 1.0)) as [H1 H2].
    cbv zeta in H1, H2 |- *. rewrite H1, H2, Qsum_cons. cbn [snd].
    unfold Qlen. cbn [length]. rewrite Nat2Z.inj_succ.
    unfold Z.succ. rewrite inject_Z_plus. split; ring.
Qed.

(** X28.  Without a valid response
    [calculate_weighted_ensemble_probability] answers [None], whatever
    the weights.  With the default weights it answers the unweighted
    mean of the per-model means, so that a model counts once however
    many responses it gave. *)
Theorem X28_default_weights_mean_of_model_means :
  forall (responses : list ModelResponse),
    (omap valid_probability responses = [] ->
     forall w, calculate_weighted_ensemble_probability responses w = None)
    /\ (omap valid_probability responses <> [] ->
        exists p,
          calculate_weighted_ensemble_probability responses None = Some p
          /\ p == np_mean (map (fun g => np_mean g.2)
                               (group_by_model responses))).
Proof.
  intros responses. unfold calculate_weighted_ensemble_probability. split.
  - intros H w. apply group_by_model_nil in H. rewrite H. reflexivity.
  - intros H.
    assert (Hne : group_by_model responses <> [])
      by (rewrite group_by_model_nil; exact H).
    set (groups := group_by_model responses) in *.
    set (w := py_dict (map (fun g => (g.1, 1.0)) groups)).
    assert (Hw : forall g, In g groups -> w !! g.1 = Some 1.0).
    { intros g Hg. unfold w.
      rewrite <- (map_map fst (fun k => (k, 1.0))).
      apply py_dict_constant. apply in_map. exact Hg. }
    destruct (equal_weight_sums w groups Hw 0.0 0.0) as [H1 H2].
    cbv zeta in H1, H2.
    destruct groups as [|g0 gs] eqn:Eg; [congruence|]. rewrite <- Eg in *.
    destruct (fold_left _ groups (0.0, 0.0)) as [ws tw].
    cbn [fst snd] in H1, H2.
    assert (Hlen : 0 < Qlen groups).
    { unfold Qlen. rewrite Eg. cbn [length]. change 0 with (inject_Z 0).
      rewrite <- Zlt_Qlt. lia. }
    assert (Htw : Qltb 0 tw = true) by (apply Qltb_lt; lra).
    rewrite Htw. eexists. split; [reflexivity|].
    unfold np_mean. rewrite Qred_correct, H1, H2.
    unfold Qlen. rewrite length_map.
    assert (E0 : 0.0 == 0) by reflexivity. rewrite E0.
    apply Qeq_sym. rewrite !Qplus_0_l. reflexivity.
Qed.

(** X29.  With weights that are not negative, the weighted ensemble
    probability of responses in [0,100], when there is one, is again in
    [0,100]. *)
Theorem X29_weighted_ensemble_in_range :
  forall (responses : list ModelResponse) (w : gmap string Q) (p : Q),
    responses_ok responses ->
    (forall k x, w !! k = Some x -> 0 <= x) ->
    calculate_weighted_ensemble_probability responses (Some w) = Some p ->
    0 <= p <= 100.
Proof.
  intros responses w p Hok Hw.
  unfold calculate_weighted_ensemble_probability.
  pose proof (group_by_model_values (fun p => 0 <= p <= 100) responses
                (valid_probabilities_in_range responses Hok)) as Hg.
  destruct (group_by_model responses) as [|g0 gs] eqn:Eg; [discriminate|].
  rewrite <- Eg in *.
  destruct (weighted_ensemble_sums w 0 100 (group_by_model responses) Hg Hw
              0.0 0.0) as [H0 Hb]; [lra|split; vm_compute; discriminate|].
  cbv zeta in H0, Hb.
  destruct (fold_left _ (group_by_model responses) (0.0, 0.0)) as [ws tw].
  cbn [fst snd] in H0, Hb.
  destruct (Qltb 0 tw) eqn:Et; [|discriminate].
  apply Qltb_lt in Et. intros [= <-]. split.
  - apply Qle_shift_div_l; lra.
  - apply Qle_shift_div_r; lra.
Qed.

(** The groups of [calculate_brier_score] are those of
    [group_by_model], rescaled. *)
Lemma brier_groups (responses : list ModelResponse) :
  fold_left
    (fun d response =>
       match valid_probability response with
       | Some p =>
           dict_set d (response_model response)
                    (default [] (dict_get d (response_model response))
                     ++ [p / 100.0])
       | None => d
       end)
    responses []
  = map (fun g => (g.1, map (fun p => p / 100.0) g.2))
        (group_by_model responses).
Proof.
  unfold group_by_model.
  set (F := fun g : string * list Q => (g.1, map (fun p => p / 100.0) g.2)).
  assert (Hget : forall d k,
             dict_get (map F d) k
             = option_map (map (fun p => p / 100.0)) (dict_get d k)).
  { induction d as [|[k' v'] d IH]; intros k; cbn [map dict_get F fst snd];
      [reflexivity|].
    destruct (String.eqb k' k); [reflexivity|apply IH]. }
  assert (Hset : forall d k v,
             dict_set (map F d) k (map (fun p => p / 100.0) v)
             = map F (dict_set d k v)).
  { induction d as [|[k' v'] d IH]; intros k v;
      cbn [map dict_set F fst snd]; [reflexivity|].
    destruct (String.eqb k' k); cbn [map F fst snd]; [reflexivity|].
    rewrite IH. reflexivity. }
  change (@nil (string * list Q)) with (map F []) at 1.
  generalize (@nil (string * list Q)).
  induction responses as [|r rs IH]; intros d; cbn [fold_left];
    [reflexivity|].
  destruct (valid_probability r) as [p|]; [|apply IH].
  rewrite <- IH. f_equal. rewrite Hget, <- Hset. f_equal.
  destruct (dict_get d (response_model r)); cbn [option_map default];
    rewrite map_app; reflexivity.
Qed.

Lemma squared_error_unit (m : Q) (outcome : bool) :
  0 <= m <= 1 ->
  0 <= (m - (if outcome then 1.0 else 0.0))
       * (m - (if outcome then 1.0 else 0.0)) <= 1.
Proof.
  intros [H0 H1]. destruct outcome.
  - assert (E : (m - 1.0) * (m - 1.0) == (1 - m) * (1 - m)) by ring.
    rewrite E. clear E.
    assert (0 <= (1 - m) * (1 - m)) by (apply Qmult_le_0_compat; lra).
    assert ((1 - m) * (1 - m) <= 1 * (1 - m))
      by (apply Qmult_le_compat_r; lra).
    lra.
  - assert (E : (m - 0.0) * (m - 0.0) == m * m) by ring.
    rewrite E. clear E.
    assert (0 <= m * m) by (apply Qmult_le_0_compat; lra).
    assert (m * m <= 1 * m) by (apply Qmult_le_compat_r; lra).
    lra.
Qed.

Lemma rescaled_unit (l : list Q) :
  Forall (fun p => 0 <= p <= 100) l ->
  Forall (fun p => 0 <= p <= 1) (map (fun p => p / 100.0) l).
Proof.
  intros H. apply Forall_map. eapply Forall_impl; [exact H|].
  intros x [H0 H1]. cbv beta. split.
  - apply Qle_shift_div_l; [reflexivity|lra].
  - apply Qle_shift_div_r; [reflexivity|].
    assert (E : 1 * 100.0 == 100) by reflexivity. rewrite E. exact H1.
Qed.

(** X30.  [calculate_brier_score] reports an error when no response is
    valid.  Otherwise, for responses in [0,100], the ensemble score and
    every per-model score lie in [0,1], there is one score for each
    model with a valid response, in the order of first appearance, and
    the reference score is 0.25. *)
Theorem X30_brier_scores_in_unit_interval :
  forall (responses : list ModelResponse) (actual_outcome : bool),
    responses_ok responses ->
    (omap valid_probability responses = [] ->
     exists message,
       calculate_brier_score responses actual_outcome = BrierError message)
    /\ (omap valid_probability responses <> [] ->
        exists ensemble scores,
          calculate_brier_score responses actual_outcome
          = BrierOk ensemble scores 0.25
          /\ 0 <= ensemble <= 1
          /\ map fst scores = map fst (group_by_model responses)
          /\ Forall (fun kv => 0 <= kv.2 <= 1) scores).
Proof.
  intros responses actual_outcome Hok.
  pose proof (valid_probabilities_in_range responses Hok) as Hv.
  unfold calculate_brier_score. rewrite brier_groups. split.
  - intros ->. eexists. reflexivity.
  - intros Hne.
    destruct (map (fun p => p / 100.0) (omap valid_probability responses))
      as [|x xs] eqn:Em.
    { apply map_eq_nil in Em. congruence. }
    rewrite <- Em. do 2 eexists. split; [reflexivity|].
    split; [|split].
    + apply squared_error_unit. apply np_mean_bounds.
      * rewrite Em. discriminate.
      * apply rescaled_unit, Hv.
    + rewrite !map_map. apply map_ext. intros [k l]. reflexivity.
    + rewrite map_map. apply Forall_map.
      eapply Forall_impl;
        [apply (group_by_model_values (fun p => 0 <= p <= 100)); exact Hv|].
      intros [k l] [Hl Hn]. cbn [fst snd] in *.
      apply squared_error_unit. apply np_mean_bounds.
      * intros E. apply map_eq_nil in E. contradiction.
      * apply rescaled_unit, Hl.
Qed.


(** ** Examples for the aggregator *)

Lemma mixed_responses_ok : responses_ok mixed_responses.
Proof.
  unfold responses_ok, mixed_responses, response_of.
  repeat (constructor;
          [intros p H; cbn [response_probability] in H; try discriminate H;
           injection H as <-; split; vm_compute; discriminate|]).
  constructor.
Qed.

Lemma approx_sqrt_nonneg (x : Q) : 0 <= approx_sqrt x.
Proof.
  unfold approx_sqrt. apply Qle_shift_div_l; [reflexivity|].
  rewrite Qmult_0_l. change 0 with (inject_Z 0). rewrite <- Zle_Qle.
  apply Z.sqrt_nonneg.
Qed.

Lemma X24_ensemble_probability_in_range_witness :
  exists p self',
    calculate_ensemble_probability (L := rational_lib)
      ForecastAggregator_init mixed_responses = Ok (Some p, self')
    /\ 0 <= p <= 100.
Proof.
  destruct (@X24_ensemble_probability_in_range rational_lib
              ForecastAggregator_init mixed_responses)
    as (v & self' & E & _ & H).
  - exact mixed_responses_ok.
  - reflexivity.
  - intros id perf H. cbn in H. rewrite lookup_empty in H. discriminate.
  - reflexivity.
  - destruct H as (p & -> & Hp); [vm_compute; discriminate|].
    exists p, self'. split; assumption.
Defined.

Lemma X25_identify_outliers_contract_witness :
  identify_outliers (L := rational_lib) mixed_responses "iqr" = ["C_2"%string]
  /\ forall id, In id (identify_outliers (L := rational_lib)
                         mixed_responses "iqr") ->
       exists r p, In r mixed_responses /\ valid_probability r = Some p
                   /\ response_ensemble_id r = id
                   /\ (p < np_percentile [30; 32; 31; 33; 95] 25
                       \/ np_percentile [30; 32; 31; 33; 95] 75 < p).
Proof.
  split; [vm_compute; reflexivity|].
  intros id Hid.
  destruct (@X25_identify_outliers_contract rational_lib mixed_responses
              "iqr") as (_ & _ & H).
  destruct (H id Hid) as (r & p & H1 & H2 & H3 & H4).
  exists r, p. repeat split; try assumption. exact (H4 eq_refl).
Defined.

Lemma X26_analyze_consensus_contract_witness :
  exists c,
    analyze_consensus (L := rational_lib) mixed_responses = ConsensusOk c
    /\ consensus_count c = 5%nat
    /\ 0 <= consensus_p25 c
    /\ consensus_p25 c <= consensus_p75 c
    /\ consensus_p75 c <= 100
    /\ 0 <= consensus_iqr c
    /\ consensus_iqr c <= consensus_range c
    /\ (forall s, consensus_score c = Some s -> 0 <= s <= 1).
Proof.
  destruct (@X26_analyze_consensus_contract rational_lib mixed_responses
              approx_sqrt_nonneg mixed_responses_ok) as [_ H].
  destruct H as (c & H1 & H2 & H3 & H4 & H5 & H6 & H7 & H8 & _);
    [vm_compute; lia|].
  exists c. do 7 (split; [assumption|]). exact H8.
Defined.


Lemma X28_default_weights_mean_of_model_means_witness :
  exists p,
    calculate_weighted_ensemble_probability mixed_responses None = Some p
    /\ p == np_mean [np_mean [30; 32]; np_mean [31]; np_mean [33; 95]].
Proof.
  apply (X28_default_weights_mean_of_model_means mixed_responses).
  vm_compute. discriminate.
Defined.

Lemma X29_weighted_ensemble_in_range_witness :
  exists p,
    calculate_weighted_ensemble_probability mixed_responses
      (Some (<["A"%string := 2]> (<["C"%string := 1]> ∅)))
    = Some p
    /\ p == 42 /\ 0 <= p <= 100.
Proof.
  exists (12600 # 300).
  assert (E : calculate_weighted_ensemble_probability mixed_responses
                (Some (<["A"%string := 2]> (<["C"%string := 1]> ∅)))
              = Some (12600 # 300)).
  { vm_compute. reflexivity. }
  split; [exact E|]. split; [reflexivity|].
  apply (X29_weighted_ensemble_in_range mixed_responses
           (<["A"%string := 2]> (<["C"%string := 1]> ∅)) (12600 # 300)).
  - exact mixed_responses_ok.
  - intros k x H.
    destruct (decide (k = "A"%string)) as [->|HA].
    { rewrite lookup_insert_eq in H. injection H as <-. discriminate. }
    rewrite lookup_insert_ne in H by congruence.
    destruct (decide (k = "C"%string)) as [->|HC].
    { rewrite lookup_insert_eq in H. injection H as <-. discriminate. }
    rewrite lookup_insert_ne in H by congruence.
    rewrite lookup_empty in H. discriminate.
  - exact E.
Defined.

Lemma X30_brier_scores_in_unit_interval_witness :
  exists ensemble scores,
    calculate_brier_score mixed_responses true
    = BrierOk ensemble scores 0.25
    /\ 0 <= ensemble <= 1
    /\ map fst scores = ["A"; "B"; "C"]%string
    /\ Forall (fun kv => 0 <= kv.2 <= 1) scores.
Proof.
  destruct (X30_brier_scores_in_unit_interval mixed_responses true
              mixed_responses_ok) as [_ H].
  apply H. vm_compute. discriminate.
Defined.
